(** * map_viz: the monument dashboard (streamlit_dashboard/first_app.py)

    A shallow embedding of the data path of the dashboard script: the
    categories offered in the sidebar (line 21), the category aggregator
    (lines 39-44) and the scale builder (lines 46-51).

    Data model.  The municipality frame [monuments_df] is a table of named
    columns of equal length.  Monument counts and the population figure are
    integer columns (int64: a sum wraps around modulo 2^64); the rate
    computed by the script is a column of IEEE
    binary64 numbers, for which the Standard Library's executable
    specification [SpecFloat] is used with [prec = 53] and [emax = 1024].
    A Python exception is modelled as [None]. *)

From Stdlib Require Import ZArith Lia Lqa Bool List String Ascii QArith Qabs Sorted.
From Stdlib Require Import Floats.SpecFloat.
From stdpp Require Import base option list gmap strings sorting.

Local Open Scope Z_scope.

(** ** binary64 arithmetic (numpy float64, Python float) *)

Module F64.

Definition prec : Z := 53.
Definition emax : Z := 1024.

Definition div : spec_float -> spec_float -> spec_float := SFdiv prec emax.
Definition mul : spec_float -> spec_float -> spec_float := SFmul prec emax.
Definition add : spec_float -> spec_float -> spec_float := SFadd prec emax.
Definition sub : spec_float -> spec_float -> spec_float := SFsub prec emax.

(** Conversion of an integer to float64 (round to nearest even). *)
Definition of_Z (z : Z) : spec_float := binary_normalize prec emax z 0 false.

Definition zero : spec_float := S754_zero false.

Definition is_nan (x : spec_float) : bool :=
  match x with S754_nan => true | _ => false end.

Definition is_finite (x : spec_float) : bool :=
  match x with S754_zero _ | S754_finite _ _ _ => true | _ => false end.

Definition is_zero (x : spec_float) : bool :=
  match x with S754_zero _ => true | _ => false end.

Definition valid (x : spec_float) : bool := valid_binary prec emax x.

(** [==] and [<=] of float64: false as soon as one side is NaN. *)
Definition eqb : spec_float -> spec_float -> bool := SFeqb.
Definition leb : spec_float -> spec_float -> bool := SFleb.
Definition ltb : spec_float -> spec_float -> bool := SFltb.

End F64.

(** ** The frame *)

(** A column of the frame: an integer column (int64 counts, population), a
    float64 column, or a column of anything else (names, geometry), of which
    only the labels matter here. *)
Inductive column :=
| Counts (xs : list Z)
| Floats (xs : list spec_float)
| Labels (xs : list string).

Record frame := Frame { nrows : nat; columns : gmap string column }.

Definition column_length (c : column) : nat :=
  match c with
  | Counts xs => length xs
  | Floats xs => length xs
  | Labels xs => length xs
  end.

(** Every column of a frame has one cell per row. *)
Definition frame_wf (df : frame) : Prop :=
  ∀ name c, columns df !! name = Some c → column_length c = nrows df.

(** [df[name] = c] *)
Definition setitem (df : frame) (name : string) (c : column) : frame :=
  Frame (nrows df) (<[name := c]> (columns df)).

(** [df[name]], a KeyError when the column is absent. *)
Definition getitem (df : frame) (name : string) : option column :=
  columns df !! name.

(** [df[labels]]: the named columns in the order of the labels (a label that
    occurs twice selects its column twice), a KeyError when one is absent. *)
Definition getitem_list (df : frame) (labels : list string) : option (list column) :=
  mapM (getitem df) labels.

(** The mapping table [column_mapping_df]: one row per subcategory column,
    with its [hoofdcategorie] and its [column_mapping]. *)
Definition mapping := list (string * string).

(** [column_mapping_df[column_mapping_df['hoofdcategorie'] == categorie]['column_mapping']] *)
Definition selected_columns (cm : mapping) (categorie : string) : list string :=
  (filter (λ r, r.1 = categorie) cm).*2.

(** The integer cells of a list of selected columns.  The data model is
    that of the monument counts: a selected column that is not an integer
    column (pandas would add a float64 column in float64) is outside it, the
    model gives no result for such a frame, and every statement about a
    result of line 41 is made for integer columns ([count_columns]). *)
Definition counts_of (c : column) : option (list Z) :=
  match c with Counts xs => Some xs | _ => None end.

(** int64 arithmetic: a result is taken modulo 2^64 into the range from
    -2^63 to 2^63 - 1 (numpy wraps around, it does not raise). *)
Definition wrap64 (z : Z) : Z := (z + 2 ^ 63) mod 2 ^ 64 - 2 ^ 63.

Definition add64 (a b : Z) : Z := wrap64 (a + b).

(** [.sum(axis = 1)]: one int64 sum per row, over the selected columns.
    Over no column at all pandas gives a float64 column of zeros. *)
Definition sum_axis1 (n : nat) (cols : list column) : option column :=
  match cols with
  | [] => Some (Floats (replicate n F64.zero))
  | _ => xss ← mapM counts_of cols;
         Some (Counts (foldr (zip_with add64) (replicate n 0) xss))
  end.

(** The two sidebar choices. *)
Inductive berekening := TotaalAantal | Per100000Inwoners.
Inductive classificatie := GelijkeIntervals | MachtenVan10.

Definition metric : string := "aantal_monumenten_binnen_categorie".
Definition bevolking : string := "TotaleBevolking_1".

(** The cells of a numeric column as float64. *)
Definition to_floats (c : column) : option (list spec_float) :=
  match c with
  | Counts xs => Some (F64.of_Z <$> xs)
  | Floats xs => Some xs
  | Labels _ => None
  end.

(** [a / b * 100000] on two columns of one frame, cell by cell. *)
Definition per_100000 (a b : column) : option column :=
  xs ← to_floats a;
  ys ← to_floats b;
  Some (Floats ((λ q, F64.mul q (F64.of_Z 100000)) <$> zip_with F64.div xs ys)).

(** Lines 39-44. *)
Definition aggregate (df : frame) (cm : mapping) (categorie : string)
    (function : berekening) : option frame :=
  cols ← getitem_list df (selected_columns cm categorie);
  total ← sum_axis1 (nrows df) cols;
  let df1 := setitem df metric total in
  match function with
  | TotaalAantal => Some df1
  | Per100000Inwoners =>
      a ← getitem df1 metric;
      b ← getitem df1 bevolking;
      rate ← per_100000 a b;
      Some (setitem df1 metric rate)
  end.

(** The integer in row [i] of column [name] (0 where there is none). *)
Definition cell (df : frame) (name : string) (i : nat) : Z :=
  match columns df !! name with
  | Some (Counts xs) => default 0 (xs !! i)
  | _ => 0
  end.

(** The sum over row [i] of the cells of the listed columns, as a
    mathematical integer; the metric holds it wrapped to an int64. *)
Definition row_total (df : frame) (labels : list string) (i : nat) : Z :=
  foldr Z.add 0 ((λ name, cell df name i) <$> labels).

(** The selected columns are integer columns of the frame. *)
Definition count_columns (df : frame) (labels : list string) : Prop :=
  ∀ name, name ∈ labels → ∃ xs, columns df !! name = Some (Counts xs).

(** ** Scalars, maximum, rounding *)

(** A number handed to the scale builder: a numpy int64 or float64 scalar
    (the maximum of the metric column), or a Python int or float. *)
Inductive scalar :=
| SInt (z : Z)
| SFloat (f : spec_float).

Module Round.

(** Round a finite float64 to the nearest integer, ties to even (C [rint]),
    with the shifting and rounding of [SpecFloat] itself. *)
Definition rint (x : spec_float) : spec_float :=
  match x with
  | S754_finite s m e =>
      if 0 <=? e then x
      else
        let '(mrs, _) := shr (Build_shr_record (Zpos m) false false) e (- e) in
        let n := round_nearest_even (shr_m mrs) (loc_of_shr_record mrs) in
        binary_normalize F64.prec F64.emax (cond_Zopp s n) 0 s
  | _ => x
  end.

(** [int(x)] of a Python float: the integer part, OverflowError on an
    infinity and ValueError on a NaN. *)
Definition trunc (x : spec_float) : option Z :=
  match x with
  | S754_zero _ => Some 0
  | S754_finite s m e =>
      Some (cond_Zopp s (if 0 <=? e then Zpos m * 2 ^ e else Zpos m / 2 ^ (- e)))
  | _ => None
  end.

End Round.

(** [np.round(x, 0)]: an integer is returned as it is. *)
Definition np_round (x : scalar) : scalar :=
  match x with
  | SInt z => SInt z
  | SFloat f => SFloat (Round.rint f)
  end.

(** [int(x)] *)
Definition py_int (x : scalar) : option Z :=
  match x with
  | SInt z => Some z
  | SFloat f => Round.trunc f
  end.

(** [float(x)], as numpy converts the arguments of [linspace]. *)
Definition to_float (x : scalar) : spec_float :=
  match x with
  | SInt z => F64.of_Z z
  | SFloat f => f
  end.

(** [str(n)] of a Python int: the decimal digits, most significant first,
    after a minus sign for a negative number. *)
Definition digit_char (d : Z) : ascii := ascii_of_nat (48 + Z.to_nat d).

Fixpoint str_digits (fuel : nat) (n : Z) (acc : string) : string :=
  match fuel with
  | O => acc
  | S fuel' =>
      let acc' := String (digit_char (n mod 10)) acc in
      if n <? 10 then acc' else str_digits fuel' (n / 10) acc'
  end.

(** A number below [2 ^ (k + 1)] has at most [k + 1] decimal digits: the
    binary logarithm is fuel enough. *)
Definition str_nonneg (n : Z) : string :=
  str_digits (S (Z.to_nat (Z.log2 n))) n EmptyString.

Definition py_str (n : Z) : string :=
  if n <? 0 then String "-"%char (str_nonneg (- n)) else str_nonneg n.

(** [Series.max()]: NaN cells are skipped, and the maximum of no value at
    all is NaN. *)
Definition float_max (a b : spec_float) : spec_float :=
  if F64.leb a b then b else a.

Definition series_max (c : column) : option scalar :=
  match c with
  | Counts [] => Some (SFloat S754_nan)
  | Counts (x :: xs) => Some (SInt (foldl Z.max x xs))
  | Floats xs =>
      match filter (λ x, F64.is_nan x = false) xs with
      | [] => Some (SFloat S754_nan)
      | x :: r => Some (SFloat (foldl float_max x r))
      end
  | Labels _ => None
  end.

(** ** The scale builder *)

(** [np.linspace(start, stop, num)] on float64, as numpy computes it:
    [step = (stop - start) / (num - 1)], the grid [0, 1, ..., num - 1] times
    [step] (or, when [step] underflows to zero, the grid divided by
    [num - 1] times [stop - start]), plus [start], and the last entry
    overwritten with [stop]. *)
Definition linspace (start stop : spec_float) (num : nat) : list spec_float :=
  let dv := Z.of_nat num - 1 in
  let delta := F64.sub stop start in
  let y := (λ i, F64.of_Z (Z.of_nat i)) <$> seq 0 num in
  let y :=
    if 0 <? dv then
      let step := F64.div delta (F64.of_Z dv) in
      if F64.eqb step F64.zero
      then (λ v, F64.mul (F64.div v (F64.of_Z dv)) delta) <$> y
      else (λ v, F64.mul v step) <$> y
    else (λ v, F64.mul v delta) <$> y in
  let y := (λ v, F64.add v start) <$> y in
  if 0 <? dv then <[Nat.pred num := stop]> y else y.

(** [len(str(int(np.round(m, 0))))] *)
Definition n_digits (m : scalar) : option nat :=
  z ← py_int (np_round m);
  Some (String.length (py_str z)).

(** [[10**i for i in range(n)]] *)
Definition powers_of_ten (n : nat) : list Z :=
  (λ i, 10 ^ Z.of_nat i) <$> seq 0 n.

(** Lines 46-51, from the maximum [m] of the metric column. *)
Definition scale (label_classification : classificatie) (m : scalar)
    : option (list scalar) :=
  match label_classification with
  | GelijkeIntervals => Some (SFloat <$> linspace (F64.of_Z 0) (to_float m) 5)
  | MachtenVan10 =>
      n ← n_digits m;
      Some (SInt <$> (0 :: powers_of_ten (n + 1)))
  end.

(** Lines 39-51: the scale the dashboard hands to the choropleth. *)
Definition dashboard_scale (df : frame) (cm : mapping) (categorie : string)
    (function : berekening) (label_classification : classificatie)
    : option (list scalar) :=
  df' ← aggregate df cm categorie function;
  c ← getitem df' metric;
  m ← series_max c;
  scale label_classification m.

(** ** The sidebar *)

(** [Series.unique()]: the values in the order in which they first occur
    (a hash table of the values seen so far). *)
Fixpoint unique_from (seen : gset string) (xs : list string) : list string :=
  match xs with
  | [] => []
  | x :: xs =>
      if decide (x ∈ seen) then unique_from seen xs
      else x :: unique_from ({[x]} ∪ seen) xs
  end.

Definition unique (xs : list string) : list string := unique_from ∅ xs.

(** [a <= b] on Python strings: the order of the code points, character by
    character, a proper prefix first; on UTF-8 text this is the order of
    the bytes. *)
Definition str_le (a b : string) : Prop := String.leb a b = true.

#[local] Instance str_le_dec : RelDecision str_le :=
  λ a b, decide (String.leb a b = true).

(** [np.sort] of an array of strings: its ascending arrangement (there is
    one only, whatever the sorting algorithm). *)
Definition np_sort (xs : list string) : list string := merge_sort str_le xs.

(** Line 21: [np.sort(column_mapping_df['hoofdcategorie'].unique())], the
    options of the category selector. *)
Definition main_categories (cm : mapping) : list string := np_sort (unique cm.*1).

(** ** Exact values *)

(** The rational number a finite float64 stands for. *)
Definition F2Q (x : spec_float) : Q :=
  match x with
  | S754_finite s m e =>
      if 0 <=? e then inject_Z (cond_Zopp s (Zpos m) * 2 ^ e)
      else Qmake (cond_Zopp s (Zpos m)) (2 ^ Z.to_pos (- e))
  | _ => 0%Q
  end.

(** The value of a finite float64 in units of [2 ^ -1200], an integer for
    every exponent from -1200 on. *)
Definition scaled (x : spec_float) : Z :=
  match x with
  | S754_finite s m e => cond_Zopp s (Zpos m) * 2 ^ (e + 1200)
  | _ => 0
  end.

Definition scalar_finite (x : scalar) : bool :=
  match x with
  | SInt _ => true
  | SFloat f => F64.is_finite f && F64.valid f
  end.

Definition scalar_Q (x : scalar) : Q :=
  match x with
  | SInt z => inject_Z z
  | SFloat f => F2Q f
  end.

(** [d] is the number of decimal digits of the natural number [n]: one
    digit for zero, and otherwise [10 ^ (d - 1) <= n < 10 ^ d]. *)
Definition is_digit_count (n : Z) (d : nat) : Prop :=
  (n = 0 ∧ d = 1%nat) ∨ (0 < n ∧ 10 ^ (Z.of_nat d - 1) <= n < 10 ^ Z.of_nat d).

(** The integer [n] is the value of [x] rounded to the nearest integer. *)
Definition is_rounding (x : scalar) (n : Z) : Prop :=
  (inject_Z (2 * n - 1) <= 2 * scalar_Q x)%Q ∧ (2 * scalar_Q x <= inject_Z (2 * n + 1))%Q.

(** A finite positive number: a positive integer or a positive finite
    float64. *)
Definition scalar_positive (x : scalar) : Prop :=
  match x with
  | SInt z => 0 < z
  | SFloat (S754_finite false m e) => F64.valid (S754_finite false m e) = true
  | SFloat _ => False
  end.

(** A finite number that is not negative. *)
Definition scalar_nonneg (x : scalar) : Prop :=
  match x with
  | SInt z => 0 <= z
  | SFloat (S754_zero _) => True
  | SFloat (S754_finite false m e) => F64.valid (S754_finite false m e) = true
  | SFloat _ => False
  end.

(** A scale of finite, non-negative boundaries in ascending order. *)
Definition ascending (bs : list scalar) : Prop :=
  StronglySorted (λ a b, (scalar_Q a <= scalar_Q b)%Q) bs.

Definition boundaries_nonneg (bs : list scalar) : Prop :=
  Forall (λ b, scalar_finite b = true ∧ (0 <= scalar_Q b)%Q) bs.

(** A scale that serves the maximum [m]: ascending, non-negative, and
    reaching beyond [m]. *)
Definition well_defined_scale (m : scalar) (bs : list scalar) : Prop :=
  ascending bs ∧ boundaries_nonneg bs
  ∧ ∃ b, last bs = Some b ∧ (scalar_Q m < scalar_Q b)%Q.

(** A number: an int64, or a finite float64. *)
Definition is_number (x : scalar) : Prop :=
  match x with
  | SInt z => - 2 ^ 63 <= z < 2 ^ 63
  | SFloat f => F64.is_finite f = true ∧ F64.valid f = true
  end.

(** ** A small dataset

    Four municipalities, three subcategory columns, two categories; two of
    the municipalities have no inhabitants. *)
Definition example_cm : mapping :=
  [("religieus", "kerk"); ("religieus", "kapel"); ("industrie", "molen")]%string.

Definition example_df : frame :=
  Frame 4
    (<["gemeentenaam"%string := Labels ["Aa"; "Bee"; "Cee"; "Dee"]%string]>
       (<[bevolking := Counts [100000; 0; 0; 50000]]>
          (<["kerk"%string := Counts [2; 0; 1; 4]]>
             (<["kapel"%string := Counts [3; 0; 4; 0]]>
                (<["molen"%string := Counts [7; 1; 0; 2]]> ∅))))).

(** Three municipalities; the one without inhabitants has no monument. *)
Definition example_towns : frame :=
  Frame 3
    (<["gemeentenaam"%string := Labels ["Aa"; "Bee"; "Dee"]%string]>
       (<[bevolking := Counts [100000; 0; 50000]]>
          (<["kerk"%string := Counts [2; 0; 4]]>
             (<["kapel"%string := Counts [3; 0; 0]]>
                (<["molen"%string := Counts [7; 0; 2]]> ∅))))).

(** One municipality, every mapped column, and no population column. *)
Definition example_no_population : frame :=
  Frame 1
    (<["kerk"%string := Counts [3]]>
       (<["kapel"%string := Counts [1]]>
          (<["molen"%string := Counts [2]]> ∅))).

(** Every mapped column and the population, and no municipality. *)
Definition example_no_rows : frame :=
  Frame 0
    (<[bevolking := Counts []]>
       (<["kerk"%string := Counts []]>
          (<["kapel"%string := Counts []]>
             (<["molen"%string := Counts []]> ∅)))).

(** * Facts *)

(** ** Row sums *)

Lemma selected_columns_spec (cm : mapping) (categorie name : string) :
  name ∈ selected_columns cm categorie ↔ (categorie, name) ∈ cm.
Proof.
  unfold selected_columns. rewrite list_elem_of_fmap. split.
  - intros [[h c] [-> Hin]]. apply list_elem_of_filter in Hin as [Hh Hin].
    simpl in *. by subst.
  - intros Hin. exists (categorie, name). split; [done|].
    apply list_elem_of_filter. by split.
Qed.

Lemma selected_columns_nonempty (cm : mapping) (categorie : string) :
  categorie ∈ cm.*1 → selected_columns cm categorie ≠ [].
Proof.
  rewrite list_elem_of_fmap. intros [[h c] [-> Hin]] Hnil. simpl in Hnil.
  assert (Hc : c ∈ selected_columns cm h) by by apply selected_columns_spec.
  rewrite Hnil in Hc. by apply not_elem_of_nil in Hc.
Qed.

Lemma wrap64_range (z : Z) : - 2 ^ 63 <= wrap64 z < 2 ^ 63.
Proof.
  unfold wrap64. pose proof (Z.mod_pos_bound (z + 2 ^ 63) (2 ^ 64) ltac:(done)).
  change (2 ^ 64) with (2 * 2 ^ 63) in *. lia.
Qed.

(** An int64 is left as it is. *)
Lemma wrap64_id (z : Z) : - 2 ^ 63 <= z < 2 ^ 63 → wrap64 z = z.
Proof.
  intros Hz. unfold wrap64. rewrite Z.mod_small; [lia|].
  change (2 ^ 64) with (2 * 2 ^ 63). lia.
Qed.

(** Wrapping the partial sums is wrapping the sum. *)
Lemma add64_wrap (a b : Z) : add64 a (wrap64 b) = wrap64 (a + b).
Proof.
  unfold add64, wrap64. f_equal.
  replace (a + ((b + 2 ^ 63) mod 2 ^ 64 - 2 ^ 63) + 2 ^ 63)
    with (a + (b + 2 ^ 63) mod 2 ^ 64) by lia.
  rewrite Z.add_mod_idemp_r by done. f_equal. lia.
Qed.

Lemma zip_with_add_lookup (xs ys : list Z) (i : nat) :
  length xs = length ys →
  default 0 (zip_with add64 xs ys !! i) = add64 (default 0 (xs !! i)) (default 0 (ys !! i)).
Proof.
  revert ys i. induction xs as [|x xs IH]; intros [|y ys] [|i] Hlen;
    simpl in *; try done; try lia.
  apply IH. lia.
Qed.

Lemma foldr_zip_length (n : nat) (xss : list (list Z)) :
  Forall (λ xs, length xs = n) xss →
  length (foldr (zip_with add64) (replicate n 0) xss) = n.
Proof.
  induction 1 as [|xs xss Hxs _ IH]; simpl.
  - by rewrite length_replicate.
  - rewrite length_zip_with, IH. lia.
Qed.

Lemma foldr_zip_lookup (n : nat) (xss : list (list Z)) (i : nat) :
  Forall (λ xs, length xs = n) xss →
  default 0 (foldr (zip_with add64) (replicate n 0) xss !! i)
  = wrap64 (foldr Z.add 0 ((λ xs, default 0 (xs !! i)) <$> xss)).
Proof.
  induction 1 as [|xs xss Hxs Hall IH]; simpl.
  - destruct (replicate n 0 !! i) as [z|] eqn:E; [|done].
    apply lookup_replicate in E as [-> _]. done.
  - rewrite zip_with_add_lookup, IH; [apply add64_wrap|].
    by rewrite foldr_zip_length.
Qed.

(** Selecting integer columns of a well-formed frame succeeds, and gives
    their cells. *)
Lemma getitem_counts (df : frame) (labels : list string) :
  frame_wf df → count_columns df labels →
  ∃ xss, getitem_list df labels = Some (Counts <$> xss)
         ∧ Forall (λ xs, length xs = nrows df) xss
         ∧ ∀ i, (λ xs, default 0 (xs !! i)) <$> xss = (λ name, cell df name i) <$> labels.
Proof.
  intros Hwf. unfold getitem_list. induction labels as [|l ls IH]; intros Hc.
  - exists []. by repeat split.
  - destruct (Hc l) as [xs Hxs]; [by left|].
    destruct IH as (xss & Hget & Hlen & Hcell).
    { intros name Hin. apply Hc. by right. }
    exists (xs :: xss). repeat split.
    + simpl. change (getitem df l) with (columns df !! l).
      rewrite Hxs. simpl. by rewrite Hget.
    + constructor; [|done]. by apply (Hwf l (Counts xs)).
    + intros i. simpl. f_equal; [|apply Hcell].
      unfold cell. by rewrite Hxs.
Qed.

Lemma mapM_counts_of (xss : list (list Z)) :
  mapM counts_of (Counts <$> xss) = Some xss.
Proof.
  induction xss as [|xs xss IH]; [done|].
  rewrite fmap_cons. cbn [mapM]. rewrite IH. done.
Qed.

(** The total of the selected integer columns, as the aggregator computes
    it before any normalisation: the int64 sum of each row. *)
Lemma sum_selected (df : frame) (labels : list string) :
  frame_wf df → labels ≠ [] → count_columns df labels →
  ∃ cols xs, getitem_list df labels = Some cols
             ∧ sum_axis1 (nrows df) cols = Some (Counts xs)
             ∧ length xs = nrows df
             ∧ ∀ i, (i < nrows df)%nat →
                    xs !! i = Some (wrap64 (row_total df labels i)).
Proof.
  intros Hwf Hne Hc.
  destruct (getitem_counts df labels Hwf Hc) as (xss & Hget & Hlen & Hcell).
  exists (Counts <$> xss), (foldr (zip_with add64) (replicate (nrows df) 0) xss).
  split; [done|]. split; [|split].
  - destruct xss as [|xs xss].
    + destruct labels; [done|]. specialize (Hcell 0%nat). done.
    + pose proof (mapM_counts_of (xs :: xss)) as E.
      unfold sum_axis1. simpl in *. by rewrite E.
  - by apply foldr_zip_length.
  - intros i Hi. unfold row_total.
    rewrite <- Hcell, <- (foldr_zip_lookup (nrows df)) by done.
    destruct (foldr _ _ xss !! i) as [z|] eqn:E; [done|].
    apply lookup_ge_None in E. rewrite foldr_zip_length in E by done. lia.
Qed.

(** Beyond the int64 range the sum wraps around, as numpy's does:
    2^62 + 2^62 is -2^63, and -2^63 + -2^63 is 0. *)
Lemma sum_axis1_wraps :
  sum_axis1 1 [Counts [2 ^ 62]; Counts [2 ^ 62]] = Some (Counts [- 2 ^ 63])
  ∧ sum_axis1 1 [Counts [- 2 ^ 63]; Counts [- 2 ^ 63]] = Some (Counts [0]).
Proof. by vm_compute. Qed.

(** Where no row sum leaves the int64 range, the total is the row sum. *)
Lemma sum_selected_exact (df : frame) (labels : list string) :
  frame_wf df → labels ≠ [] → count_columns df labels →
  (∀ i, (i < nrows df)%nat → - 2 ^ 63 <= row_total df labels i < 2 ^ 63) →
  ∃ cols xs, getitem_list df labels = Some cols
             ∧ sum_axis1 (nrows df) cols = Some (Counts xs)
             ∧ length xs = nrows df
             ∧ ∀ i, (i < nrows df)%nat → xs !! i = Some (row_total df labels i).
Proof.
  intros Hwf Hne Hc Hfit.
  destruct (sum_selected df labels Hwf Hne Hc) as (cols & xs & Hget & Hsum & Hlen & Hrow).
  exists cols, xs. do 3 (split; [done|]).
  intros i Hi. rewrite (Hrow i Hi). f_equal. apply wrap64_id. by apply Hfit.
Qed.

(** C1. For every category of the mapping table, the aggregator (total
    mode) returns the frame with the metric column holding, for each
    municipality, the int64 sum over that row of exactly the columns the
    mapping table maps to the category, one value per municipality: the sum
    itself whenever it is an int64, and the sum wrapped around modulo 2^64
    when it is not. *)
Theorem aggregate_total_is_row_sum (df : frame) (cm : mapping) (categorie : string) :
  frame_wf df →
  categorie ∈ cm.*1 →
  count_columns df (selected_columns cm categorie) →
  (∀ name, name ∈ selected_columns cm categorie ↔ (categorie, name) ∈ cm)
  ∧ ∃ df' xs,
      aggregate df cm categorie TotaalAantal = Some df'
      ∧ columns df' !! metric = Some (Counts xs)
      ∧ length xs = nrows df
      ∧ ∀ i, (i < nrows df)%nat →
             xs !! i = Some (wrap64 (row_total df (selected_columns cm categorie) i))
             ∧ (- 2 ^ 63 <= row_total df (selected_columns cm categorie) i < 2 ^ 63 →
                xs !! i = Some (row_total df (selected_columns cm categorie) i)).
Proof.
  intros Hwf Hcat Hc. split; [apply selected_columns_spec|].
  destruct (sum_selected df _ Hwf (selected_columns_nonempty _ _ Hcat) Hc)
    as (cols & xs & Hget & Hsum & Hlen & Hrow).
  exists (setitem df metric (Counts xs)), xs.
  split; [unfold aggregate; rewrite Hget; simpl; by rewrite Hsum|].
  split; [simpl; apply lookup_insert_eq|]. split; [done|].
  intros i Hi. split; [by apply Hrow|].
  intros Hfit. rewrite (Hrow i Hi). f_equal. by apply wrap64_id.
Qed.

(** C9. Under either normalisation mode, the frame the aggregator returns
    has the rows of the loaded frame and, under every name other than the
    metric's, the very column the loaded frame has there. *)
Theorem aggregate_frame (df df' : frame) (cm : mapping) (categorie : string)
    (function : berekening) :
  aggregate df cm categorie function = Some df' →
  nrows df' = nrows df
  ∧ ∀ name, name ≠ metric → columns df' !! name = columns df !! name.
Proof.
  unfold aggregate. intros H.
  destruct (getitem_list df _) as [cols|]; [|done]. simpl in H.
  destruct (sum_axis1 _ cols) as [total|]; [|done]. simpl in H.
  destruct function.
  - injection H as <-. split; [done|]. intros name Hne. simpl.
    by apply lookup_insert_ne.
  - destruct (getitem _ metric) as [a|]; [|done]. simpl in H.
    destruct (getitem _ bevolking) as [b|]; [|done]. simpl in H.
    destruct (per_100000 a b) as [rate|]; [|done]. simpl in H.
    injection H as <-. split; [done|]. intros name Hne. simpl.
    rewrite !lookup_insert_ne; done.
Qed.

(** ** binary64: digits, shifting, rounding *)

Module F64Facts.
Import F64.

Lemma digits2_pos_bounds (p : positive) :
  2 ^ (Zpos (digits2_pos p) - 1) <= Zpos p < 2 ^ Zpos (digits2_pos p).
Proof.
  induction p as [p IH|p IH|]; simpl digits2_pos.
  - rewrite Pos2Z.inj_succ, (Pos2Z.inj_xI p).
    replace (Z.succ (Zpos (digits2_pos p)) - 1) with (Z.succ (Zpos (digits2_pos p) - 1)) by lia.
    rewrite !Z.pow_succ_r by lia. destruct IH as [IH1 IH2]. revert IH1 IH2.
    generalize (2 ^ (Zpos (digits2_pos p) - 1)) (2 ^ Zpos (digits2_pos p)).
    intros a b. lia.
  - rewrite Pos2Z.inj_succ, (Pos2Z.inj_xO p).
    replace (Z.succ (Zpos (digits2_pos p)) - 1) with (Z.succ (Zpos (digits2_pos p) - 1)) by lia.
    rewrite !Z.pow_succ_r by lia. destruct IH as [IH1 IH2]. revert IH1 IH2.
    generalize (2 ^ (Zpos (digits2_pos p) - 1)) (2 ^ Zpos (digits2_pos p)).
    intros a b. lia.
  - simpl. lia.
Qed.

Lemma Zdigits2_log2 (p : positive) : Zpos (digits2_pos p) = Z.log2 (Zpos p) + 1.
Proof.
  pose proof (digits2_pos_bounds p) as [H1 H2].
  symmetry. apply Z.add_move_r. apply Z.log2_unique; [lia|].
  replace (Z.succ (Zpos (digits2_pos p) - 1)) with (Zpos (digits2_pos p)) by lia.
  lia.
Qed.

Lemma Zdigits2_pos (m : Z) : 0 < m → Zdigits2 m = Z.log2 m + 1.
Proof. destruct m; try lia. intros _. apply Zdigits2_log2. Qed.

Lemma iter_pos_nat {A} (f : A → A) (p : positive) (x : A) :
  SpecFloat.iter_pos f p x = Nat.iter (Pos.to_nat p) f x.
Proof.
  revert x. induction p as [p IH|p IH|]; intros x; simpl SpecFloat.iter_pos.
  - rewrite !IH, Pos2Nat.inj_xI.
    replace (S (2 * Pos.to_nat p)) with (Pos.to_nat p + (Pos.to_nat p + 1))%nat by lia.
    rewrite !Nat.iter_add. done.
  - rewrite !IH, Pos2Nat.inj_xO.
    replace (2 * Pos.to_nat p)%nat with (Pos.to_nat p + Pos.to_nat p)%nat by lia.
    rewrite Nat.iter_add. done.
  - done.
Qed.

Lemma shr_1_m (mrs : shr_record) :
  0 <= shr_m mrs → shr_m (shr_1 mrs) = shr_m mrs / 2 ∧ 0 <= shr_m (shr_1 mrs).
Proof.
  destruct mrs as [m r s]. cbn [shr_m]. intros Hm.
  destruct m as [|[p|p|]|p]; cbn [shr_1 shr_m]; try lia.
  - done.
  - split; [|lia]. rewrite (Pos2Z.inj_xI p).
    apply Z.div_unique with 1; lia.
  - split; [|lia]. rewrite (Pos2Z.inj_xO p).
    apply Z.div_unique with 0; lia.
  - done.
Qed.

Lemma shr_iter_m (k : nat) (mrs : shr_record) :
  0 <= shr_m mrs →
  shr_m (Nat.iter k shr_1 mrs) = shr_m mrs / 2 ^ Z.of_nat k
  ∧ 0 <= shr_m (Nat.iter k shr_1 mrs).
Proof.
  intros Hm. induction k as [|k [IH1 IH2]].
  - simpl. rewrite Z.div_1_r. done.
  - simpl Nat.iter. destruct (shr_1_m _ IH2) as [E1 E2]. split; [|done].
    rewrite E1, IH1, Nat2Z.inj_succ, Z.pow_succ_r by lia.
    rewrite Z.div_div by lia. f_equal. lia.
Qed.

Lemma shr_spec (mrs : shr_record) (e n : Z) :
  0 <= shr_m mrs →
  shr_m (fst (shr mrs e n)) = shr_m mrs / 2 ^ Z.max 0 n
  ∧ snd (shr mrs e n) = e + Z.max 0 n.
Proof.
  intros Hm. destruct n as [|p|p]; simpl.
  - rewrite Z.div_1_r. lia.
  - rewrite iter_pos_nat. destruct (shr_iter_m (Pos.to_nat p) mrs Hm) as [E _].
    rewrite E, positive_nat_Z. done.
  - rewrite Z.div_1_r. lia.
Qed.

Lemma shr_record_of_loc_m (m : Z) (l : location) : shr_m (shr_record_of_loc m l) = m.
Proof. by destruct l as [|[]]. Qed.

Lemma rne_bounds (m : Z) (l : location) :
  m <= round_nearest_even m l <= m + 1.
Proof.
  destruct l as [|[]]; simpl; try lia. destruct (Z.even m); lia.
Qed.

(** Rounding a positive mantissa above the underflow threshold gives a
    finite number that is not zero, or an infinity, with the sign asked. *)
Lemma binary_round_aux_nonzero (sx : bool) (mx ex : Z) (lx : location) :
  0 < mx → emin prec emax < Zdigits2 mx + ex →
  (∃ m e, binary_round_aux prec emax sx mx ex lx = S754_finite sx m e)
  ∨ binary_round_aux prec emax sx mx ex lx = S754_infinity sx.
Proof.
  intros Hmx Hd. unfold binary_round_aux, shr_fexp.
  set (s1 := fexp prec emax (Zdigits2 mx + ex) - ex).
  destruct (shr (shr_record_of_loc mx lx) ex s1) as [mrs1 e1] eqn:E1.
  pose proof (shr_spec (shr_record_of_loc mx lx) ex s1) as [Hm1 He1].
  { rewrite shr_record_of_loc_m. lia. }
  rewrite E1, shr_record_of_loc_m in *. simpl in Hm1, He1.
  set (r1 := round_nearest_even (shr_m mrs1) (loc_of_shr_record mrs1)).
  set (s2 := fexp prec emax (Zdigits2 r1 + e1) - e1).
  destruct (shr (shr_record_of_loc r1 loc_Exact) e1 s2) as [mrs2 e2] eqn:E2.
  pose proof (Zdigits2_pos mx Hmx) as Hdx. pose proof (Z.log2_nonneg mx) as Hlx.
  assert (Hs1 : Z.max 0 s1 <= Z.log2 mx).
  { unfold s1, fexp, emin, prec, emax in *. lia. }
  assert (Hm1pos : 0 < shr_m mrs1).
  { rewrite Hm1. apply Z.div_str_pos. split; [apply Z.pow_pos_nonneg; lia|].
    etransitivity; [|apply (Z.log2_spec mx Hmx)].
    apply Z.pow_le_mono_r; lia. }
  assert (Hr1 : 0 < r1).
  { pose proof (rne_bounds (shr_m mrs1) (loc_of_shr_record mrs1)). unfold r1. lia. }
  pose proof (shr_spec (shr_record_of_loc r1 loc_Exact) e1 s2) as [Hm2 He2].
  { simpl. lia. }
  rewrite E2 in *. simpl in Hm2, He2.
  assert (Hs2 : Z.max 0 s2 <= Z.log2 r1).
  { pose proof (Zdigits2_pos r1 Hr1) as Hdr. pose proof (Z.log2_nonneg r1).
    unfold s2, s1, fexp, emin, prec, emax in *. lia. }
  assert (Hm2pos : 0 < shr_m mrs2).
  { rewrite Hm2. apply Z.div_str_pos. split; [apply Z.pow_pos_nonneg; lia|].
    etransitivity; [|apply (Z.log2_spec r1 Hr1)].
    apply Z.pow_le_mono_r; lia. }
  destruct (shr_m mrs2) as [|p|p]; try lia.
  destruct (e2 <=? emax - prec); [left; eauto|by right].
Qed.

Lemma of_Z_nonzero (z : Z) :
  z ≠ 0 →
  (∃ m e, of_Z z = S754_finite (z <? 0) m e) ∨ of_Z z = S754_infinity (z <? 0).
Proof.
  intros Hz. unfold of_Z, binary_normalize.
  assert (Hpos : ∀ s p,
    (∃ m e, binary_round prec emax s p 0 = S754_finite s m e)
    ∨ binary_round prec emax s p 0 = S754_infinity s).
  { intros s p. unfold binary_round.
    destruct (shl_align p 0 _) as [mz ez] eqn:E.
    apply binary_round_aux_nonzero; [lia|].
    unfold shl_align in E. rewrite Z.add_0_r in E.
    pose proof (digits2_pos_bounds p) as Hp.
    assert (Hd : 0 < Zpos (digits2_pos p)) by lia.
    destruct (fexp prec emax (Zpos (digits2_pos p)) - 0) as [|d|d] eqn:Ed;
      injection E as <- <-; simpl Zdigits2.
    - unfold emin, prec, emax. lia.
    - unfold emin, prec, emax. lia.
    - unfold fexp, emin, prec, emax in *. lia. }
  destruct z as [|p|p]; [done| |].
  - replace (Zpos p <? 0) with false by (symmetry; apply Z.ltb_ge; lia). apply Hpos.
  - replace (Zneg p <? 0) with true by (symmetry; apply Z.ltb_lt; lia). apply Hpos.
Qed.

End F64Facts.

(** ** The rate *)

Lemma metric_ne_bevolking : metric ≠ bevolking.
Proof. done. Qed.

Lemma to_floats_length (c : column) (xs : list spec_float) :
  to_floats c = Some xs → length xs = column_length c.
Proof.
  destruct c; simpl; intros [= <-]; [|done]. by rewrite length_fmap.
Qed.

(** The aggregator in rate mode: it returns, and every municipality gets its
    int64 total, as a float64, divided by its population and multiplied by
    100000. *)
Lemma aggregate_rate_cells (df : frame) (cm : mapping) (categorie : string)
    (population : column) (ps : list spec_float) :
  frame_wf df →
  categorie ∈ cm.*1 →
  count_columns df (selected_columns cm categorie) →
  columns df !! bevolking = Some population →
  to_floats population = Some ps →
  ∃ df' ys,
    aggregate df cm categorie Per100000Inwoners = Some df'
    ∧ columns df' !! metric = Some (Floats ys)
    ∧ length ys = nrows df
    ∧ ∀ i p, ps !! i = Some p →
        ys !! i = Some (F64.mul
                          (F64.div
                             (F64.of_Z (wrap64 (row_total df (selected_columns cm categorie) i)))
                             p)
                          (F64.of_Z 100000)).
Proof.
  intros Hwf Hcat Hc Hpop Hps.
  destruct (sum_selected df _ Hwf (selected_columns_nonempty _ _ Hcat) Hc)
    as (cols & xs & Hget & Hsum & Hlen & Hrow).
  assert (Hlps : length ps = nrows df).
  { rewrite (to_floats_length _ _ Hps). by apply (Hwf bevolking). }
  set (ys := (λ q, F64.mul q (F64.of_Z 100000)) <$> zip_with F64.div (F64.of_Z <$> xs) ps).
  exists (setitem (setitem df metric (Counts xs)) metric (Floats ys)), ys.
  split; [|split; [|split]].
  - unfold aggregate. rewrite Hget. simpl. rewrite Hsum. simpl.
    unfold getitem. simpl.
    rewrite lookup_insert_eq. simpl.
    rewrite lookup_insert_ne by apply metric_ne_bevolking.
    rewrite Hpop. simpl. unfold per_100000. simpl. rewrite Hps. done.
  - simpl. apply lookup_insert_eq.
  - unfold ys. rewrite length_fmap, length_zip_with, length_fmap. lia.
  - intros i p Hp. unfold ys.
    assert (Hi : (i < nrows df)%nat).
    { rewrite <- Hlps. by eapply lookup_lt_Some. }
    rewrite list_lookup_fmap, lookup_zip_with, list_lookup_fmap, (Hrow i Hi), Hp.
    done.
Qed.

(** Where no row sum leaves the int64 range, the rate is computed from the
    row sum. *)
Lemma aggregate_rate_cells_exact (df : frame) (cm : mapping) (categorie : string)
    (population : column) (ps : list spec_float) :
  frame_wf df →
  categorie ∈ cm.*1 →
  count_columns df (selected_columns cm categorie) →
  columns df !! bevolking = Some population →
  to_floats population = Some ps →
  (∀ i, (i < nrows df)%nat →
        - 2 ^ 63 <= row_total df (selected_columns cm categorie) i < 2 ^ 63) →
  ∃ df' ys,
    aggregate df cm categorie Per100000Inwoners = Some df'
    ∧ columns df' !! metric = Some (Floats ys)
    ∧ length ys = nrows df
    ∧ ∀ i p, ps !! i = Some p →
        ys !! i = Some (F64.mul
                          (F64.div (F64.of_Z (row_total df (selected_columns cm categorie) i)) p)
                          (F64.of_Z 100000)).
Proof.
  intros Hwf Hcat Hc Hpop Hps Hfit.
  destruct (aggregate_rate_cells df cm categorie population ps Hwf Hcat Hc Hpop Hps)
    as (df' & ys & Hagg & Hcol & Hlen & Hcell).
  exists df', ys. do 3 (split; [done|]). intros i p Hp.
  assert (Hi : (i < nrows df)%nat).
  { rewrite <- (Hwf bevolking population Hpop), <- (to_floats_length _ _ Hps).
    by eapply lookup_lt_Some. }
  rewrite (Hcell i p Hp). by rewrite (wrap64_id _ (Hfit i Hi)).
Qed.

Lemma of_Z_100000 : F64.of_Z 100000 = S754_finite false 6871947673600000 (-36).
Proof. vm_compute. reflexivity. Qed.

Lemma rate_5_per_100000 :
  F64.mul (F64.div (F64.of_Z 5) (F64.of_Z 100000)) (F64.of_Z 100000) = F64.of_Z 5.
Proof. vm_compute. reflexivity. Qed.

(** C2. In rate mode the aggregator returns the frame whose metric column
    holds, for each municipality, its summed count (the int64 sum of line
    41: the row sum itself whenever that is an int64) divided by its own
    population and multiplied by 100000, in float64; a municipality with
    population 100000 and count 5 gets exactly the float 5.0. *)
Theorem aggregate_rate_per_100000 (df : frame) (cm : mapping) (categorie : string)
    (population : column) (ps : list spec_float) :
  frame_wf df →
  categorie ∈ cm.*1 →
  count_columns df (selected_columns cm categorie) →
  columns df !! bevolking = Some population →
  to_floats population = Some ps →
  ∃ df' ys,
    aggregate df cm categorie Per100000Inwoners = Some df'
    ∧ columns df' !! metric = Some (Floats ys)
    ∧ length ys = nrows df
    ∧ (∀ i p, ps !! i = Some p →
         ys !! i = Some (F64.mul
                           (F64.div
                              (F64.of_Z (wrap64 (row_total df (selected_columns cm categorie) i)))
                              p)
                           (F64.of_Z 100000))
         ∧ (- 2 ^ 63 <= row_total df (selected_columns cm categorie) i < 2 ^ 63 →
            ys !! i = Some (F64.mul
                              (F64.div
                                 (F64.of_Z (row_total df (selected_columns cm categorie) i))
                                 p)
                              (F64.of_Z 100000))))
    ∧ (∀ i, ps !! i = Some (F64.of_Z 100000) →
         row_total df (selected_columns cm categorie) i = 5 →
         ys !! i = Some (F64.of_Z 5)
         ∧ F64.of_Z 5 = S754_finite false 5629499534213120 (-50)).
Proof.
  intros Hwf Hcat Hc Hpop Hps.
  destruct (aggregate_rate_cells df cm categorie population ps Hwf Hcat Hc Hpop Hps)
    as (df' & ys & Hagg & Hcol & Hlen & Hcell).
  exists df', ys. split; [done|]. split; [done|]. split; [done|].
  split.
  - intros i p Hp. split; [by apply Hcell|].
    intros Hfit. rewrite (Hcell i p Hp). by rewrite (wrap64_id _ Hfit).
  - intros i Hp Ht. split; [|by vm_compute].
    rewrite (Hcell i _ Hp), Ht. change (wrap64 5) with 5.
    by rewrite rate_5_per_100000.
Qed.

(** C6, as the code has it. A municipality whose population is zero does
    not make the rate normalisation raise: the aggregator returns, and the
    metric of that municipality is not a finite number: NaN when its summed
    count (the int64 sum of line 41) is zero, an infinity otherwise. *)
Theorem zero_population_rate (df : frame) (cm : mapping) (categorie : string)
    (population : column) (ps : list spec_float) :
  frame_wf df →
  categorie ∈ cm.*1 →
  count_columns df (selected_columns cm categorie) →
  columns df !! bevolking = Some population →
  to_floats population = Some ps →
  ∃ df' ys,
    aggregate df cm categorie Per100000Inwoners = Some df'
    ∧ columns df' !! metric = Some (Floats ys)
    ∧ ∀ i p, ps !! i = Some p → F64.is_zero p = true →
        ∃ v, ys !! i = Some v
             ∧ F64.is_finite v = false
             ∧ (wrap64 (row_total df (selected_columns cm categorie) i) = 0 →
                v = S754_nan)
             ∧ (wrap64 (row_total df (selected_columns cm categorie) i) ≠ 0 →
                ∃ s, v = S754_infinity s).
Proof.
  intros Hwf Hcat Hc Hpop Hps.
  destruct (aggregate_rate_cells df cm categorie population ps Hwf Hcat Hc Hpop Hps)
    as (df' & ys & Hagg & Hcol & Hlen & Hcell).
  exists df', ys. split; [done|]. split; [done|].
  intros i p Hp Hz. eexists. split; [by apply Hcell|].
  destruct p as [sp| | |]; try done. rewrite of_Z_100000.
  destruct (Z.eq_dec (wrap64 (row_total df (selected_columns cm categorie) i)) 0) as [E|E].
  - rewrite E. repeat split; try done.
  - destruct (F64Facts.of_Z_nonzero _ E) as [(m & e & ->)| ->]; simpl;
      repeat split; try done; eauto.
Qed.

(** ** Decimal digits *)

Lemma str_digits_length (fuel : nat) (n : Z) (acc : string) :
  0 <= n → Z.log2 n < Z.of_nat fuel →
  ∃ d : nat, String.length (str_digits fuel n acc) = (d + String.length acc)%nat
             ∧ is_digit_count n d.
Proof.
  revert n acc. induction fuel as [|fuel IH]; intros n acc Hn Hfuel.
  - pose proof (Z.log2_nonneg n). lia.
  - simpl. destruct (n <? 10) eqn:E.
    + apply Z.ltb_lt in E. exists 1%nat. split; [done|].
      unfold is_digit_count. simpl. lia.
    + apply Z.ltb_ge in E.
      assert (H10 : 1 <= n / 10) by (apply Z.div_le_lower_bound; lia).
      assert (Hlog : Z.log2 (n / 10) < Z.log2 n).
      { assert (Z.log2 (n / 10) <= Z.log2 (n / 2)).
        { apply Z.log2_le_mono. apply Z.div_le_compat_l; lia. }
        change 2 with (2 ^ 1) in H. rewrite <- Z.shiftr_div_pow2 in H by lia.
        rewrite Z.log2_shiftr in H by lia.
        assert (0 < Z.log2 n) by (apply Z.log2_pos; lia). lia. }
      destruct (IH (n / 10) (String (digit_char (n mod 10)) acc)) as (d & Hlen & Hd);
        [lia|lia|].
      exists (S d). split; [rewrite Hlen; simpl; lia|].
      right. split; [lia|].
      destruct Hd as [[? _]|[_ [Hlo Hhi]]]; [lia|].
      pose proof (Z.div_mod n 10 ltac:(lia)) as Hdm.
      pose proof (Z.mod_pos_bound n 10 ltac:(lia)) as Hmod.
      assert (Hd1 : (1 <= d)%nat).
      { destruct d; [|lia]. simpl in Hhi. lia. }
      rewrite Nat2Z.inj_succ.
      replace (Z.succ (Z.of_nat d) - 1) with (Z.succ (Z.of_nat d - 1)) by lia.
      rewrite !Z.pow_succ_r by lia.
      revert Hlo Hhi. generalize (10 ^ (Z.of_nat d - 1)) (10 ^ Z.of_nat d).
      intros a b. lia.
Qed.

Lemma py_str_length (n : Z) :
  0 <= n → ∃ d, String.length (py_str n) = d ∧ is_digit_count n d.
Proof.
  intros Hn. unfold py_str. replace (n <? 0) with false by (symmetry; apply Z.ltb_ge; lia).
  destruct (str_digits_length (S (Z.to_nat (Z.log2 n))) n EmptyString Hn) as (d & Hlen & Hd).
  { pose proof (Z.log2_nonneg n). lia. }
  exists d. split; [|done]. unfold str_nonneg. rewrite Hlen. simpl. lia.
Qed.

Lemma is_digit_count_lt (n : Z) (d : nat) : is_digit_count n d → n < 10 ^ Z.of_nat d.
Proof. intros [[-> ->]|[_ [_ H]]]; [done|done]. Qed.

(** ** binary64: exact results and rounding to an integer *)

Module RoundFacts.
Import F64 F64Facts.

Lemma shr_1_fields (mrs : shr_record) :
  0 <= shr_m mrs →
  shr_r (shr_1 mrs) = Z.odd (shr_m mrs)
  ∧ shr_s (shr_1 mrs) = shr_r mrs || shr_s mrs.
Proof.
  destruct mrs as [m r s]. cbn [shr_m shr_r shr_s]. intros Hm.
  destruct m as [|[p|p|]|p]; cbn [shr_1 shr_r shr_s]; try lia; done.
Qed.

Lemma shr_1_double (x : Z) :
  0 <= x →
  shr_1 (Build_shr_record (2 * x) false false) = Build_shr_record x false false.
Proof. destruct x; [done|done|lia]. Qed.

Lemma shr_iter_exact (k : nat) (n : Z) :
  0 <= n →
  Nat.iter k shr_1 (Build_shr_record (n * 2 ^ Z.of_nat k) false false)
  = Build_shr_record n false false.
Proof.
  intros Hn. induction k as [|k IH].
  - simpl. by rewrite Z.mul_1_r.
  - rewrite Nat.iter_succ_r, Nat2Z.inj_succ, Z.pow_succ_r by lia.
    replace (n * (2 * 2 ^ Z.of_nat k)) with (2 * (n * 2 ^ Z.of_nat k)) by lia.
    rewrite shr_1_double; [done|].
    apply Z.mul_nonneg_nonneg; [done|]. apply Z.pow_nonneg. lia.
Qed.

Lemma shr_exact (n e k : Z) :
  0 <= n → 0 <= k →
  shr (Build_shr_record (n * 2 ^ k) false false) e k
  = (Build_shr_record n false false, e + k).
Proof.
  intros Hn Hk. destruct k as [|p|p]; [| |lia].
  - simpl. by rewrite Z.mul_1_r, Z.add_0_r.
  - cbn [shr]. rewrite iter_pos_nat, <- (positive_nat_Z p) at 1.
    by rewrite shr_iter_exact.
Qed.

Lemma Zdigits2_mul_pow2 (m k : Z) :
  0 < m → 0 <= k → Zdigits2 (m * 2 ^ k) = Zdigits2 m + k.
Proof.
  intros Hm Hk. rewrite !Zdigits2_pos; [|done|].
  - rewrite Z.log2_mul_pow2 by lia. lia.
  - apply Z.mul_pos_pos; [done|]. apply Z.pow_pos_nonneg; lia.
Qed.

(** A mantissa that is canonical after dropping [k] zero bits is returned
    as it is. *)
Lemma binary_round_aux_exact (sx : bool) (m : positive) (e k : Z) :
  0 <= k →
  fexp prec emax (Zpos (digits2_pos m) + (e + k)) = e + k →
  e + k <= emax - prec →
  binary_round_aux prec emax sx (Zpos m * 2 ^ k) e loc_Exact = S754_finite sx m (e + k).
Proof.
  intros Hk Hcan Hmax. unfold binary_round_aux, shr_fexp.
  rewrite Zdigits2_mul_pow2 by lia. cbn [Zdigits2 shr_record_of_loc].
  replace (fexp prec emax (Zpos (digits2_pos m) + k + e) - e) with k
    by (replace (Zpos (digits2_pos m) + k + e) with (Zpos (digits2_pos m) + (e + k)) by lia; lia).
  rewrite shr_exact by lia.
  cbn [shr_m loc_of_shr_record round_nearest_even Zdigits2 shr_record_of_loc].
  rewrite Hcan, Z.sub_diag. cbn [shr shr_m].
  apply Z.leb_le in Hmax. by rewrite Hmax.
Qed.

Lemma iter_xO (p d : positive) : Zpos (Pos.iter xO p d) = Zpos p * 2 ^ Zpos d.
Proof.
  induction d as [|d IH] using Pos.peano_ind.
  - simpl. lia.
  - rewrite Pos.iter_succ, Pos2Z.inj_succ, Z.pow_succ_r by lia.
    rewrite (Pos2Z.inj_xO (Pos.iter xO p d)), IH. lia.
Qed.

Lemma shl_align_spec (p : positive) (ex ex' : Z) :
  ex' <= ex →
  Zpos (fst (shl_align p ex ex')) = Zpos p * 2 ^ (ex - ex')
  ∧ snd (shl_align p ex ex') = ex'.
Proof.
  intros H. unfold shl_align. destruct (ex' - ex) as [|d|d] eqn:E; cbn [fst snd].
  - replace (ex - ex') with 0 by lia. lia.
  - lia.
  - rewrite iter_xO. replace (ex - ex') with (Zpos d) by lia. done.
Qed.

(** An integer of at most 53 bits is a float64. *)
Lemma of_Z_exact (n : Z) :
  0 < n < 2 ^ 53 →
  ∃ m e, of_Z n = S754_finite false m e
         ∧ e <= 0 ∧ Zpos m = n * 2 ^ (- e) ∧ valid (of_Z n) = true.
Proof.
  intros [Hn Hhi]. destruct n as [|p|p]; try lia.
  unfold of_Z, binary_normalize, binary_round.
  pose proof (Zdigits2_log2 p) as Hd.
  assert (Hlog : Z.log2 (Zpos p) < 53) by (apply Z.log2_lt_pow2; lia).
  pose proof (Z.log2_nonneg (Zpos p)) as Hl0.
  set (d := Zpos (digits2_pos p)) in *.
  assert (Hf : fexp prec emax (d + 0) = d - 53).
  { unfold fexp, emin, prec, emax. lia. }
  rewrite Hf.
  destruct (shl_align_spec p 0 (d - 53) ltac:(lia)) as [Hm He].
  destruct (shl_align p 0 (d - 53)) as [mz ez]. cbn [fst snd] in Hm, He. subst ez.
  assert (Hdz : Zpos (digits2_pos mz) = 53).
  { change (Zpos (digits2_pos mz)) with (Zdigits2 (Zpos mz)).
    rewrite Hm, Zdigits2_mul_pow2 by lia. cbn [Zdigits2]. fold d. lia. }
  pose proof (binary_round_aux_exact false mz (d - 53) 0 ltac:(lia)) as Hbra.
  rewrite Z.pow_0_r, Z.mul_1_r, Z.add_0_r in Hbra.
  rewrite Hbra.
  - exists mz, (d - 53). repeat split; try lia.
    + rewrite Hm. by replace (0 - (d - 53)) with (- (d - 53)) by lia.
    + unfold valid, valid_binary, bounded, canonical_mantissa. rewrite Hdz.
      apply andb_true_intro. split; [apply Z.eqb_eq|apply Z.leb_le];
        unfold fexp, emin, prec, emax; lia.
  - rewrite Hdz. unfold fexp, emin, prec, emax. lia.
  - unfold prec, emax. lia.
Qed.

Lemma trunc_of_Z (n : Z) :
  0 <= n < 2 ^ 53 → Round.trunc (of_Z n) = Some n.
Proof.
  intros [Hn Hhi]. destruct (Z.eq_dec n 0) as [->|Hne]; [done|].
  destruct (of_Z_exact n ltac:(lia)) as (m & e & -> & He & Hm & _).
  unfold Round.trunc, cond_Zopp. f_equal.
  destruct (0 <=? e) eqn:E.
  - apply Z.leb_le in E. replace e with 0 in * by lia. simpl in Hm. lia.
  - rewrite Hm. apply Z.div_mul. apply Z.pow_nonzero; lia.
Qed.

(** The state after [k + 1] one-bit shifts of an exact mantissa [m0]: the
    round bit is the last bit shifted out and the sticky bit tells whether
    anything is left below it. *)
Lemma shr_iter_inv (k : nat) (m0 : Z) (mrs : shr_record) :
  0 <= m0 →
  mrs = Nat.iter (S k) shr_1 (Build_shr_record m0 false false) →
  ∃ t, m0 = shr_m mrs * 2 ^ Z.of_nat (S k)
            + (if shr_r mrs then 2 ^ Z.of_nat k else 0) + t
       ∧ 0 <= t < 2 ^ Z.of_nat k
       ∧ (shr_s mrs = true ↔ 0 < t)
       ∧ 0 <= shr_m mrs.
Proof.
  intros Hm0. revert mrs. induction k as [|k IH]; intros mrs' ->.
  - change (Nat.iter 1 shr_1 (Build_shr_record m0 false false))
      with (shr_1 (Build_shr_record m0 false false)).
    set (mrs := Build_shr_record m0 false false).
    destruct (shr_1_m mrs Hm0) as [E1 E2]. destruct (shr_1_fields mrs Hm0) as [E3 E4].
    exists 0. rewrite E1, E3, E4. cbn [shr_m shr_r shr_s orb mrs].
    change (2 ^ Z.of_nat 1) with 2. change (2 ^ Z.of_nat 0) with 1.
    pose proof (Z.div2_odd m0) as Ho. rewrite Z.div2_div in Ho.
    repeat split; try lia; try done; try (apply Z.div_pos; lia).
    destruct (Z.odd m0); simpl in Ho; lia.
  - rewrite Nat.iter_succ.
    destruct (IH _ eq_refl) as (t & Hm & Ht & Hs & Hpos).
    set (mrs := Nat.iter (S k) shr_1 _) in *.
    destruct (shr_1_m mrs Hpos) as [E1 E2]. destruct (shr_1_fields mrs Hpos) as [E3 E4].
    exists ((if shr_r mrs then 2 ^ Z.of_nat k else 0) + t).
    rewrite E1, E3, E4.
    pose proof (Z.div2_odd (shr_m mrs)) as Ho. rewrite Z.div2_div in Ho.
    rewrite (Nat2Z.inj_succ (S k)), (Nat2Z.inj_succ k) in *.
    rewrite !Z.pow_succ_r in * by lia.
    assert (Hp : 0 < 2 ^ Z.of_nat k) by (apply Z.pow_pos_nonneg; lia).
    revert Hm Ht Hs Hp Ho. generalize (2 ^ Z.of_nat k). intros P Hm Ht Hs Hp Ho.
    rewrite E1 in E2. set (q := shr_m mrs / 2) in *.
    repeat split.
    + destruct (Z.odd (shr_m mrs)); simpl in Ho; destruct (shr_r mrs); nia.
    + destruct (shr_r mrs); lia.
    + destruct (shr_r mrs); lia.
    + destruct (shr_r mrs); simpl; [lia|]. intros Hst. apply Hs in Hst. lia.
    + destruct (shr_r mrs); simpl; [done|]. intros H. apply Hs. lia.
    + done.
Qed.

End RoundFacts.

Module RintFacts.
Import F64 F64Facts RoundFacts.

(** Shifting [k] bits out of an exact mantissa and rounding to nearest
    even leaves an integer at most half a unit away. *)
Lemma rne_shr (k : positive) (m0 e : Z) :
  0 <= m0 →
  let mrs := fst (shr (Build_shr_record m0 false false) e (Zpos k)) in
  let n := round_nearest_even (shr_m mrs) (loc_of_shr_record mrs) in
  0 <= n ∧ - 2 ^ Zpos k <= 2 * (m0 - n * 2 ^ Zpos k) <= 2 ^ Zpos k.
Proof.
  intros Hm0. cbn [shr fst]. rewrite iter_pos_nat.
  destruct (Pos2Nat.is_succ k) as [j Hj]. rewrite Hj.
  destruct (shr_iter_inv j m0 _ Hm0 eq_refl) as (t & Hm & Ht & Hs & Hpos).
  set (mrs := Nat.iter (S j) shr_1 _) in *. cbn zeta.
  assert (Hk : Zpos k = Z.succ (Z.of_nat j)) by lia.
  rewrite Hk, Z.pow_succ_r by lia. rewrite Nat2Z.inj_succ, Z.pow_succ_r in Hm by lia.
  assert (Hp : 0 < 2 ^ Z.of_nat j) by (apply Z.pow_pos_nonneg; lia).
  revert Hm Ht Hs Hp. generalize (2 ^ Z.of_nat j). intros P Hm Ht Hs Hp.
  destruct mrs as [m r s]. cbn [shr_m shr_r shr_s] in *.
  destruct r, s; cbn [loc_of_shr_record round_nearest_even].
  - assert (0 < t) by by apply Hs. nia.
  - destruct (Z.even m); nia.
  - assert (0 < t) by by apply Hs. nia.
  - assert (¬ 0 < t) by (intros Hc; by apply Hs in Hc). nia.
Qed.

Lemma valid_digits (s : bool) (m : positive) (e : Z) :
  valid (S754_finite s m e) = true →
  Zpos m < 2 ^ 53 ∧ -1074 <= e <= 971.
Proof.
  unfold valid, valid_binary, bounded, canonical_mantissa.
  intros [H1 H2]%andb_prop. apply Z.eqb_eq in H1. apply Z.leb_le in H2.
  pose proof (digits2_pos_bounds m) as [_ Hhi].
  unfold fexp, emin, prec, emax in *. split; [|lia].
  eapply Z.lt_le_trans; [exact Hhi|]. apply Z.pow_le_mono_r; lia.
Qed.

(** [int(np.round(x, 0))] of a positive float64: it is defined and is the
    value of [x] rounded to the nearest integer. *)
Lemma rint_trunc_pos (m : positive) (e : Z) :
  valid (S754_finite false m e) = true →
  ∃ n, Round.trunc (Round.rint (S754_finite false m e)) = Some n
       ∧ 0 <= n
       ∧ is_rounding (SFloat (S754_finite false m e)) n.
Proof.
  intros Hv. destruct (valid_digits _ _ _ Hv) as [Hm He].
  unfold Round.rint, is_rounding, scalar_Q, F2Q. destruct (0 <=? e) eqn:E.
  - apply Z.leb_le in E. exists (Zpos m * 2 ^ e).
    cbn [Round.trunc cond_Zopp]. apply Z.leb_le in E as E'. rewrite E'.
    split; [done|]. split; [apply Z.mul_nonneg_nonneg; [lia|apply Z.pow_nonneg; lia]|].
    unfold Qle, Qmult, inject_Z. cbn [Qnum Qden]. lia.
  - apply Z.leb_gt in E. destruct e as [|k|k]; try lia.
    change (- Zneg k) with (Zpos k). cbn [Z.to_pos].
    pose proof (rne_shr k (Zpos m) (Zneg k) ltac:(lia)) as Hr. cbn zeta in Hr.
    destruct (shr (Build_shr_record (Zpos m) false false) (Zneg k) (Zpos k)) as [mrs e'].
    cbn [fst] in Hr.
    set (n := round_nearest_even (shr_m mrs) (loc_of_shr_record mrs)) in *.
    destruct Hr as [Hn Hr].
    assert (Hp : 2 <= 2 ^ Zpos k).
    { change 2 with (2 ^ 1) at 1. apply Z.pow_le_mono_r; lia. }
    assert (Hn53 : n < 2 ^ 53).
    { change (2 ^ 53) with 9007199254740992 in *. nia. }
    exists n. cbn [cond_Zopp].
    change (binary_normalize prec emax n 0 false) with (of_Z n).
    split; [apply trunc_of_Z; lia|]. split; [done|].
    unfold Qle, Qmult, inject_Z. cbn [Qnum Qden].
    rewrite Pos2Z.inj_mul, Pos2Z.inj_pow. lia.
Qed.

End RintFacts.

(** ** The scale of powers of ten *)

Lemma round_scalar_nonneg (m : scalar) :
  scalar_nonneg m →
  ∃ n, py_int (np_round m) = Some n ∧ 0 <= n ∧ is_rounding m n.
Proof.
  destruct m as [z|[s|s| |[] mm e]]; cbn [scalar_nonneg]; try done.
  - intros Hz. exists z. split; [done|]. split; [done|].
    unfold is_rounding, scalar_Q, Qle, Qmult, inject_Z. cbn [Qnum Qden Pos.mul]. lia.
  - intros _. exists 0. done.
  - apply RintFacts.rint_trunc_pos.
Qed.

Lemma n_digits_spec (m : scalar) (n : Z) :
  py_int (np_round m) = Some n → 0 <= n →
  ∃ d, n_digits m = Some d ∧ is_digit_count n d.
Proof.
  intros Hn Hpos. unfold n_digits. rewrite Hn. cbn [mbind option_bind].
  destruct (py_str_length n Hpos) as (d & Hlen & Hd).
  exists d. by rewrite Hlen.
Qed.

Lemma powers_of_ten_last (d : nat) :
  last (SInt <$> 0 :: powers_of_ten (d + 1)) = Some (SInt (10 ^ Z.of_nat d)).
Proof.
  unfold powers_of_ten. rewrite Nat.add_1_r, seq_S, fmap_app, app_comm_cons, fmap_app.
  apply last_snoc.
Qed.

Lemma rounding_lt (x : Q) (n N : Z) :
  (2 * x <= inject_Z (2 * n + 1))%Q → n < N → (x < inject_Z N)%Q.
Proof.
  destruct x as [a b]. unfold Qle, Qlt, Qmult, inject_Z. cbn [Qnum Qden].
  intros H Hn. nia.
Qed.

Lemma scalar_positive_nonneg (m : scalar) : scalar_positive m → scalar_nonneg m.
Proof. destruct m as [z|[s|s| |[] mm e]]; cbn; try done. lia. Qed.

Lemma Qle_inject (a b : Z) : a <= b → (inject_Z a <= inject_Z b)%Q.
Proof. intros H. by rewrite <- Zle_Qle. Qed.

Lemma powers_of_ten_sorted (k n : nat) :
  StronglySorted (λ a b, (scalar_Q a <= scalar_Q b)%Q)
    (SInt <$> ((λ i, 10 ^ Z.of_nat i) <$> seq k n)).
Proof.
  revert k. induction n as [|n IH]; intros k; [constructor|].
  cbn [seq fmap list_fmap]. constructor; [apply IH|].
  apply Forall_fmap, Forall_fmap, Forall_forall. intros i Hi. cbn.
  apply list_elem_of_In, in_seq in Hi. apply Qle_inject.
  apply Z.pow_le_mono_r; lia.
Qed.

Lemma powers_of_ten_scale_ok (d : nat) :
  ascending (SInt <$> 0 :: powers_of_ten d)
  ∧ boundaries_nonneg (SInt <$> 0 :: powers_of_ten d).
Proof.
  unfold powers_of_ten. split.
  - rewrite fmap_cons. constructor; [apply powers_of_ten_sorted|].
    apply Forall_fmap, Forall_fmap, Forall_forall. intros i _. cbn.
    apply Qle_inject. apply Z.pow_nonneg. lia.
  - unfold boundaries_nonneg. apply Forall_fmap, Forall_forall. intros z Hz. cbn.
    split; [done|]. apply (Qle_inject 0).
    apply elem_of_cons in Hz as [->|Hz]; [lia|].
    apply list_elem_of_fmap in Hz as (i & -> & _). apply Z.pow_nonneg. lia.
Qed.

(** The scale of powers of ten, for a finite maximum that is not negative:
    the digits of the rounded maximum are counted, the boundaries are zero
    and the powers of ten up to that many digits, and the last of them lies
    beyond the maximum. *)
Lemma scale_powers_of_ten_nonneg (m : scalar) :
  scalar_nonneg m →
  ∃ n d,
    py_int (np_round m) = Some n ∧ 0 <= n ∧ is_rounding m n
    ∧ n_digits m = Some d ∧ is_digit_count n d
    ∧ scale MachtenVan10 m = Some (SInt <$> 0 :: powers_of_ten (d + 1))
    ∧ (scalar_Q m < inject_Z (10 ^ Z.of_nat d))%Q.
Proof.
  intros Hm. destruct (round_scalar_nonneg m Hm) as (n & Hn & Hpos & Hr).
  destruct (n_digits_spec m n Hn Hpos) as (d & Hd & Hcount).
  exists n, d. repeat split; try done.
  - apply Hr.
  - apply Hr.
  - cbn [scale]. by rewrite Hd.
  - apply (rounding_lt _ n); [apply Hr|]. by apply is_digit_count_lt.
Qed.

Lemma digit_count_250 (d : nat) : is_digit_count 250 d → d = 3%nat.
Proof.
  intros [[? _]|[_ [Hlo Hhi]]]; [lia|].
  destruct (Nat.lt_trichotomy d 3) as [Hd|[->|Hd]]; [|done|].
  - assert (10 ^ Z.of_nat d <= 10 ^ 2) by (apply Z.pow_le_mono_r; lia).
    change (10 ^ 2) with 100 in *. lia.
  - assert (10 ^ 3 <= 10 ^ (Z.of_nat d - 1)) by (apply Z.pow_le_mono_r; lia).
    change (10 ^ 3) with 1000 in *. lia.
Qed.

(** C4. For every positive maximum the powers-of-ten scale builder counts
    the decimal digits [d] of the maximum rounded to the nearest integer and
    returns the boundaries 0, 10^0, 10^1, ..., 10^d; a maximum of 250 has
    three digits and gives 0, 1, 10, 100, 1000. *)
Theorem scale_powers_of_ten (m : scalar) :
  scalar_positive m →
  ∃ n d,
    py_int (np_round m) = Some n ∧ is_rounding m n
    ∧ n_digits m = Some d ∧ is_digit_count n d
    ∧ scale MachtenVan10 m
      = Some (SInt <$> 0 :: ((λ i, 10 ^ Z.of_nat i) <$> seq 0 (d + 1)))
    ∧ ((scalar_Q m == 250)%Q →
       d = 3%nat ∧ scale MachtenVan10 m = Some (SInt <$> [0; 1; 10; 100; 1000])).
Proof.
  intros Hm.
  destruct (scale_powers_of_ten_nonneg m (scalar_positive_nonneg m Hm))
    as (n & d & Hn & Hpos & Hr & Hd & Hcount & Hscale & _).
  exists n, d. do 5 (split; [done|]). intros H250.
  assert (Hd3 : d = 3%nat).
  { apply digit_count_250. destruct Hr as [H1 H2]. rewrite H250 in H1, H2.
    unfold Qle, Qmult, inject_Z in H1, H2. cbn in H1, H2.
    by replace n with 250 in Hcount by lia. }
  split; [done|]. rewrite Hscale, Hd3. done.
Qed.

Lemma zero_maximum_scale (m : scalar) :
  m ∈ [SInt 0; SFloat (S754_zero false); SFloat (S754_zero true)] →
  n_digits m = Some 1%nat
  ∧ scale MachtenVan10 m = Some (SInt <$> [0; 1; 10])
  ∧ well_defined_scale m (SInt <$> [0; 1; 10]).
Proof.
  intros Hm.
  assert (Hok : (scalar_Q m == 0)%Q → well_defined_scale m (SInt <$> [0; 1; 10])).
  { intros H0. destruct (powers_of_ten_scale_ok 2) as [Ha Hb].
    split; [exact Ha|]. split; [exact Hb|]. exists (SInt 10). split; [done|].
    rewrite H0. done. }
  repeat (apply elem_of_cons in Hm as [->|Hm]; [split; [done|split; [done|by apply Hok]]|]).
  by apply not_elem_of_nil in Hm.
Qed.

(** C5, as the code has it. A maximum of zero (the integer 0, or the float
    0.0 of either sign) is no failure of the powers-of-ten scale: the digit
    count is the length of the string "0", which is 1, and the scale is
    0, 1, 10, ascending, non-negative and reaching beyond the maximum. *)
Theorem scale_powers_of_ten_zero :
  Forall (λ m, n_digits m = Some 1%nat
               ∧ scale MachtenVan10 m = Some (SInt <$> [0; 1; 10])
               ∧ well_defined_scale m (SInt <$> [0; 1; 10]))
         [SInt 0; SFloat (S754_zero false); SFloat (S754_zero true)].
Proof. apply Forall_forall. intros m Hm. by apply zero_maximum_scale. Qed.

(** C5, as stated, fails at the maximum 0: the digit count is defined and
    the scale returned is a well-defined one. *)
Lemma scale_powers_of_ten_zero_not_degenerate :
  ¬ (n_digits (SInt 0) = None
     ∨ scale MachtenVan10 (SInt 0) = None
     ∨ ∃ bs, scale MachtenVan10 (SInt 0) = Some bs ∧ ¬ well_defined_scale (SInt 0) bs).
Proof.
  destruct (zero_maximum_scale (SInt 0)) as (Hd & Hs & Hw); [by left|].
  intros [Hn|[Hn|(bs & Hbs & Hn)]].
  - by rewrite Hd in Hn.
  - by rewrite Hs in Hn.
  - rewrite Hs in Hbs. injection Hbs as <-. by apply Hn.
Qed.

(** C10. For every finite maximum that is not negative, the last boundary
    of the powers-of-ten scale is [10 ^ d], with [d] the digit count of the
    rounded maximum, and it is strictly greater than the maximum: every
    metric between zero and the maximum lies between the first boundary,
    zero, and the last. *)
Theorem scale_powers_of_ten_covers (m : scalar) :
  scalar_nonneg m →
  ∃ n d bs,
    py_int (np_round m) = Some n ∧ is_rounding m n ∧ is_digit_count n d
    ∧ scale MachtenVan10 m = Some bs
    ∧ head bs = Some (SInt 0)
    ∧ last bs = Some (SInt (10 ^ Z.of_nat d))
    ∧ (scalar_Q m < inject_Z (10 ^ Z.of_nat d))%Q
    ∧ ∀ v : scalar, (0 <= scalar_Q v)%Q → (scalar_Q v <= scalar_Q m)%Q →
        (scalar_Q (SInt 0) <= scalar_Q v)%Q
        ∧ (scalar_Q v < scalar_Q (SInt (10 ^ Z.of_nat d)))%Q.
Proof.
  intros Hm.
  destruct (scale_powers_of_ten_nonneg m Hm)
    as (n & d & Hn & Hpos & Hr & Hd & Hcount & Hscale & Hlt).
  exists n, d, (SInt <$> 0 :: powers_of_ten (d + 1)).
  do 4 (split; [done|]). split; [done|]. split; [apply powers_of_ten_last|].
  split; [done|]. intros v Hv0 Hvm. split; [done|].
  cbn [scalar_Q]. eapply Qle_lt_trans; [exact Hvm|exact Hlt].
Qed.

(** ** binary64: the shape of a rounded result *)

Module BraFacts.
Import F64 F64Facts RoundFacts RintFacts.

(** Shifting [sh] bits out of an exact mantissa and rounding. *)
Lemma round_shift (mx ex sh : Z) :
  0 <= mx → 0 <= sh →
  ∃ mrs r,
    shr (Build_shr_record mx false false) ex sh = (mrs, ex + sh)
    ∧ r = round_nearest_even (shr_m mrs) (loc_of_shr_record mrs)
    ∧ mx / 2 ^ sh <= r <= mx / 2 ^ sh + 1
    ∧ - 2 ^ sh <= 2 * (mx - r * 2 ^ sh) <= 2 ^ sh
    ∧ (mx mod 2 ^ sh = 0 → r = mx / 2 ^ sh).
Proof.
  intros Hmx Hsh.
  destruct (shr (Build_shr_record mx false false) ex sh) as [mrs e'] eqn:E.
  pose proof (shr_spec (Build_shr_record mx false false) ex sh Hmx) as [Hm He].
  rewrite E in Hm, He. cbn [fst snd shr_m] in Hm, He.
  rewrite Z.max_r in Hm, He by lia. subst e'.
  exists mrs, (round_nearest_even (shr_m mrs) (loc_of_shr_record mrs)).
  split; [done|]. split; [done|].
  pose proof (rne_bounds (shr_m mrs) (loc_of_shr_record mrs)) as Hb.
  rewrite Hm in Hb at 1 4. split; [done|].
  destruct sh as [|k|k]; [| |lia].
  - cbn [shr] in E. injection E as <-. cbn. rewrite Z.div_1_r.
    split; [lia|done].
  - pose proof (rne_shr k mx ex Hmx) as Hr. cbn zeta in Hr. rewrite E in Hr.
    cbn [fst] in Hr. split; [apply Hr|].
    intros Hmod. apply Z.div_exact in Hmod; [|by apply Z.pow_nonzero].
    rewrite Hmod, Z.mul_comm in E. rewrite shr_exact in E; [|apply Z.div_pos; lia|lia].
    injection E as <-. done.
Qed.

Lemma Zdigits2_range (r k : Z) :
  0 <= k → 2 ^ k <= r < 2 ^ (k + 1) → Zdigits2 r = k + 1.
Proof.
  intros Hk Hr. assert (0 < r).
  { pose proof (Z.pow_pos_nonneg 2 k). lia. }
  rewrite Zdigits2_pos by done. f_equal. apply Z.log2_unique; [done|].
  by rewrite <- Z.add_1_r.
Qed.

Lemma Zdigits2_le (r k : Z) : 0 <= k → 0 <= r < 2 ^ k → 0 <= Zdigits2 r <= k.
Proof.
  intros Hk [Hr0 Hr]. destruct (Z.eq_dec r 0) as [->|Hne]; [simpl; lia|].
  rewrite Zdigits2_pos by lia. pose proof (Z.log2_nonneg r).
  assert (Z.log2 r < k) by (apply Z.log2_lt_pow2; lia). lia.
Qed.

Lemma Zdigits2_bounds (m : Z) :
  0 < m → 2 ^ (Zdigits2 m - 1) <= m < 2 ^ Zdigits2 m.
Proof.
  intros Hm. rewrite Zdigits2_pos by done.
  replace (Z.log2 m + 1 - 1) with (Z.log2 m) by lia.
  rewrite Z.add_1_r. by apply Z.log2_spec.
Qed.

(** The result of rounding an exact positive mantissa that has at least
    the digits of its format: the rounded mantissa [r] sits at the exponent
    [fexp] gives, one higher after a carry. *)
Lemma binary_round_aux_shape (sx : bool) (mx ex : Z) :
  0 < mx →
  ex <= fexp prec emax (Zdigits2 mx + ex) →
  ∃ r, let e1 := fexp prec emax (Zdigits2 mx + ex) in
       let sh := e1 - ex in
    mx / 2 ^ sh <= r <= mx / 2 ^ sh + 1
    ∧ - 2 ^ sh <= 2 * (mx - r * 2 ^ sh) <= 2 ^ sh
    ∧ (mx mod 2 ^ sh = 0 → r = mx / 2 ^ sh)
    ∧ (-1074 < e1 → 2 ^ 52 <= r)
    ∧ ((r = 0 ∧ binary_round_aux prec emax sx mx ex loc_Exact = S754_zero sx)
       ∨ (0 < r < 2 ^ 53
          ∧ fexp prec emax (Zdigits2 r + e1) = e1
          ∧ binary_round_aux prec emax sx mx ex loc_Exact
            = if e1 <=? emax - prec then S754_finite sx (Z.to_pos r) e1
              else S754_infinity sx)
       ∨ (r = 2 ^ 53
          ∧ binary_round_aux prec emax sx mx ex loc_Exact
            = if e1 + 1 <=? emax - prec then S754_finite sx (Z.to_pos (2 ^ 52)) (e1 + 1)
              else S754_infinity sx)).
Proof.
  intros Hmx Hsh. cbn zeta.
  set (e1 := fexp prec emax (Zdigits2 mx + ex)) in *.
  destruct (round_shift mx ex (e1 - ex) ltac:(lia) ltac:(lia))
    as (mrs & r & Hshr & Hr & Hfl & Hrne & Hex).
  exists r. do 3 (split; [done|]).
  pose proof (Zdigits2_bounds mx Hmx) as Hdx.
  assert (Hd1 : 1 <= Zdigits2 mx).
  { rewrite Zdigits2_pos by done. pose proof (Z.log2_nonneg mx). lia. }
  assert (He1 : -1074 <= e1) by (unfold e1, fexp, emin, prec, emax; lia).
  assert (Hrange : 0 <= r <= 2 ^ 53
                   ∧ (e1 = Zdigits2 mx + ex - 53 → 2 ^ 52 <= r)
                   ∧ (e1 ≠ Zdigits2 mx + ex - 53 → r <= 2 ^ 52)).
  { assert (H0 : 0 <= mx / 2 ^ (e1 - ex)) by (apply Z.div_pos; [lia|apply Z.pow_pos_nonneg; lia]).
    assert (Hup : ∀ k, 0 <= k → Zdigits2 mx - (e1 - ex) <= k → mx / 2 ^ (e1 - ex) < 2 ^ k).
    { intros k Hk Hle. apply Z.div_lt_upper_bound; [apply Z.pow_pos_nonneg; lia|].
      rewrite <- Z.pow_add_r by lia.
      eapply Z.lt_le_trans; [apply Hdx|]. apply Z.pow_le_mono_r; lia. }
    split; [|split].
    - split; [lia|]. pose proof (Hup 53 ltac:(lia)) as H.
      assert (Zdigits2 mx - (e1 - ex) <= 53) by (unfold e1, fexp, emin, prec, emax; lia).
      lia.
    - intros He. assert (2 ^ 52 <= mx / 2 ^ (e1 - ex)); [|lia].
      apply Z.div_le_lower_bound; [apply Z.pow_pos_nonneg; lia|].
      rewrite <- Z.pow_add_r by lia.
      etransitivity; [|apply Hdx]. apply Z.pow_le_mono_r; lia.
    - intros He. pose proof (Hup 52 ltac:(lia)) as H.
      assert (Zdigits2 mx - (e1 - ex) <= 52) by (unfold e1, fexp, emin, prec, emax in *; lia).
      lia. }
  destruct Hrange as ([Hr0 Hr53] & Hnorm & Hsub).
  split.
  { intros He. apply Hnorm. unfold e1, fexp, emin, prec, emax in *. lia. }
  unfold binary_round_aux, shr_fexp. fold e1. cbn [shr_record_of_loc].
  rewrite Hshr, <- Hr. replace (ex + (e1 - ex)) with e1 by lia.
  destruct (Z.eq_dec r 0) as [->|Hrnz].
  - left. split; [done|]. cbn [Zdigits2].
    unfold shr. destruct (fexp prec emax (0 + e1) - e1) as [|p|p] eqn:Ep; try done.
    unfold fexp, emin, prec, emax in Ep. lia.
  - right. destruct (Z.eq_dec r (2 ^ 53)) as [->|Hr53'].
    + right. split; [done|].
      assert (Hd : Zdigits2 (2 ^ 53) = 54) by done.
      rewrite Hd.
      replace (fexp prec emax (54 + e1) - e1) with 1
        by (unfold fexp, emin, prec, emax; lia).
      done.
    + left. split; [lia|].
      assert (Hcan : fexp prec emax (Zdigits2 r + e1) = e1).
      { destruct (Z.eq_dec e1 (Zdigits2 mx + ex - 53)) as [He|He].
        - rewrite (Zdigits2_range r 52) by (change (52 + 1) with 53; lia).
          unfold fexp, emin, prec, emax. lia.
        - pose proof (Zdigits2_le r 53 ltac:(lia) ltac:(lia)).
          unfold e1, fexp, emin, prec, emax in *. lia. }
      split; [done|]. rewrite Hcan, Z.sub_diag. cbn [shr shr_m].
      destruct r as [|p|p]; try lia. done.
Qed.

End BraFacts.

(** ** binary64: values in fixed point *)

Module ScaledFacts.
Import F64 F64Facts RoundFacts RintFacts BraFacts.

Lemma F2Q_scaled (s : bool) (m : positive) (e : Z) :
  -1200 <= e →
  (F2Q (S754_finite s m e) * inject_Z (2 ^ 1200)
   == inject_Z (scaled (S754_finite s m e)))%Q.
Proof.
  intros He. unfold F2Q, scaled. set (v := cond_Zopp s (Zpos m)).
  destruct (0 <=? e) eqn:E.
  - apply Z.leb_le in E. rewrite <- inject_Z_mult.
    rewrite <- Z.mul_assoc, <- Z.pow_add_r by lia. reflexivity.
  - apply Z.leb_gt in E. unfold Qeq, Qmult, inject_Z. cbn [Qnum Qden].
    rewrite Pos.mul_1_r, Z.mul_1_r, Pos2Z.inj_pow, Z2Pos.id by lia.
    rewrite <- !Z.mul_assoc. f_equal.
    rewrite <- Z.pow_add_r by lia. f_equal. lia.
Qed.

Lemma F2Q_scaled_any (x : spec_float) :
  (∀ s m e, x = S754_finite s m e → -1200 <= e) →
  (F2Q x * inject_Z (2 ^ 1200) == inject_Z (scaled x))%Q.
Proof.
  intros H. destruct x as [s|s| |s m e]; try reflexivity.
  apply F2Q_scaled. by eapply H.
Qed.

(** The order of the values is the order of their fixed-point integers. *)
Lemma F2Q_le_scaled (x y : spec_float) :
  (∀ s m e, x = S754_finite s m e → -1200 <= e) →
  (∀ s m e, y = S754_finite s m e → -1200 <= e) →
  scaled x <= scaled y → (F2Q x <= F2Q y)%Q.
Proof.
  intros Hx Hy Hle.
  apply (Qmult_le_r _ _ (inject_Z (2 ^ 1200))); [done|].
  rewrite (F2Q_scaled_any x Hx), (F2Q_scaled_any y Hy).
  by rewrite <- Zle_Qle.
Qed.

Lemma F2Q_lt_scaled (x y : spec_float) :
  (∀ s m e, x = S754_finite s m e → -1200 <= e) →
  (∀ s m e, y = S754_finite s m e → -1200 <= e) →
  scaled x < scaled y → (F2Q x < F2Q y)%Q.
Proof.
  intros Hx Hy Hle.
  apply (Qmult_lt_r _ _ (inject_Z (2 ^ 1200))); [done|].
  rewrite (F2Q_scaled_any x Hx), (F2Q_scaled_any y Hy).
  by rewrite <- Zlt_Qlt.
Qed.

End ScaledFacts.

(** ** binary64: products *)

Module MulFacts.
Import F64 F64Facts RoundFacts RintFacts BraFacts ScaledFacts.

Lemma pow2_pos (k : Z) : 0 <= k → 0 < 2 ^ k.
Proof. intros. by apply Z.pow_pos_nonneg. Qed.

Lemma valid_canonical (s : bool) (m : positive) (e : Z) :
  valid (S754_finite s m e) = true ↔
  fexp prec emax (Zpos (digits2_pos m) + e) = e ∧ e <= 971.
Proof.
  unfold valid, valid_binary, bounded, canonical_mantissa.
  rewrite andb_true_iff, Z.eqb_eq, Z.leb_le. unfold prec, emax. lia.
Qed.

(** The product of a float64 of exponent at least -52, hence at least one,
    and any positive float64: the correctly rounded value [V], in fixed
    point, is within half a quantum of the exact product, equal to it when
    the product is a multiple of the quantum, and is returned unless it
    overflows. *)
Lemma mul_shape (ma mb : positive) (ea eb : Z) :
  valid (S754_finite false ma ea) = true →
  valid (S754_finite false mb eb) = true →
  -52 <= ea →
  ∃ V e1,
    e1 = fexp prec emax (Zdigits2 (Zpos ma * Zpos mb) + (ea + eb))
    ∧ -1074 <= e1
    ∧ 0 < V
    ∧ - 2 ^ (e1 + 1200) <= 2 * (Zpos ma * Zpos mb * 2 ^ (ea + eb + 1200) - V)
      <= 2 ^ (e1 + 1200)
    ∧ ((Zpos ma * Zpos mb * 2 ^ (ea + eb + 1200)) mod 2 ^ (e1 + 1200) = 0 →
       V = Zpos ma * Zpos mb * 2 ^ (ea + eb + 1200))
    ∧ (V < 2 ^ 2224 →
       ∃ mR eR, mul (S754_finite false ma ea) (S754_finite false mb eb)
                = S754_finite false mR eR
                ∧ valid (S754_finite false mR eR) = true
                ∧ scaled (S754_finite false mR eR) = V).
Proof.
  intros Hva Hvb Hea.
  apply valid_canonical in Hva as [Hca Hea']. apply valid_canonical in Hvb as [Hcb Heb'].
  pose proof (digits2_pos_bounds ma) as Hda. pose proof (digits2_pos_bounds mb) as Hdb.
  assert (Hda53 : Zpos (digits2_pos ma) = 53).
  { unfold fexp, emin, prec, emax in Hca. lia. }
  rewrite Hda53 in Hda. change (2 ^ (53 - 1)) with (2 ^ 52) in Hda.
  assert (Heb : -1074 <= eb) by (unfold fexp, emin, prec, emax in Hcb; lia).
  set (mx := Zpos ma * Zpos mb). set (ex := ea + eb).
  assert (Hmx : 0 < mx) by (unfold mx; lia).
  assert (Hmx52 : 2 ^ 52 <= mx) by (unfold mx; nia).
  assert (HD : 53 <= Zdigits2 mx).
  { rewrite Zdigits2_pos by done.
    assert (52 <= Z.log2 mx) by (apply Z.log2_le_pow2; [done|lia]). lia. }
  pose proof (Zdigits2_bounds mx Hmx) as HDb.
  set (e1 := fexp prec emax (Zdigits2 mx + ex)).
  assert (He1 : -1074 <= e1 ∧ ex <= e1 ∧ e1 - ex <= Zdigits2 mx - 1).
  { unfold e1, ex, fexp, emin, prec, emax. lia. }
  destruct (binary_round_aux_shape false mx ex Hmx ltac:(fold e1; lia))
    as (r & Hfl & Hrne & Hexact & Hnorm & Hcases).
  cbn zeta in *. fold e1 in Hfl, Hrne, Hexact, Hnorm, Hcases.
  set (c := 2 ^ (ex + 1200)).
  assert (Hc : 0 < c) by (apply pow2_pos; unfold ex; lia).
  set (P := 2 ^ (e1 - ex)) in *.
  assert (HP : 0 < P) by (apply pow2_pos; lia).
  assert (HPc : 2 ^ (e1 + 1200) = P * c).
  { unfold P, c. rewrite <- Z.pow_add_r by (unfold ex; lia). f_equal. lia. }
  assert (HPmx : P <= mx).
  { etransitivity; [|apply HDb]. apply Z.pow_le_mono_r; lia. }
  assert (Hr1 : 1 <= r).
  { assert (1 <= mx / P) by (apply Z.div_le_lower_bound; lia). lia. }
  exists (r * P * c), e1. unfold ex in *. fold mx. rewrite HPc.
  split; [done|]. split; [lia|]. split; [nia|]. split; [nia|]. split.
  { intros Hmod. rewrite Z.mul_mod_distr_r in Hmod by lia.
    assert (Hm0 : mx mod P = 0) by nia.
    rewrite (Hexact Hm0). apply Z.div_exact in Hm0; [|lia]. nia. }
  intros Hov. replace (r * P * c) with (r * 2 ^ (e1 + 1200)) in Hov by (rewrite HPc; lia).
  unfold mul, SFmul. cbn [xorb]. rewrite Pos2Z.inj_mul. fold mx.
  destruct Hcases as [[-> _]|[(Hr & Hcan & ->)|(-> & ->)]]; [lia| |].
  - assert (Hle : e1 <= 971).
    { destruct (Z_le_gt_dec e1 971) as [|Hgt]; [done|].
      assert (2 ^ 52 * 2 ^ (e1 + 1200) <= r * 2 ^ (e1 + 1200)).
      { apply Z.mul_le_mono_nonneg_r; [apply Z.pow_nonneg; lia|apply Hnorm; lia]. }
      rewrite <- Z.pow_add_r in H by lia.
      assert (2 ^ 2224 <= 2 ^ (52 + (e1 + 1200))) by (apply Z.pow_le_mono_r; lia).
      lia. }
    replace (e1 <=? emax - prec) with true by (symmetry; apply Z.leb_le; unfold emax, prec; lia).
    exists (Z.to_pos r), e1. split; [done|]. split.
    + apply valid_canonical. split; [|done].
      destruct r as [|p|p]; try lia. exact Hcan.
    + unfold scaled, cond_Zopp. rewrite Z2Pos.id by lia. rewrite HPc. lia.
  - assert (Hle : e1 + 1 <= 971).
    { destruct (Z_le_gt_dec (e1 + 1) 971) as [|Hgt]; [done|].
      rewrite <- Z.pow_add_r in Hov by lia.
      assert (2 ^ 2224 <= 2 ^ (53 + (e1 + 1200))) by (apply Z.pow_le_mono_r; lia).
      lia. }
    replace (e1 + 1 <=? emax - prec) with true
      by (symmetry; apply Z.leb_le; unfold emax, prec; lia).
    exists (Z.to_pos (2 ^ 52)), (e1 + 1). split; [done|]. split.
    + apply valid_canonical. split; [|done].
      change (Zpos (digits2_pos (Z.to_pos (2 ^ 52)))) with 53.
      unfold fexp, emin, prec, emax. lia.
    + unfold scaled, cond_Zopp. rewrite Z2Pos.id by done.
      replace (2 ^ 53 * P * c) with (2 ^ 53 * 2 ^ (e1 + 1200)) by (rewrite HPc; lia).
      replace (e1 + 1 + 1200) with (1 + (e1 + 1200)) by lia.
      rewrite Z.pow_add_r by lia. change (2 ^ 53) with (2 ^ 52 * 2 ^ 1). lia.
Qed.

End MulFacts.

(** ** binary64: a quarter *)

Module DivFacts.
Import F64 F64Facts RoundFacts RintFacts BraFacts ScaledFacts MulFacts.

Lemma of_Z_4 : of_Z 4 = S754_finite false 4503599627370496 (-50).
Proof. vm_compute. reflexivity. Qed.

Lemma div_eucl_spec (a b q r : Z) :
  0 < b → Z.div_eucl a b = (q, r) → a = b * q + r ∧ 0 <= r < b.
Proof.
  intros Hb E. pose proof (Z_div_mod a b ltac:(lia)) as H. rewrite E in H. exact H.
Qed.

Lemma valid_normal (s : bool) (m : positive) (e : Z) :
  valid (S754_finite s m e) = true → -1074 < e → Zpos (digits2_pos m) = 53.
Proof.
  intros [Hc _]%valid_canonical He. unfold fexp, emin, prec, emax in Hc. lia.
Qed.

(** Above the subnormal range a quarter is exact. *)
Lemma div_four_exact (m : positive) (e : Z) :
  valid (S754_finite false m e) = true → -1072 <= e →
  div (S754_finite false m e) (of_Z 4) = S754_finite false m (e - 2).
Proof.
  intros Hv He. pose proof (valid_normal _ _ _ Hv ltac:(lia)) as Hd.
  apply valid_canonical in Hv as [Hc Hmax].
  rewrite of_Z_4. unfold div, SFdiv, SFdiv_core_binary. cbn [xorb Zdigits2].
  rewrite Hd. change (Zpos (digits2_pos 4503599627370496)) with 53.
  set (e' := Z.min (fexp prec emax (53 + e - (53 + -50))) (e - -50)).
  assert (He' : e' = Z.max (e - 3) (-1074)).
  { unfold e', fexp, emin, prec, emax. lia. }
  assert (Hs : e - -50 - e' = 53 ∨ e - -50 - e' = 52) by lia.
  assert (Hdiv : ∀ k, 0 <= k → e - -50 - e' = 52 + k →
            Z.div_eucl (Z.shiftl (Zpos m) (52 + k)) 4503599627370496 = (Zpos m * 2 ^ k, 0)).
  { intros k Hk _. rewrite Z.shiftl_mul_pow2 by lia.
    destruct (Z.div_eucl _ _) as [q r] eqn:E.
    apply div_eucl_spec in E as [E1 E2]; [|done].
    rewrite Z.pow_add_r in E1 by lia. change (2 ^ 52) with 4503599627370496 in E1.
    assert (r = 0 ∧ q = Zpos m * 2 ^ k) as [-> ->]; [|done].
    pose proof (pow2_pos k Hk). nia. }
  assert (Hbra : ∀ k, 0 <= k → e - -50 - e' = 52 + k →
            binary_round_aux prec emax false (Zpos m * 2 ^ k) e' loc_Exact
            = S754_finite false m (e - 2)).
  { intros k Hk Hek. rewrite binary_round_aux_exact; [f_equal; lia|done| |].
    - rewrite Hd. unfold fexp, emin, prec, emax. lia.
    - unfold prec, emax. lia. }
  destruct Hs as [Hs|Hs]; rewrite Hs.
  - change 53 with (52 + 1) at 1. cbn match. rewrite (Hdiv 1) by lia. apply (Hbra 1); lia.
  - change 52 with (52 + 0) at 1. cbn match. rewrite (Hdiv 0) by lia. apply (Hbra 0); lia.
Qed.

Lemma loc_roundtrip (q : Z) (l : location) :
  shr_m (shr_record_of_loc q l) = q
  ∧ loc_of_shr_record (shr_record_of_loc q l) = l.
Proof. by destruct l as [|[]]. Qed.

(** A mantissa already at the smallest exponent is only rounded. *)
Lemma binary_round_aux_noshift (q : Z) (l : location) :
  0 <= q < 2 ^ 53 - 1 →
  binary_round_aux prec emax false q (-1074) l
  = match round_nearest_even q l with
    | Zpos r => S754_finite false r (-1074)
    | _ => S754_zero false
    end.
Proof.
  intros Hq. unfold binary_round_aux, shr_fexp.
  pose proof (Zdigits2_le q 53 ltac:(lia) ltac:(lia)) as Hdq.
  replace (fexp prec emax (Zdigits2 q + -1074) - -1074) with 0
    by (unfold fexp, emin, prec, emax; lia).
  cbn [shr]. destruct (loc_roundtrip q l) as [-> ->].
  pose proof (rne_bounds q l) as Hr. set (r := round_nearest_even q l) in *.
  pose proof (Zdigits2_le r 53 ltac:(lia) ltac:(lia)) as Hdr.
  replace (fexp prec emax (Zdigits2 r + -1074) - -1074) with 0
    by (unfold fexp, emin, prec, emax; lia).
  cbn [shr shr_record_of_loc shr_m]. destruct r as [|p|p]; try done. lia.
Qed.

(** In the subnormal range a quarter is rounded to a multiple of the
    smallest positive float64. *)
Lemma div_four_low (m : positive) (e : Z) :
  valid (S754_finite false m e) = true → e < -1072 →
  ∃ rs, 0 <= rs
        ∧ - 2 ^ (-1072 - e) <= 2 * (Zpos m - rs * 2 ^ (-1072 - e)) <= 2 ^ (-1072 - e)
        ∧ ((rs = 0 ∧ div (S754_finite false m e) (of_Z 4) = S754_zero false)
           ∨ (0 < rs
              ∧ div (S754_finite false m e) (of_Z 4)
                = S754_finite false (Z.to_pos rs) (-1074)
              ∧ valid (S754_finite false (Z.to_pos rs) (-1074)) = true)).
Proof.
  intros Hv He. destruct (valid_digits _ _ _ Hv) as [Hm He'].
  pose proof (digits2_pos_bounds m) as Hdm.
  assert (Hd : 1 <= Zpos (digits2_pos m) <= 53).
  { apply valid_canonical in Hv as [Hc _]. unfold fexp, emin, prec, emax in Hc. lia. }
  rewrite of_Z_4. unfold div, SFdiv, SFdiv_core_binary. cbn [xorb Zdigits2].
  change (Zpos (digits2_pos 4503599627370496)) with 53.
  replace (Z.min (fexp prec emax (Zpos (digits2_pos m) + e - (53 + -50))) (e - -50))
    with (-1074) by (unfold fexp, emin, prec, emax; lia).
  assert (Hcase : e = -1073 ∨ e = -1074) by lia.
  assert (Hfin : ∀ q l,
            0 <= q < 2 ^ 52 →
            let rs := round_nearest_even q l in
            (rs = 0 ∧ binary_round_aux prec emax false q (-1074) l = S754_zero false)
            ∨ (0 < rs
               ∧ binary_round_aux prec emax false q (-1074) l
                 = S754_finite false (Z.to_pos rs) (-1074)
               ∧ valid (S754_finite false (Z.to_pos rs) (-1074)) = true)).
  { intros q l Hq rs. rewrite binary_round_aux_noshift by lia. fold rs.
    pose proof (rne_bounds q l) as Hr. fold rs in Hr.
    destruct rs as [|p|p] eqn:Ers; [by left| |lia]. right.
    split; [lia|]. split; [done|]. apply valid_canonical. split; [|lia].
    pose proof (Zdigits2_le (Zpos p) 53 ltac:(lia) ltac:(lia)) as Hdp.
    cbn [Zdigits2] in Hdp. cbn [Z.to_pos]. unfold fexp, emin, prec, emax. lia. }
  destruct Hcase as [-> | ->].
  - change (-1073 - -50 - -1074) with 51. cbn match.
    rewrite Z.shiftl_mul_pow2 by lia.
    destruct (Z.div_eucl _ _) as [q r] eqn:E.
    apply div_eucl_spec in E as [E1 E2]; [|done].
    change (2 ^ 51) with 2251799813685248 in E1.
    change (2 ^ 53) with 9007199254740992 in Hm.
    exists (round_nearest_even q (new_location 4503599627370496 r)).
    pose proof (rne_bounds q (new_location 4503599627370496 r)) as Hr.
    change (-1072 - -1073) with 1. change (2 ^ 1) with 2.
    split; [lia|]. split.
    + unfold new_location, new_location_even in *. cbn [Z.even] in *.
      destruct (Z.eqb_spec r 0); cbn [round_nearest_even] in *; [lia|].
      destruct (Z.compare_spec (2 * r) 4503599627370496);
        cbn [round_nearest_even] in *; lia.
    + apply Hfin. change (2 ^ 52) with 4503599627370496. lia.
  - change (-1074 - -50 - -1074) with 50. cbn match.
    rewrite Z.shiftl_mul_pow2 by lia.
    destruct (Z.div_eucl _ _) as [q r] eqn:E.
    apply div_eucl_spec in E as [E1 E2]; [|done].
    change (2 ^ 50) with 1125899906842624 in E1.
    change (2 ^ 53) with 9007199254740992 in Hm.
    exists (round_nearest_even q (new_location 4503599627370496 r)).
    pose proof (rne_bounds q (new_location 4503599627370496 r)) as Hr.
    change (-1072 - -1074) with 2. change (2 ^ 2) with 4.
    split; [lia|]. split.
    + unfold new_location, new_location_even in *. cbn [Z.even] in *.
      destruct (Z.eqb_spec r 0); cbn [round_nearest_even] in *; [lia|].
      destruct (Z.compare_spec (2 * r) 4503599627370496);
        cbn [round_nearest_even] in *; lia.
    + apply Hfin. change (2 ^ 52) with 4503599627370496. lia.
Qed.

End DivFacts.

(** ** The even grid *)

Module LinspaceFacts.
Import F64 F64Facts RoundFacts RintFacts BraFacts ScaledFacts MulFacts DivFacts.

Lemma of_Z_1 : of_Z 1 = S754_finite false 4503599627370496 (-52).
Proof. vm_compute. reflexivity. Qed.

Lemma of_Z_2 : of_Z 2 = S754_finite false 4503599627370496 (-51).
Proof. vm_compute. reflexivity. Qed.

Lemma of_Z_3 : of_Z 3 = S754_finite false 6755399441055744 (-51).
Proof. vm_compute. reflexivity. Qed.

Lemma mul_one (m : positive) (e : Z) :
  valid (S754_finite false m e) = true →
  mul (of_Z 1) (S754_finite false m e) = S754_finite false m e.
Proof.
  intros [Hc Hmax]%valid_canonical. rewrite of_Z_1. unfold mul, SFmul. cbn [xorb].
  rewrite Pos2Z.inj_mul, Z.mul_comm. change (Zpos 4503599627370496) with (2 ^ 52).
  rewrite binary_round_aux_exact; [f_equal; lia|lia| |].
  - replace (-52 + e + 52) with e by lia. done.
  - unfold emax, prec. lia.
Qed.

Lemma mul_two (m : positive) (e : Z) :
  valid (S754_finite false m e) = true →
  e < 971 ∨ Zpos (digits2_pos m) < 53 →
  ∃ m' e', mul (of_Z 2) (S754_finite false m e) = S754_finite false m' e'
           ∧ valid (S754_finite false m' e') = true
           ∧ scaled (S754_finite false m' e') = 2 * scaled (S754_finite false m e).
Proof.
  intros [Hc Hmax]%valid_canonical Hroom. rewrite of_Z_2. unfold mul, SFmul. cbn [xorb].
  rewrite Pos2Z.inj_mul. change (Zpos 4503599627370496) with (2 ^ 52).
  pose proof (digits2_pos_bounds m) as Hdm.
  destruct (Z.eq_dec (Zpos (digits2_pos m)) 53) as [Hd|Hd].
  - exists m, (e + 1). rewrite Z.mul_comm.
    rewrite binary_round_aux_exact; [|lia| |].
    + split; [f_equal; lia|]. split.
      * apply valid_canonical. rewrite Hd in *. unfold fexp, emin, prec, emax in *. lia.
      * unfold scaled, cond_Zopp. replace (e + 1 + 1200) with (1 + (e + 1200)) by lia.
        rewrite Z.pow_add_r by (unfold fexp, emin, prec, emax in *; lia). lia.
    + rewrite Hd in *. unfold fexp, emin, prec, emax in *. lia.
    + unfold emax, prec. lia.
  - assert (He : e = -1074 ∧ Zpos (digits2_pos m) < 53).
    { unfold fexp, emin, prec, emax in *. lia. }
    destruct He as [-> Hlt]. exists (m~0)%positive, (-1074).
    replace (2 ^ 52 * Zpos m) with (Zpos m~0 * 2 ^ 51)
      by (rewrite (Pos2Z.inj_xO m); change (2 ^ 52) with (2 * 2 ^ 51); lia).
    assert (Hcan : fexp prec emax (Zpos (digits2_pos m~0) + -1074) = -1074).
    { cbn [digits2_pos]. rewrite Pos2Z.inj_succ. unfold fexp, emin, prec, emax. lia. }
    rewrite binary_round_aux_exact; [|lia| |].
    + split; [done|]. split; [apply valid_canonical; split; [done|lia]|].
      unfold scaled, cond_Zopp. rewrite (Pos2Z.inj_xO m). lia.
    + done.
    + unfold emax, prec. lia.
Qed.

Lemma add_zero (m : positive) (e : Z) :
  add (S754_finite false m e) (of_Z 0) = S754_finite false m e.
Proof. done. Qed.

Lemma Zdigits2_mul_le (a b : Z) :
  0 < a < 2 ^ 53 → 0 < b → Zdigits2 (a * b) <= 53 + Zdigits2 b.
Proof.
  intros Ha Hb. pose proof (Zdigits2_bounds b Hb) as Hdb.
  assert (0 < Zdigits2 b).
  { rewrite Zdigits2_pos by done. pose proof (Z.log2_nonneg b). lia. }
  apply Zdigits2_le; [lia|]. split; [nia|].
  rewrite Z.pow_add_r by lia. nia.
Qed.

(** Three steps: the grid point is between two and four steps' worth,
    when four steps' worth is at most a float64 [top]. *)
Lemma mul_three (m : positive) (e top : Z) :
  valid (S754_finite false m e) = true →
  2 <= Zpos m →
  (3 * Zpos m + 2) * 2 ^ (e + 1200) <= top →
  top < 2 ^ 2224 →
  ∃ m' e', mul (of_Z 3) (S754_finite false m e) = S754_finite false m' e'
           ∧ valid (S754_finite false m' e') = true
           ∧ 2 * scaled (S754_finite false m e) <= scaled (S754_finite false m' e') <= top
           ∧ (Zpos m mod 4 = 0 →
              scaled (S754_finite false m' e') = 3 * scaled (S754_finite false m e)).
Proof.
  intros Hv Hm2 Htop Hov. rewrite of_Z_3.
  destruct (mul_shape 6755399441055744 m (-51) e) as (V & e1 & He1 & He1' & HV & Hb & Hex & Hfin);
    [done|done|lia|].
  destruct (valid_digits _ _ _ Hv) as [Hm53 He].
  apply valid_canonical in Hv as [Hc Hmax].
  assert (He12 : e1 <= e + 2).
  { pose proof (Zdigits2_mul_le 6755399441055744 (Zpos m) ltac:(done) ltac:(lia)) as Hd.
    change (Zdigits2 (Zpos m)) with (Zpos (digits2_pos m)) in Hd.
    rewrite He1; unfold fexp, emin, prec, emax in *; lia. }
  assert (Hq : 2 ^ (e1 + 1200) <= 4 * 2 ^ (e + 1200)).
  { change 4 with (2 ^ 2). rewrite <- Z.pow_add_r by lia.
    apply Z.pow_le_mono_r; lia. }
  assert (Hx : 6755399441055744 * Zpos m * 2 ^ (-51 + e + 1200)
               = 3 * Zpos m * 2 ^ (e + 1200)).
  { replace (e + 1200) with (51 + (-51 + e + 1200)) by lia.
    rewrite (Z.pow_add_r 2 51 (-51 + e + 1200)) by lia.
    change (2 ^ 51) with 2251799813685248. lia. }
  rewrite Hx in Hb, Hex.
  assert (Hp : 0 < 2 ^ (e + 1200)) by (apply pow2_pos; lia).
  destruct Hfin as (m' & e' & Hmul & Hv' & Hs'); [nia|].
  exists m', e'. split; [done|]. split; [done|].
  rewrite Hs'. unfold scaled, cond_Zopp. split; [nia|].
  intros H4. rewrite Z.mul_assoc. apply Hex. apply Z.div_exact in H4; [|done].
  replace (3 * Zpos m * 2 ^ (e + 1200))
    with (3 * (Zpos m / 4) * 2 ^ (e + 2 - e1) * 2 ^ (e1 + 1200)).
  { apply Z.mod_mul. apply Z.pow_nonzero; lia. }
  rewrite <- Z.mul_assoc, <- Z.pow_add_r by lia.
  replace (e + 2 - e1 + (e1 + 1200)) with (2 + (e + 1200)) by lia.
  rewrite (Z.pow_add_r 2 2) by lia. change (2 ^ 2) with 4. lia.
Qed.

Lemma linspace_5 (stop : spec_float) :
  linspace (of_Z 0) stop 5
  = let delta := sub stop (of_Z 0) in
    let step := div delta (of_Z 4) in
    if eqb step zero
    then [add (mul (div (of_Z 0) (of_Z 4)) delta) (of_Z 0);
          add (mul (div (of_Z 1) (of_Z 4)) delta) (of_Z 0);
          add (mul (div (of_Z 2) (of_Z 4)) delta) (of_Z 0);
          add (mul (div (of_Z 3) (of_Z 4)) delta) (of_Z 0);
          stop]
    else [add (mul (of_Z 0) step) (of_Z 0);
          add (mul (of_Z 1) step) (of_Z 0);
          add (mul (of_Z 2) step) (of_Z 0);
          add (mul (of_Z 3) step) (of_Z 0);
          stop].
Proof.
  unfold linspace. change (Z.of_nat 5 - 1) with 4. change (0 <? 4) with true.
  cbn zeta. cbn match. destruct (eqb _ _); reflexivity.
Qed.

(** The grid over a float64 that is not negative: it starts at zero, ends
    at the float itself, and goes up in between. *)
Lemma linspace_steps (m : positive) (e : Z) (p : positive) (es : Z) :
  valid (S754_finite false m e) = true →
  div (S754_finite false m e) (of_Z 4) = S754_finite false p es →
  valid (S754_finite false p es) = true →
  2 <= Zpos p →
  (3 * Zpos p + 2) * 2 ^ (es + 1200) <= Zpos m * 2 ^ (e + 1200) →
  ∃ b1 b2 b3,
    linspace (of_Z 0) (S754_finite false m e) 5
    = [zero; b1; b2; b3; S754_finite false m e]
    ∧ Forall (λ b, is_finite b = true ∧ valid b = true) [b1; b2; b3]
    ∧ 0 <= scaled b1 <= scaled b2
    ∧ scaled b2 <= scaled b3 <= scaled (S754_finite false m e)
    ∧ scaled b1 = Zpos p * 2 ^ (es + 1200)
    ∧ scaled b2 = 2 * scaled b1
    ∧ (Zpos p mod 4 = 0 → scaled b3 = 3 * scaled b1)
    ∧ b1 = S754_finite false p es
    ∧ (∃ m3 e3, b3 = S754_finite false m3 e3)
    ∧ b3 = mul (of_Z 3) b1.
Proof.
  intros Hv Hdiv Hvs Hp2 Hfit.
  destruct (valid_digits _ _ _ Hv) as [Hm He].
  destruct (valid_digits _ _ _ Hvs) as [Hps Hes].
  assert (Htop : Zpos m * 2 ^ (e + 1200) < 2 ^ 2224).
  { assert (2 ^ (e + 1200) <= 2 ^ 2171) by (apply Z.pow_le_mono_r; lia).
    assert (0 < 2 ^ (e + 1200)) by (apply pow2_pos; lia).
    change (2 ^ 2224) with (2 ^ 53 * 2 ^ 2171). nia. }
  assert (Hq : 0 < 2 ^ (es + 1200)) by (apply pow2_pos; lia).
  destruct (mul_two p es Hvs) as (m2 & e2 & Hmul2 & Hv2 & Hs2).
  { assert (es < 971 ∨ 971 <= es) as [|Hbig] by lia; [by left|exfalso].
    pose proof (valid_normal _ _ _ Hvs ltac:(lia)) as Hd.
    pose proof (digits2_pos_bounds p) as Hdp. rewrite Hd in Hdp.
    change (2 ^ (53 - 1)) with 4503599627370496 in Hdp.
    change (2 ^ 53) with 9007199254740992 in Hm.
    assert (2 ^ (e + 1200) <= 2 ^ (es + 1200)) by (apply Z.pow_le_mono_r; lia).
    assert (0 < 2 ^ (e + 1200)) by (apply pow2_pos; lia).
    revert Hfit H H0. generalize (2 ^ (es + 1200)) (2 ^ (e + 1200)). intros A B. nia. }
  destruct (mul_three p es (Zpos m * 2 ^ (e + 1200)) Hvs Hp2 Hfit Htop)
    as (m3 & e3 & Hmul3 & Hv3 & Hs3 & Hex3).
  exists (S754_finite false p es), (S754_finite false m2 e2), (S754_finite false m3 e3).
  split.
  { rewrite linspace_5. cbn zeta.
    change (sub (S754_finite false m e) (of_Z 0)) with (S754_finite false m e).
    rewrite Hdiv. change (eqb (S754_finite false p es) zero) with false. cbn match.
    rewrite (mul_one p es Hvs), Hmul2, Hmul3. reflexivity. }
  split; [repeat constructor; done|].
  rewrite Hs2. split; [unfold scaled, cond_Zopp in *; nia|].
  split; [unfold scaled, cond_Zopp in *; lia|].
  split; [done|]. split; [done|]. split; [exact Hex3|]. split; [done|].
  split; [by eexists _, _|]. by rewrite Hmul3.
Qed.

Lemma linspace_nonneg (x : spec_float) :
  (is_zero x = true ∨ ∃ m e, x = S754_finite false m e ∧ valid x = true) →
  ∃ b1 b2 b3,
    linspace (of_Z 0) x 5 = [zero; b1; b2; b3; x]
    ∧ Forall (λ b, is_finite b = true ∧ valid b = true) [b1; b2; b3]
    ∧ 0 <= scaled b1 <= scaled b2
    ∧ scaled b2 <= scaled b3 <= scaled x
    ∧ (∀ m e, x = S754_finite false m e → -1072 <= e →
         4 * scaled b1 = scaled x ∧ 2 * scaled b2 = scaled x
         ∧ (Zpos m mod 4 = 0 → 4 * scaled b3 = 3 * scaled x)
         ∧ (∃ p es, b1 = S754_finite false p es)
         ∧ (∃ m3 e3, b3 = S754_finite false m3 e3)
         ∧ b3 = mul (of_Z 3) b1).
Proof.
  intros [Hz|(m & e & -> & Hv)].
  { destruct x as [[]| | |]; try done;
      exists zero, zero, zero; (split; [by vm_compute|]);
      (split; [repeat constructor|done]). }
  destruct (valid_digits _ _ _ Hv) as [Hm He].
  pose proof (digits2_pos_bounds m) as Hdm.
  destruct (Z_le_gt_dec (-1072) e) as [Hhi|Hlo].
  - (* a quarter is exact *)
    pose proof (valid_normal _ _ _ Hv ltac:(lia)) as Hd.
    rewrite Hd in Hdm. change (2 ^ (53 - 1)) with 4503599627370496 in Hdm.
    assert (Hpow : 2 ^ (e + 1200) = 4 * 2 ^ (e - 2 + 1200)).
    { replace (e + 1200) with (2 + (e - 2 + 1200)) by lia.
      by rewrite (Z.pow_add_r 2 2) by lia. }
    destruct (linspace_steps m e m (e - 2))
      as (b1 & b2 & b3 & Hl & Hf & H1 & H2 & E1 & E2 & E3 & E0 & E5 & E4); try done.
    + by apply div_four_exact.
    + apply valid_canonical in Hv as [Hc Hmax]. apply valid_canonical.
      rewrite Hd in *. unfold fexp, emin, prec, emax in *. lia.
    + lia.
    + rewrite Hpow. assert (0 < 2 ^ (e - 2 + 1200)) by (apply pow2_pos; lia). nia.
    + exists b1, b2, b3. do 4 (split; [done|]).
      intros m0 e0 [= <- <-] _. unfold scaled at 2 4 6. cbn [cond_Zopp].
      rewrite Hpow, E2, E1. split; [lia|]. split; [lia|].
      split; [intros H4; rewrite (E3 H4), E1; lia|]. split; [by eexists _, _|].
      done.
  - destruct (Z_lt_ge_dec (Zpos m) 14) as [Hsmall|Hbig].
    + (* the thirteen smallest grids *)
      assert (He' : e = -1074).
      { destruct (Z.eq_dec e (-1074)) as [|Hne]; [done|].
        pose proof (valid_normal _ _ _ Hv ltac:(lia)) as Hd.
        rewrite Hd in Hdm. change (2 ^ (53 - 1)) with 4503599627370496 in Hdm. lia. }
      subst e.
      assert (Hcases : (m = 1 ∨ m = 2 ∨ m = 3 ∨ m = 4 ∨ m = 5 ∨ m = 6 ∨ m = 7 ∨ m = 8
                        ∨ m = 9 ∨ m = 10 ∨ m = 11 ∨ m = 12 ∨ m = 13)%positive) by lia.
      repeat (destruct Hcases as [->|Hcases]); try subst m;
        (eexists _, _, _; split; [vm_compute; reflexivity|];
         split; [repeat constructor|];
         split; [vm_compute; split; discriminate|];
         split; [vm_compute; split; discriminate|];
         intros m0 e0 [= <- <-] Hc; lia).
    + destruct (div_four_low m e Hv ltac:(lia)) as (rs & Hrs0 & Hb & Hres).
      assert (He' : e = -1073 ∨ e = -1074) by lia.
      assert (Hrs : 2 <= rs
                    ∧ (3 * rs + 2) * 2 ^ (-1074 + 1200) <= Zpos m * 2 ^ (e + 1200)).
      { destruct He' as [-> | ->].
        - pose proof (valid_normal _ _ _ Hv ltac:(lia)) as Hd.
          rewrite Hd in Hdm. change (2 ^ (53 - 1)) with 4503599627370496 in Hdm.
          change (2 ^ (-1072 - -1073)) with 2 in Hb.
          change (2 ^ (-1073 + 1200)) with (2 * 2 ^ (-1074 + 1200)).
          assert (0 < 2 ^ (-1074 + 1200)) by done. split; [lia|nia].
        - change (2 ^ (-1072 - -1074)) with 4 in Hb.
          assert (0 < 2 ^ (-1074 + 1200)) by done. split; [lia|nia]. }
      destruct Hrs as [Hrs2 Hfit].
      destruct Hres as [[-> _]|(_ & Hdiv & Hvs)]; [lia|].
      destruct (linspace_steps m e (Z.to_pos rs) (-1074))
        as (b1 & b2 & b3 & Hl & Hf & H1 & H2 & _); try done.
      * rewrite Z2Pos.id by lia. done.
      * rewrite Z2Pos.id by lia. done.
      * exists b1, b2, b3. do 4 (split; [done|]).
        intros m0 e0 [= <- <-] Hc. lia.
Qed.

End LinspaceFacts.

(** ** binary64: signs *)

Module SignFacts.
Import F64 F64Facts RoundFacts RintFacts BraFacts ScaledFacts MulFacts DivFacts LinspaceFacts.

Lemma binary_round_aux_opp (s : bool) (mx ex : Z) (lx : location) :
  binary_round_aux prec emax (negb s) mx ex lx
  = SFopp (binary_round_aux prec emax s mx ex lx).
Proof.
  unfold binary_round_aux. destruct (shr_fexp _ _ _ _ _) as [mrs' e'].
  destruct (shr_fexp _ _ _ _ _) as [mrs'' e''].
  destruct (shr_m mrs''); [done| |done]. by destruct (_ <=? _).
Qed.

Lemma mul_opp (x y : spec_float) : mul x (SFopp y) = SFopp (mul x y).
Proof.
  destruct x as [sx|sx| |sx mx ex], y as [sy|sy| |sy my ey]; try done;
    unfold mul; cbn [SFmul SFopp]; try by destruct sx, sy.
  destruct sx, sy; cbn [xorb negb];
    first [apply (binary_round_aux_opp false)|apply (binary_round_aux_opp true)].
Qed.

Lemma div_opp (x : spec_float) (m : positive) (e : Z) :
  is_finite x = true →
  div (SFopp x) (S754_finite false m e) = SFopp (div x (S754_finite false m e)).
Proof.
  destruct x as [sx|sx| |sx mx ex]; try done; intros _; unfold div; cbn [SFdiv SFopp].
  - by destruct sx.
  - destruct (SFdiv_core_binary _ _ _ _ _ _) as [[mz ez] lz].
    destruct sx; cbn [xorb negb];
      first [apply (binary_round_aux_opp false)|apply (binary_round_aux_opp true)].
Qed.

Lemma of_Z_opp (z : Z) : z ≠ 0 → of_Z (- z) = SFopp (of_Z z).
Proof.
  intros Hz. unfold of_Z, binary_normalize.
  assert (H : ∀ p, binary_round prec emax true p 0 = SFopp (binary_round prec emax false p 0)).
  { intros p. unfold binary_round. destruct (shl_align _ _ _) as [mz ez].
    apply (binary_round_aux_opp false). }
  destruct z as [|p|p]; [done| |].
  - change (- Zpos p) with (Zneg p). apply H.
  - change (- Zneg p) with (Zpos p). cbn match.
    rewrite H. by destruct (binary_round _ _ _ _ _) as [[]|[]| |[] ? ?].
Qed.

(** An int64 that is not zero converts to a finite float64. *)
Lemma of_Z_int64_pos (z : Z) :
  0 < z < 2 ^ 64 →
  ∃ m e, of_Z z = S754_finite false m e ∧ valid (S754_finite false m e) = true.
Proof.
  intros [Hz Hhi]. destruct (Z_lt_ge_dec z (2 ^ 53)) as [Hsmall|Hbig].
  - destruct (of_Z_exact z ltac:(lia)) as (m & e & Heq & _ & _ & Hv).
    exists m, e. by rewrite <- Heq.
  - destruct z as [|p|p]; try lia.
    unfold of_Z, binary_normalize, binary_round.
    pose proof (Zdigits2_bounds (Zpos p) ltac:(lia)) as Hd. cbn [Zdigits2] in Hd.
    assert (Hd54 : 54 <= Zpos (digits2_pos p) <= 64).
    { split.
      - destruct (Z_lt_ge_dec (Zpos (digits2_pos p)) 54) as [Hlt|]; [|lia].
        assert (2 ^ Zpos (digits2_pos p) <= 2 ^ 53) by (apply Z.pow_le_mono_r; lia). lia.
      - destruct (Z_le_gt_dec (Zpos (digits2_pos p)) 64) as [|Hgt]; [done|].
        assert (2 ^ 64 <= 2 ^ (Zpos (digits2_pos p) - 1)) by (apply Z.pow_le_mono_r; lia).
        lia. }
    assert (Hf : fexp prec emax (Zpos (digits2_pos p) + 0) = Zpos (digits2_pos p) - 53).
    { unfold fexp, emin, prec, emax. lia. }
    rewrite Hf. unfold shl_align.
    destruct (Zpos (digits2_pos p) - 53 - 0) as [|q|q] eqn:Eq; try lia.
    destruct (binary_round_aux_shape false (Zpos p) 0 ltac:(lia))
      as (r & _ & _ & _ & Hnorm & Hcases).
    { cbn [Zdigits2]. lia. }
    cbn zeta in *. cbn [Zdigits2] in *. rewrite Hf in *.
    specialize (Hnorm ltac:(lia)).
    destruct Hcases as [[-> _]|[(Hr & Hcan & ->)|(-> & ->)]]; [lia| |].
    + replace (Zpos (digits2_pos p) - 53 <=? emax - prec) with true
        by (symmetry; apply Z.leb_le; unfold emax, prec; lia).
      eexists _, _. split; [done|]. apply valid_canonical.
      split; [|lia]. destruct r as [|r|r]; try lia. exact Hcan.
    + replace (Zpos (digits2_pos p) - 53 + 1 <=? emax - prec) with true
        by (symmetry; apply Z.leb_le; unfold emax, prec; lia).
      eexists _, _. split; [done|]. apply valid_canonical.
      change (Zpos (digits2_pos (Z.to_pos (2 ^ 52)))) with 53.
      unfold fexp, emin, prec, emax. lia.
Qed.

Lemma sub_zero (x : spec_float) : is_finite x = true → sub x (of_Z 0) = x.
Proof. by destruct x as [[]|[]| |[] ? ?]. Qed.

Lemma eqb_opp (x : spec_float) : eqb (SFopp x) zero = eqb x zero.
Proof. by destruct x as [[]|[]| |[] ? ?]. Qed.

Lemma is_finite_opp (x : spec_float) : is_finite (SFopp x) = is_finite x.
Proof. by destruct x. Qed.

(** The grid over the opposite number. *)
Lemma linspace_opp (x : spec_float) :
  is_finite x = true →
  ∃ v0 v1 v2 v3,
    linspace (of_Z 0) x 5
    = [add v0 zero; add v1 zero; add v2 zero; add v3 zero; x]
    ∧ linspace (of_Z 0) (SFopp x) 5
      = [add (SFopp v0) zero; add (SFopp v1) zero; add (SFopp v2) zero;
         add (SFopp v3) zero; SFopp x].
Proof.
  intros Hx. rewrite !linspace_5. cbn zeta.
  rewrite !sub_zero by by rewrite ?is_finite_opp.
  rewrite of_Z_4, div_opp, eqb_opp by done. destruct (eqb _ _).
  - eexists _, _, _, _. split; [reflexivity|]. by rewrite !mul_opp.
  - eexists _, _, _, _. split; [reflexivity|]. by rewrite !mul_opp.
Qed.

Lemma add_zero_flip (v : spec_float) :
  is_finite (add v zero) = true → valid (add v zero) = true →
  is_finite (add (SFopp v) zero) = true
  ∧ valid (add (SFopp v) zero) = true
  ∧ scaled (add (SFopp v) zero) = - scaled (add v zero)
  ∧ (add v zero = zero → add (SFopp v) zero = zero).
Proof.
  destruct v as [[]|[]| |[] m e]; try done; intros _ Hv;
    change (add (S754_finite ?s m e) zero) with (S754_finite s m e) in *;
    cbn [SFopp negb];
    change (add (S754_finite ?s m e) zero) with (S754_finite s m e);
    (split; [done|]); (split; [exact Hv|]); (split; [|done]);
    unfold scaled, cond_Zopp; lia.
Qed.

(** The grid over any finite float64: five points from zero to the float,
    the first two steps exact above the subnormal range, the third exact
    when the mantissa allows a quarter of its triple. *)
Lemma linspace_finite (x : spec_float) :
  is_finite x = true → valid x = true →
  ∃ b1 b2 b3,
    linspace (of_Z 0) x 5 = [zero; b1; b2; b3; x]
    ∧ Forall (λ b, is_finite b = true ∧ valid b = true) [b1; b2; b3]
    ∧ (∀ s m e, x = S754_finite s m e → -1072 <= e →
         4 * scaled b1 = scaled x ∧ 2 * scaled b2 = scaled x
         ∧ (Zpos m mod 4 = 0 → 4 * scaled b3 = 3 * scaled x)
         ∧ b3 = mul (of_Z 3) b1).
Proof.
  intros Hf Hv. destruct x as [s|s| |[] m e]; try done.
  - destruct (linspace_nonneg (S754_zero s)) as (b1 & b2 & b3 & Hl & Hb & _); [by left|].
    exists b1, b2, b3. by repeat split.
  - set (P := S754_finite false m e).
    destruct (linspace_nonneg P) as (b1 & b2 & b3 & Hl & Hb & _ & _ & Hex).
    { right. by exists m, e. }
    destruct (linspace_opp P eq_refl) as (v0 & v1 & v2 & v3 & Hp & Hn).
    rewrite Hl in Hp. injection Hp as E0 E1 E2 E3. subst b1 b2 b3.
    apply Forall_cons in Hb as [[Hf1 Hv1] Hb].
    apply Forall_cons in Hb as [[Hf2 Hv2] Hb].
    apply Forall_cons in Hb as [[Hf3 Hv3] _].
    destruct (add_zero_flip v0) as (_ & _ & _ & Hz0); [by rewrite <- E0|by rewrite <- E0|].
    destruct (add_zero_flip v1 Hf1 Hv1) as (Hf1' & Hv1' & Hs1 & _).
    destruct (add_zero_flip v2 Hf2 Hv2) as (Hf2' & Hv2' & Hs2 & _).
    destruct (add_zero_flip v3 Hf3 Hv3) as (Hf3' & Hv3' & Hs3 & _).
    eexists _, _, _. split.
    { change (S754_finite true m e) with (SFopp P). rewrite Hn, Hz0 by done. reflexivity. }
    split; [by repeat constructor|].
    intros s m0 e0 [= <- <- <-] He.
    destruct (Hex m e eq_refl He) as (X1 & X2 & X3 & (p & es & X4) & (m3 & e3 & X6) & X5).
    split; [rewrite Hs1; unfold P, scaled, cond_Zopp in *; lia|].
    split; [rewrite Hs2; unfold P, scaled, cond_Zopp in *; lia|].
    split.
    { intros H4. specialize (X3 H4). rewrite Hs3. unfold P, scaled, cond_Zopp in *. lia. }
    assert (Hfin : ∀ v sv mv ev, add v zero = S754_finite sv mv ev →
              add (SFopp v) zero = SFopp (add v zero)).
    { intros v sv mv ev. by destruct v as [[]|[]| |[] ? ?]. }
    rewrite (Hfin v1 _ _ _ X4), (Hfin v3 _ _ _ X6), X5. by rewrite mul_opp.
  - destruct (linspace_nonneg (S754_finite false m e)) as (b1 & b2 & b3 & Hl & Hb & _ & _ & Hex).
    { right. by exists m, e. }
    exists b1, b2, b3. split; [done|]. split; [done|].
    intros s m0 e0 [= <- <- <-] He.
    destruct (Hex m e eq_refl He) as (X1 & X2 & X3 & _ & _ & X5). done.
Qed.

Lemma of_Z_small (z : Z) :
  0 < z < 2 ^ 51 →
  ∃ m e, of_Z z = S754_finite false m e
         ∧ valid (S754_finite false m e) = true
         ∧ -1072 <= e
         ∧ Zpos m mod 4 = 0
         ∧ scaled (S754_finite false m e) = z * 2 ^ 1200.
Proof.
  intros Hz. destruct (of_Z_exact z) as (m & e & Heq & He & Hm & Hv).
  { split; [lia|]. eapply Z.lt_trans; [apply Hz|done]. }
  rewrite Heq in Hv. exists m, e. split; [done|]. split; [done|].
  destruct (valid_digits _ _ _ Hv) as [Hm53 He'].
  assert (Hne : -52 <= e).
  { destruct (Z_le_gt_dec (-52) e) as [|Hgt]; [done|].
    assert (2 ^ 53 <= 2 ^ (- e)) by (apply Z.pow_le_mono_r; lia). nia. }
  pose proof (valid_normal _ _ _ Hv ltac:(lia)) as Hd.
  pose proof (digits2_pos_bounds m) as Hdm. rewrite Hd in Hdm.
  change (2 ^ (53 - 1)) with (2 ^ 52) in Hdm.
  assert (He2 : e <= -2).
  { destruct (Z_le_gt_dec e (-2)) as [|Hgt]; [done|].
    assert (2 ^ (- e) <= 2 ^ 1) by (apply Z.pow_le_mono_r; lia).
    change (2 ^ 1) with 2 in *. change (2 ^ 52) with (2 * 2 ^ 51) in Hdm.
    assert (0 < 2 ^ (- e)) by (apply pow2_pos; lia). nia. }
  split; [lia|]. split.
  - rewrite Hm. replace (- e) with ((- e - 2) + 2) by lia.
    rewrite Z.pow_add_r by lia. change (2 ^ 2) with 4.
    rewrite Z.mul_assoc. apply Z.mod_mul. done.
  - unfold scaled, cond_Zopp. rewrite Hm, <- Z.mul_assoc, <- Z.pow_add_r by lia.
    f_equal. f_equal. lia.
Qed.

End SignFacts.

(** ** The scale of even intervals *)

Module EvenFacts.
Import F64 F64Facts RoundFacts RintFacts BraFacts ScaledFacts MulFacts DivFacts
  LinspaceFacts SignFacts.

Lemma valid_exponent (b : spec_float) :
  valid b = true → ∀ s m e, b = S754_finite s m e → -1200 <= e.
Proof.
  intros Hv s m e ->. destruct (valid_digits _ _ _ Hv) as [_ He]. lia.
Qed.

Lemma scaled_eq_Q (a b : spec_float) (k j : Z) :
  valid a = true → valid b = true →
  k * scaled a = j * scaled b →
  (inject_Z k * F2Q a == inject_Z j * F2Q b)%Q.
Proof.
  intros Ha Hb H.
  apply (Qmult_inj_r _ _ (inject_Z (2 ^ 1200))); [done|].
  rewrite <- !Qmult_assoc.
  rewrite (F2Q_scaled_any a (valid_exponent a Ha)), (F2Q_scaled_any b (valid_exponent b Hb)).
  rewrite <- !inject_Z_mult. by rewrite H.
Qed.

Lemma scaled_Q (a : spec_float) (n : Z) :
  valid a = true → scaled a = n * 2 ^ 1200 → (F2Q a == inject_Z n)%Q.
Proof.
  intros Ha H.
  apply (Qmult_inj_r _ _ (inject_Z (2 ^ 1200))); [done|].
  rewrite (F2Q_scaled_any a (valid_exponent a Ha)), <- inject_Z_mult. by rewrite H.
Qed.

(** An int64 converts to a finite float64, exactly below 2^53. *)
Lemma to_float_number (x : scalar) :
  is_number x → is_finite (to_float x) = true ∧ valid (to_float x) = true.
Proof.
  destruct x as [z|f]; cbn [is_number to_float]; [|done]. intros Hz.
  assert (Hpos : ∀ n, 0 < n < 2 ^ 64 → is_finite (of_Z n) = true ∧ valid (of_Z n) = true).
  { intros n Hn. destruct (of_Z_int64_pos n Hn) as (m & e & -> & Hv). done. }
  destruct (Z.lt_trichotomy z 0) as [Hneg|[->|Hp]]; [|done|].
  - replace z with (- - z) by lia. rewrite of_Z_opp by lia.
    destruct (Hpos (- z)) as [Hf Hv].
    { split; [lia|]. change (2 ^ 64) with (2 * 2 ^ 63). lia. }
    destruct (of_Z (- z)) as [| | |]; done.
  - apply Hpos. split; [lia|]. change (2 ^ 64) with (2 * 2 ^ 63). lia.
Qed.

Lemma to_float_small (z : Z) :
  - 2 ^ 51 < z < 2 ^ 51 → z ≠ 0 →
  ∃ s m e, of_Z z = S754_finite s m e
           ∧ -1072 <= e ∧ Zpos m mod 4 = 0
           ∧ scaled (of_Z z) = z * 2 ^ 1200.
Proof.
  intros Hz Hne. destruct (Z.lt_trichotomy z 0) as [Hneg|[->|Hp]]; [|done|].
  - destruct (of_Z_small (- z) ltac:(lia)) as (m & e & Heq & _ & He & H4 & Hs).
    replace z with (- - z) by lia. rewrite of_Z_opp, Heq by lia. cbn [SFopp negb].
    exists true, m, e. do 3 (split; [done|]).
    unfold scaled, cond_Zopp in *. lia.
  - destruct (of_Z_small z ltac:(lia)) as (m & e & Heq & _ & He & H4 & Hs).
    rewrite Heq. by exists false, m, e.
Qed.

End EvenFacts.

Section EvenIntervals.
Import F64 F64Facts RintFacts ScaledFacts LinspaceFacts SignFacts EvenFacts.

(** C3. For every maximum that is a number, the even-intervals scale
    builder returns exactly five boundaries, from zero to the maximum
    itself.  They are equally spaced: for an integer maximum [z] (below
    2^51 in absolute value) they are exactly 0, z/4, 2z/4, 3z/4 and z; for
    a float64 maximum above the subnormal range the first is a quarter and
    the second a half of the maximum exactly, and the third is three times
    the first in float64 arithmetic, which is three quarters of the maximum
    whenever that is a float64.  A maximum of 40 gives 0, 10, 20, 30, 40. *)
Theorem scale_even_intervals (m : scalar) :
  is_number m →
  ∃ b1 b2 b3,
    scale GelijkeIntervals m = Some (SFloat <$> [F64.zero; b1; b2; b3; to_float m])
    ∧ Forall (λ b, F64.is_finite b = true ∧ F64.valid b = true) [b1; b2; b3; to_float m]
    ∧ (∀ z, m = SInt z → - 2 ^ 51 < z < 2 ^ 51 →
         (4 * F2Q b1 == inject_Z z)%Q
         ∧ (4 * F2Q b2 == inject_Z (2 * z))%Q
         ∧ (4 * F2Q b3 == inject_Z (3 * z))%Q
         ∧ (F2Q (to_float m) == inject_Z z)%Q)
    ∧ (∀ s mm e, to_float m = S754_finite s mm e → -1072 <= e →
         (4 * F2Q b1 == F2Q (to_float m))%Q
         ∧ (2 * F2Q b2 == F2Q (to_float m))%Q
         ∧ b3 = F64.mul (F64.of_Z 3) b1
         ∧ (Zpos mm mod 4 = 0 → (4 * F2Q b3 == 3 * F2Q (to_float m))%Q))
    ∧ (m = SInt 40 →
       scale GelijkeIntervals m = Some (SFloat <$> (F64.of_Z <$> [0; 10; 20; 30; 40]))).
Proof.
  intros Hn. destruct (to_float_number m Hn) as [Hf Hv].
  destruct (linspace_finite _ Hf Hv) as (b1 & b2 & b3 & Hl & Hb & Hex).
  apply Forall_cons in Hb as [[Hf1 Hv1] Hb].
  apply Forall_cons in Hb as [[Hf2 Hv2] Hb].
  apply Forall_cons in Hb as [[Hf3 Hv3] _].
  exists b1, b2, b3. split; [cbn [scale]; by rewrite Hl|].
  split; [by repeat constructor|].
  assert (Hquarter : ∀ s mm e, to_float m = S754_finite s mm e → -1072 <= e →
            (4 * F2Q b1 == F2Q (to_float m))%Q
            ∧ (2 * F2Q b2 == F2Q (to_float m))%Q
            ∧ b3 = F64.mul (F64.of_Z 3) b1
            ∧ (Zpos mm mod 4 = 0 → (4 * F2Q b3 == 3 * F2Q (to_float m))%Q)).
  { intros s mm e Hx He. destruct (Hex s mm e Hx He) as (X1 & X2 & X3 & X5).
    pose proof (scaled_eq_Q b1 (to_float m) 4 1 Hv1 Hv ltac:(lia)) as Q1.
    pose proof (scaled_eq_Q b2 (to_float m) 2 1 Hv2 Hv ltac:(lia)) as Q2.
    change (inject_Z 4) with 4%Q in Q1. change (inject_Z 2) with 2%Q in Q2.
    change (inject_Z 1) with 1%Q in Q1, Q2.
    split; [lra|]. split; [lra|]. split; [exact X5|]. intros H4.
    pose proof (scaled_eq_Q b3 (to_float m) 4 3 Hv3 Hv ltac:(specialize (X3 H4); lia)) as Q3.
    exact Q3. }
  split; [|split; [exact Hquarter|intros ->; by vm_compute]].
  intros z -> Hz. cbn [to_float] in *.
  destruct (Z.eq_dec z 0) as [->|Hne].
  - destruct (linspace_nonneg (of_Z 0)) as (c1 & c2 & c3 & Hl' & _ & H1 & H2 & _); [by left|].
    rewrite Hl in Hl'. injection Hl' as <- <- <-. change (scaled (of_Z 0)) with 0 in H2.
    pose proof (scaled_Q b1 0 Hv1 ltac:(lia)) as Q1.
    pose proof (scaled_Q b2 0 Hv2 ltac:(lia)) as Q2.
    pose proof (scaled_Q b3 0 Hv3 ltac:(lia)) as Q3.
    change (inject_Z (2 * 0)) with 0%Q. change (inject_Z (3 * 0)) with 0%Q.
    change (inject_Z 0) with 0%Q in *. change (F2Q (of_Z 0)) with 0%Q.
    repeat split; lra.
  - destruct (to_float_small z Hz Hne) as (s & mm & e & Heq & He & H4 & Hs).
    destruct (Hquarter s mm e Heq He) as (Q1 & Q2 & _ & Q3). specialize (Q3 H4).
    pose proof (scaled_Q (of_Z z) z Hv Hs) as Qx.
    rewrite !inject_Z_mult. change (inject_Z 2) with 2%Q. change (inject_Z 3) with 3%Q.
    repeat split; lra.
Qed.

Lemma Qle_transitive : Relations_1.Transitive (λ a b : scalar, (scalar_Q a <= scalar_Q b)%Q).
Proof. intros a b c. apply Qle_trans. Qed.

Lemma scale_sorted_nonneg (label_classification : classificatie) (m : scalar) :
  scalar_nonneg m → is_number m →
  ∃ bs, scale label_classification m = Some bs
        ∧ ascending bs ∧ boundaries_nonneg bs.
Proof.
  intros Hpos Hn. destruct label_classification.
  - destruct (to_float_number m Hn) as [Hf Hv].
    destruct (linspace_nonneg (to_float m)) as (b1 & b2 & b3 & Hl & Hb & H1 & H2 & _).
    { destruct m as [z|[s|s| |[] mm e]]; cbn [scalar_nonneg to_float] in *; try done.
      - destruct (Z.eq_dec z 0) as [->|Hne]; [by left|right].
        destruct (of_Z_int64_pos z) as (mm & e & Heq & Hv').
        { cbn in Hn. split; [lia|]. change (2 ^ 64) with (2 * 2 ^ 63). lia. }
        exists mm, e. by rewrite Heq.
      - by left.
      - right. by exists mm, e. }
    apply Forall_cons in Hb as [[Hf1 Hv1] Hb].
    apply Forall_cons in Hb as [[Hf2 Hv2] Hb].
    apply Forall_cons in Hb as [[Hf3 Hv3] _].
    exists (SFloat <$> [zero; b1; b2; b3; to_float m]).
    split; [cbn [scale]; by rewrite Hl|].
    assert (Hle : ∀ a b, valid a = true → valid b = true → scaled a <= scaled b →
              (scalar_Q (SFloat a) <= scalar_Q (SFloat b))%Q).
    { intros a b Ha Hb' Hab. apply F2Q_le_scaled; [by apply valid_exponent..|done]. }
    split.
    + apply Sorted_StronglySorted; [exact Qle_transitive|].
      cbn [fmap list_fmap].
      assert (Hz : scaled zero = 0) by done.
      repeat (apply Sorted_cons; [|constructor; apply Hle; try done; lia]).
      repeat constructor.
    + assert (Hz : scaled zero = 0) by done.
      assert (Hok : ∀ b, is_finite b = true → valid b = true → 0 <= scaled b →
                scalar_finite (SFloat b) = true ∧ (0 <= scalar_Q (SFloat b))%Q).
      { intros b Hfb Hvb Hsb. split; [cbn; by rewrite Hfb, Hvb|].
        apply (Hle zero); [done|done|lia]. }
      unfold boundaries_nonneg. cbn [fmap list_fmap].
      repeat (apply Forall_cons; split; [apply Hok; try done; lia|]).
      constructor.
  - destruct (scale_powers_of_ten_nonneg m Hpos)
      as (n & d & _ & _ & _ & _ & _ & Hscale & _).
    exists (SInt <$> 0 :: powers_of_ten (d + 1)). split; [done|].
    apply powers_of_ten_scale_ok.
Qed.

(** C7. For every maximum that is a number and is not negative, under
    both classifications, the scale builder returns a scale whose
    boundaries are finite, not negative, and in ascending order. *)
Theorem scale_ascending (label_classification : classificatie) (m : scalar) :
  scalar_nonneg m → is_number m →
  ∃ bs, scale label_classification m = Some bs
        ∧ ascending bs ∧ boundaries_nonneg bs.
Proof. apply scale_sorted_nonneg. Qed.

End EvenIntervals.

(** ** From the frame to the scale *)

Lemma foldl_max_spec (x : Z) (xs : list Z) :
  foldl Z.max x xs ∈ x :: xs ∧ ∀ v, v ∈ x :: xs → v <= foldl Z.max x xs.
Proof.
  revert x. induction xs as [|y ys IH]; intros x; cbn [foldl].
  - split; [by left|]. intros v ->%list_elem_of_singleton. lia.
  - destruct (IH (Z.max x y)) as [Hin Hle]. split.
    + apply elem_of_cons in Hin as [Heq|Hin]; [|by do 2 right].
      rewrite Heq. destruct (Z.max_spec x y) as [[_ ->]|[_ ->]]; [right|]; by left.
    + intros v Hv. apply elem_of_cons in Hv as [->|Hv].
      * etransitivity; [apply (Z.le_max_l _ y)|]. apply Hle. by left.
      * apply elem_of_cons in Hv as [->|Hv].
        -- etransitivity; [apply (Z.le_max_r x)|]. apply Hle. by left.
        -- apply Hle. by right.
Qed.

(** [Series.max()] of an integer column that is not empty is one of its
    cells, and no cell is greater. *)
Lemma series_max_counts (xs : list Z) :
  xs ≠ [] →
  ∃ m, series_max (Counts xs) = Some (SInt m) ∧ m ∈ xs ∧ ∀ v, v ∈ xs → v <= m.
Proof.
  destruct xs as [|x xs]; [done|]. intros _. exists (foldl Z.max x xs).
  split; [done|]. apply foldl_max_spec.
Qed.

(** Lines 39-51 in total mode, on a frame with at least one municipality
    and totals that are not negative: the scale handed to the choropleth is
    built from the largest total, is ascending and not negative, and in
    powers-of-ten mode its last boundary lies beyond every total. *)
Lemma dashboard_scale_total (df : frame) (cm : mapping) (categorie : string)
    (label_classification : classificatie) :
  frame_wf df →
  categorie ∈ cm.*1 →
  count_columns df (selected_columns cm categorie) →
  (0 < nrows df)%nat →
  (∀ i, (i < nrows df)%nat →
        0 <= row_total df (selected_columns cm categorie) i < 2 ^ 63) →
  ∃ m bs,
    dashboard_scale df cm categorie TotaalAantal label_classification = Some bs
    ∧ (∃ i, (i < nrows df)%nat ∧ row_total df (selected_columns cm categorie) i = m)
    ∧ (∀ i, (i < nrows df)%nat → row_total df (selected_columns cm categorie) i <= m)
    ∧ ascending bs ∧ boundaries_nonneg bs
    ∧ (label_classification = MachtenVan10 →
       ∃ b, last bs = Some (SInt b)
            ∧ ∀ i, (i < nrows df)%nat →
                   row_total df (selected_columns cm categorie) i < b).
Proof.
  intros Hwf Hcat Hc Hrows Hrange.
  destruct (sum_selected_exact df _ Hwf (selected_columns_nonempty _ _ Hcat) Hc)
    as (cols & xs & Hget & Hsum & Hlen & Hrow).
  { intros i Hi. specialize (Hrange i Hi). lia. }
  destruct (series_max_counts xs) as (m & Hmax & Hin & Hle).
  { intros ->. cbn in Hlen. lia. }
  apply list_elem_of_lookup in Hin as [i Hi].
  assert (Hi' : (i < nrows df)%nat) by (rewrite <- Hlen; by eapply lookup_lt_Some).
  assert (Hm : row_total df (selected_columns cm categorie) i = m).
  { specialize (Hrow i Hi'). rewrite Hi in Hrow. by injection Hrow. }
  assert (Hupper : ∀ j, (j < nrows df)%nat →
            row_total df (selected_columns cm categorie) j <= m).
  { intros j Hj. apply Hle, list_elem_of_lookup. exists j. by apply Hrow. }
  assert (Hpos : scalar_nonneg (SInt m) ∧ is_number (SInt m)).
  { specialize (Hrange i Hi'). rewrite Hm in Hrange. cbn. lia. }
  destruct Hpos as [Hpos Hnum].
  assert (Hdash : dashboard_scale df cm categorie TotaalAantal label_classification
                  = scale label_classification (SInt m)).
  { unfold dashboard_scale, aggregate. rewrite Hget. cbn [mbind option_bind].
    rewrite Hsum. cbn [mbind option_bind]. unfold getitem, setitem. cbn [columns].
    rewrite lookup_insert_eq. cbn [mbind option_bind]. by rewrite Hmax. }
  destruct (scale_sorted_nonneg label_classification (SInt m) Hpos Hnum)
    as (bs & Hscale & Hasc & Hnn).
  exists m, bs. rewrite Hdash. split; [done|]. split; [by exists i|].
  split; [done|]. split; [done|]. split; [done|].
  intros ->.
  destruct (scale_powers_of_ten_nonneg (SInt m) Hpos)
    as (n & d & _ & _ & _ & _ & _ & Hscale' & Hlt).
  rewrite Hscale' in Hscale. injection Hscale as <-.
  exists (10 ^ Z.of_nat d). split; [apply powers_of_ten_last|].
  intros j Hj. specialize (Hupper j Hj). cbn [scalar_Q] in Hlt.
  rewrite <- Zlt_Qlt in Hlt. lia.
Qed.

(** ** Maxima that are not numbers

    An infinite maximum (a municipality without inhabitants but with
    monuments, in rate mode) is outside the theorems above: the even grid
    starts at NaN, and [int] raises on it in the powers-of-ten mode.  The
    small dataset below has such a municipality. *)
Lemma scale_infinite_maximum :
  scale GelijkeIntervals (SFloat (S754_infinity false))
  = Some (SFloat <$> [S754_nan; S754_infinity false; S754_infinity false;
                      S754_infinity false; S754_infinity false])
  ∧ scale MachtenVan10 (SFloat (S754_infinity false)) = None
  ∧ scale MachtenVan10 (SFloat S754_nan) = None.
Proof. by vm_compute. Qed.

Lemma example_rate_maximum :
  (df' ← aggregate example_df example_cm "religieus" Per100000Inwoners;
   c ← getitem df' metric; series_max c)
  = Some (SFloat (S754_infinity false))
  ∧ dashboard_scale example_df example_cm "religieus" Per100000Inwoners MachtenVan10
    = None.
Proof. by vm_compute. Qed.

(** ** The small dataset, run through the theorems *)

Lemma example_ok :
  frame_wf example_df
  ∧ "religieus"%string ∈ example_cm.*1
  ∧ count_columns example_df (selected_columns example_cm "religieus")
  ∧ columns example_df !! bevolking = Some (Counts [100000; 0; 0; 50000])
  ∧ to_floats (Counts [100000; 0; 0; 50000])
    = Some (F64.of_Z <$> [100000; 0; 0; 50000]).
Proof.
  split; [|split; [|split; [|split]]].
  - unfold frame_wf, example_df. cbn [columns nrows].
    repeat (apply map_Forall_insert_2; [done|]). apply map_Forall_empty.
  - by left.
  - intros name Hin. vm_compute in Hin.
    apply elem_of_cons in Hin as [->|Hin]; [by eexists|].
    apply elem_of_cons in Hin as [->|Hin]; [by eexists|].
    by apply not_elem_of_nil in Hin.
  - done.
  - done.
Defined.

(** C6, as stated, fails on the small dataset: its third municipality has
    no inhabitants and five monuments, its metric in rate mode is plus
    infinity, which is not NaN, and with that maximum the powers-of-ten scale
    is not built: [int] raises. *)
Lemma zero_population_counterexample :
  cell example_df bevolking 2 = 0
  ∧ ¬ (∃ bs, dashboard_scale example_df example_cm "religieus"
               Per100000Inwoners MachtenVan10 = Some bs)
  ∧ ¬ (∀ df' ys,
         aggregate example_df example_cm "religieus" Per100000Inwoners = Some df' →
         columns df' !! metric = Some (Floats ys) →
         ∃ v, ys !! 2%nat = Some v ∧ F64.is_nan v = true).
Proof.
  split; [done|]. split.
  - intros [bs Hbs]. destruct example_rate_maximum as [_ Hnone].
    by rewrite Hnone in Hbs.
  - intros Hnan.
    destruct example_ok as (Hwf & Hcat & Hc & Hpop & Hps).
    destruct (aggregate_rate_cells example_df example_cm "religieus" _ _
                Hwf Hcat Hc Hpop Hps)
      as (df' & ys & Hagg & Hcol & _ & Hcell).
    destruct (Hnan df' ys Hagg Hcol) as (v & Hv & Hisnan).
    rewrite (Hcell 2%nat (F64.of_Z 0) eq_refl) in Hv.
    vm_compute in Hv. injection Hv as <-. done.
Qed.

Lemma aggregate_total_is_row_sum_witness :
  (frame_wf example_df
   ∧ "religieus"%string ∈ example_cm.*1
   ∧ count_columns example_df (selected_columns example_cm "religieus"))
  ∧ ∃ df' xs,
      aggregate example_df example_cm "religieus" TotaalAantal = Some df'
      ∧ columns df' !! metric = Some (Counts xs)
      ∧ xs !! 0%nat = Some (row_total example_df (selected_columns example_cm "religieus") 0).
Proof.
  destruct example_ok as (Hwf & Hcat & Hc & _).
  split; [done|].
  destruct (aggregate_total_is_row_sum example_df example_cm "religieus" Hwf Hcat Hc)
    as (_ & df' & xs & Hagg & Hcol & Hlen & Hrow).
  exists df', xs. split; [done|]. split; [done|].
  destruct (Hrow 0%nat ltac:(cbn; lia)) as [_ Hfit]. apply Hfit. by vm_compute.
Defined.

Lemma aggregate_rate_per_100000_witness :
  (frame_wf example_df
   ∧ "religieus"%string ∈ example_cm.*1
   ∧ count_columns example_df (selected_columns example_cm "religieus")
   ∧ columns example_df !! bevolking = Some (Counts [100000; 0; 0; 50000])
   ∧ to_floats (Counts [100000; 0; 0; 50000]) = Some (F64.of_Z <$> [100000; 0; 0; 50000]))
  ∧ ∃ df' ys,
      aggregate example_df example_cm "religieus" Per100000Inwoners = Some df'
      ∧ columns df' !! metric = Some (Floats ys)
      ∧ ys !! 0%nat = Some (F64.of_Z 5).
Proof.
  split; [exact example_ok|].
  destruct example_ok as (Hwf & Hcat & Hc & Hpop & Hps).
  destruct (aggregate_rate_per_100000 example_df example_cm "religieus" _ _
              Hwf Hcat Hc Hpop Hps)
    as (df' & ys & Hagg & Hcol & Hlen & _ & H5).
  exists df', ys. split; [done|]. split; [done|].
  by apply (H5 0%nat).
Defined.

Lemma zero_population_rate_witness :
  (frame_wf example_df
   ∧ "religieus"%string ∈ example_cm.*1
   ∧ count_columns example_df (selected_columns example_cm "religieus")
   ∧ columns example_df !! bevolking = Some (Counts [100000; 0; 0; 50000])
   ∧ to_floats (Counts [100000; 0; 0; 50000]) = Some (F64.of_Z <$> [100000; 0; 0; 50000]))
  ∧ ∃ df' ys,
      aggregate example_df example_cm "religieus" Per100000Inwoners = Some df'
      ∧ columns df' !! metric = Some (Floats ys)
      ∧ ys !! 1%nat = Some S754_nan
      ∧ ∃ s, ys !! 2%nat = Some (S754_infinity s).
Proof.
  split; [exact example_ok|].
  destruct example_ok as (Hwf & Hcat & Hc & Hpop & Hps).
  destruct (zero_population_rate example_df example_cm "religieus" _ _
              Hwf Hcat Hc Hpop Hps)
    as (df' & ys & Hagg & Hcol & Hzero).
  exists df', ys. split; [done|]. split; [done|].
  destruct (Hzero 1%nat (F64.of_Z 0) eq_refl eq_refl) as (v1 & Hv1 & _ & Hnan & _).
  destruct (Hzero 2%nat (F64.of_Z 0) eq_refl eq_refl) as (v2 & Hv2 & _ & _ & Hinf).
  split.
  - rewrite Hv1. f_equal. by apply Hnan.
  - destruct Hinf as [s ->]; [done|]. by exists s.
Defined.

Lemma aggregate_frame_witness :
  ∃ df',
    aggregate example_df example_cm "religieus" Per100000Inwoners = Some df'
    ∧ nrows df' = nrows example_df
    ∧ ∀ name, name ≠ metric → columns df' !! name = columns example_df !! name.
Proof.
  destruct example_ok as (Hwf & Hcat & Hc & Hpop & Hps).
  destruct (aggregate_rate_cells example_df example_cm "religieus" _ _
              Hwf Hcat Hc Hpop Hps)
    as (df' & ys & Hagg & _).
  exists df'. split; [done|].
  exact (aggregate_frame example_df df' example_cm "religieus" Per100000Inwoners Hagg).
Defined.

Lemma scale_even_intervals_witness :
  is_number (SInt 40)
  ∧ ∃ b1 b2 b3,
      scale GelijkeIntervals (SInt 40)
      = Some (SFloat <$> [F64.zero; b1; b2; b3; F64.of_Z 40])
      ∧ (4 * F2Q b1 == 40)%Q ∧ (4 * F2Q b2 == 80)%Q ∧ (4 * F2Q b3 == 120)%Q.
Proof.
  assert (Hn : is_number (SInt 40)) by (cbn; lia).
  split; [exact Hn|].
  destruct (scale_even_intervals (SInt 40) Hn) as (b1 & b2 & b3 & Hs & _ & Hz & _).
  exists b1, b2, b3. split; [done|].
  destruct (Hz 40 eq_refl ltac:(lia)) as (Q1 & Q2 & Q3 & _). done.
Defined.

Lemma scale_powers_of_ten_witness :
  scalar_positive (SInt 250)
  ∧ scale MachtenVan10 (SInt 250) = Some (SInt <$> [0; 1; 10; 100; 1000]).
Proof.
  assert (Hp : scalar_positive (SInt 250)) by (cbn; lia).
  split; [exact Hp|].
  destruct (scale_powers_of_ten (SInt 250) Hp) as (n & d & _ & _ & _ & _ & _ & H250).
  by apply H250.
Defined.

Lemma scale_ascending_witness :
  (scalar_nonneg (SFloat (F64.of_Z 40)) ∧ is_number (SFloat (F64.of_Z 40)))
  ∧ ∃ bs, scale GelijkeIntervals (SFloat (F64.of_Z 40)) = Some bs
          ∧ ascending bs ∧ boundaries_nonneg bs.
Proof.
  assert (H : scalar_nonneg (SFloat (F64.of_Z 40)) ∧ is_number (SFloat (F64.of_Z 40)))
    by (by vm_compute).
  split; [exact H|]. destruct H as [H1 H2].
  exact (scale_ascending GelijkeIntervals (SFloat (F64.of_Z 40)) H1 H2).
Defined.

Lemma scale_powers_of_ten_covers_witness :
  scalar_nonneg (SInt 250)
  ∧ ∃ (d : nat) bs,
      scale MachtenVan10 (SInt 250) = Some bs
      ∧ last bs = Some (SInt (10 ^ Z.of_nat d))
      ∧ (scalar_Q (SInt 250) < inject_Z (10 ^ Z.of_nat d))%Q.
Proof.
  assert (Hp : scalar_nonneg (SInt 250)) by (cbn; lia).
  split; [exact Hp|].
  destruct (scale_powers_of_ten_covers (SInt 250) Hp)
    as (n & d & bs & _ & _ & _ & Hs & _ & Hlast & Hlt & _).
  by exists d, bs.
Defined.

(** ** The categories of the sidebar *)

Lemma unique_from_elem (seen : gset string) (xs : list string) (x : string) :
  x ∈ unique_from seen xs ↔ x ∈ xs ∧ x ∉ seen.
Proof.
  revert seen. induction xs as [|y xs IH]; intros seen; simpl.
  - split; [by intros ?%not_elem_of_nil|by intros [?%not_elem_of_nil _]].
  - destruct (decide (y ∈ seen)) as [Hy|Hy].
    + rewrite IH, elem_of_cons. split; [intros [? ?]; by split; [right|]|].
      intros [[->|?] ?]; [done|by split].
    + rewrite !elem_of_cons, IH, not_elem_of_union, not_elem_of_singleton. split.
      * intros [->|[? [? ?]]]; [by split; [left|]|]. by split; [right|].
      * intros [[->|?] ?]; [by left|]. destruct (decide (x = y)) as [->|]; [by left|].
        by right.
Qed.

Lemma unique_from_NoDup (seen : gset string) (xs : list string) :
  NoDup (unique_from seen xs).
Proof.
  revert seen. induction xs as [|y xs IH]; intros seen; simpl; [constructor|].
  destruct (decide (y ∈ seen)); [apply IH|].
  constructor; [|apply IH].
  rewrite unique_from_elem, not_elem_of_union, not_elem_of_singleton.
  by intros [_ [? _]].
Qed.

Lemma unique_elem (xs : list string) (x : string) : x ∈ unique xs ↔ x ∈ xs.
Proof.
  unfold unique. rewrite unique_from_elem. split; [by intros [? _]|].
  intros ?. split; [done|apply not_elem_of_empty].
Qed.

Lemma str_le_trans (a b c : string) : str_le a b → str_le b c → str_le a c.
Proof.
  unfold str_le, String.leb. revert b c.
  induction a as [|x a IH]; intros [|y b] [|z c]; simpl; try done.
  unfold Ascii.compare.
  destruct (N.compare_spec (N_of_ascii x) (N_of_ascii y)) as [E1|L1|G1];
    destruct (N.compare_spec (N_of_ascii y) (N_of_ascii z)) as [E2|L2|G2];
    destruct (N.compare_spec (N_of_ascii x) (N_of_ascii z)) as [E3|L3|G3];
    try done; try lia.
  apply IH.
Qed.

#[local] Instance str_le_transitive : Transitive str_le := str_le_trans.
#[local] Instance str_le_total : Total str_le := String.leb_total.
#[local] Instance str_le_antisym : AntiSymm (=) str_le := String.leb_antisym.

(** Sorting gives the one ascending arrangement of the values, whatever
    the algorithm. *)
Lemma np_sort_characterised (xs l : list string) :
  StronglySorted str_le l → l ≡ₚ xs → l = np_sort xs.
Proof.
  intros Hs Hp. apply (StronglySorted_unique str_le); [done| |].
  - apply StronglySorted_merge_sort; apply _.
  - unfold np_sort. by rewrite merge_sort_Permutation.
Qed.

(** X1. The categories offered in the sidebar (line 21) are in ascending
    order, none occurs twice, and they are exactly the categories that occur
    in the mapping table. *)
Theorem main_categories_sorted (cm : mapping) :
  StronglySorted str_le (main_categories cm)
  ∧ NoDup (main_categories cm)
  ∧ ∀ c, c ∈ main_categories cm ↔ c ∈ cm.*1.
Proof.
  unfold main_categories, np_sort. split; [apply StronglySorted_merge_sort; apply _|].
  split.
  - rewrite merge_sort_Permutation. apply unique_from_NoDup.
  - intros c. rewrite merge_sort_Permutation. apply unique_elem.
Qed.

Lemma main_categories_elem (cm : mapping) (c : string) :
  c ∈ main_categories cm ↔ c ∈ cm.*1.
Proof.
  unfold main_categories, np_sort. rewrite merge_sort_Permutation.
  apply unique_elem.
Qed.

Lemma main_categories_NoDup (cm : mapping) : NoDup (main_categories cm).
Proof.
  unfold main_categories, np_sort. rewrite merge_sort_Permutation.
  apply unique_from_NoDup.
Qed.

(** X2. A category is offered in the sidebar exactly when it selects at least
    one column of the mapping table. *)
Theorem main_categories_select (cm : mapping) (c : string) :
  c ∈ main_categories cm ↔ selected_columns cm c ≠ [].
Proof.
  rewrite main_categories_elem. split; [apply selected_columns_nonempty|].
  intros Hne. destruct (selected_columns cm c) as [|name l] eqn:E; [done|].
  assert (Hin : name ∈ selected_columns cm c) by (rewrite E; by left).
  apply selected_columns_spec in Hin. apply list_elem_of_fmap. by exists (c, name).
Qed.

Lemma selected_columns_cons (r : string * string) (cm : mapping) (c : string) :
  selected_columns (r :: cm) c
  = if decide (r.1 = c) then r.2 :: selected_columns cm c else selected_columns cm c.
Proof.
  unfold selected_columns. cbn [filter list_filter].
  by destruct (decide (r.1 = c)).
Qed.

Lemma selections_cons_out (r : string * string) (cm : mapping) (cats : list string) :
  r.1 ∉ cats →
  mjoin (selected_columns (r :: cm) <$> cats) = mjoin (selected_columns cm <$> cats).
Proof.
  induction cats as [|c cats IH]; [done|]. intros Hnot.
  apply not_elem_of_cons in Hnot as [Hne Hnot]. cbn [fmap list_fmap mjoin list_join].
  rewrite selected_columns_cons. destruct (decide (r.1 = c)); [done|].
  f_equal. by apply IH.
Qed.

Lemma selections_cons_in (r : string * string) (cm : mapping) (cats : list string) :
  NoDup cats → r.1 ∈ cats →
  mjoin (selected_columns (r :: cm) <$> cats)
  ≡ₚ r.2 :: mjoin (selected_columns cm <$> cats).
Proof.
  induction 1 as [|c cats Hc Hnd IH]; [by intros ?%not_elem_of_nil|].
  intros Hin. cbn [fmap list_fmap mjoin list_join]. rewrite selected_columns_cons.
  destruct (decide (r.1 = c)) as [E|E].
  - subst c. by rewrite selections_cons_out.
  - apply elem_of_cons in Hin as [?|Hin]; [done|].
    change (list_fmap _ _ ?f cats) with (f <$> cats).
    rewrite (IH Hin). by rewrite Permutation_middle.
Qed.

Lemma selections_partition (cm : mapping) (cats : list string) :
  NoDup cats → (∀ c, c ∈ cm.*1 → c ∈ cats) →
  mjoin (selected_columns cm <$> cats) ≡ₚ cm.*2.
Proof.
  intros Hnd. induction cm as [|r cm IH]; intros Hall.
  - clear. induction cats as [|c cats IH]; [done|]. done.
  - rewrite selections_cons_in; [|done|apply Hall; by left].
    rewrite fmap_cons. f_equal. constructor. apply IH. intros c Hc. apply Hall. by right.
Qed.

(** X3. The selections of the offered categories share out the mapping
    table: taken together they hold every row's column once. *)
Theorem main_categories_partition (cm : mapping) :
  mjoin (selected_columns cm <$> main_categories cm) ≡ₚ cm.*2.
Proof.
  apply selections_partition; [apply main_categories_NoDup|].
  intros c. by rewrite main_categories_elem.
Qed.

(** ** Keys that are missing *)

Lemma getitem_list_missing (df : frame) (labels : list string) (name : string) :
  name ∈ labels → columns df !! name = None → getitem_list df labels = None.
Proof.
  intros Hin Hnone. apply mapM_None, Exists_exists. by exists name.
Qed.

(** X4. A selected column that the frame does not have is a KeyError, in
    either mode: no metric is computed from the columns that are there. *)
Theorem aggregate_missing_column (df : frame) (cm : mapping) (categorie name : string)
    (function : berekening) :
  (categorie, name) ∈ cm → columns df !! name = None →
  aggregate df cm categorie function = None.
Proof.
  intros Hin Hnone. unfold aggregate.
  rewrite (getitem_list_missing df _ name); [done| |done].
  by apply selected_columns_spec.
Qed.

(** X5. The rate needs the population column: without it, or with a
    population column that holds no numbers, the rate mode raises, whatever
    the category. *)
Theorem aggregate_rate_needs_population (df : frame) (cm : mapping) (categorie : string) :
  columns df !! bevolking = None ∨ (∃ ls, columns df !! bevolking = Some (Labels ls)) →
  aggregate df cm categorie Per100000Inwoners = None.
Proof.
  intros Hpop. unfold aggregate.
  destruct (getitem_list df _) as [cols|]; [|done]. cbn [mbind option_bind].
  destruct (sum_axis1 _ _) as [total|]; [|done]. cbn [mbind option_bind].
  unfold getitem, setitem. cbn [columns].
  rewrite lookup_insert_eq. cbn [mbind option_bind].
  rewrite lookup_insert_ne by apply metric_ne_bevolking.
  destruct Hpop as [-> | [ls ->]]; [done|]. cbn [mbind option_bind].
  unfold per_100000. by destruct (to_floats total).
Qed.

(** ** The metric column *)

Lemma foldr_zip_nil (xss : list (list Z)) : foldr (zip_with add64) [] xss = [].
Proof.
  induction xss as [|xs xss IH]; [done|]. simpl. rewrite IH. apply zip_with_nil_r.
Qed.

Lemma sum_axis1_length (df : frame) (labels : list string) (cols : list column)
    (total : column) :
  frame_wf df → getitem_list df labels = Some cols →
  sum_axis1 (nrows df) cols = Some total →
  column_length total = nrows df.
Proof.
  intros Hwf Hget Hsum. apply mapM_Some_1 in Hget.
  assert (Hcols : Forall (λ c, column_length c = nrows df) cols).
  { clear Hsum. induction Hget as [|l c ls cs Hl _ IH]; constructor; [|done].
    by apply (Hwf l). }
  clear Hget. unfold sum_axis1 in Hsum. destruct cols as [|c cols].
  { injection Hsum as <-. cbn. by rewrite length_replicate. }
  destruct (mapM counts_of (c :: cols)) as [xss|] eqn:E; [|done].
  injection Hsum as <-. cbn [column_length]. apply foldr_zip_length.
  apply mapM_Some_1 in E. revert Hcols E. generalize (c :: cols). clear c cols.
  intros cols Hcols E. revert Hcols. induction E as [|c xs cs xss Hc _ IH]; intros Hcols; [constructor|].
  apply Forall_cons in Hcols as [Hlen Hcols]. constructor; [|by apply IH].
  destruct c; try done. injection Hc as <-. done.
Qed.

Lemma per_100000_length (a b rate : column) (n : nat) :
  column_length a = n → column_length b = n → per_100000 a b = Some rate →
  column_length rate = n.
Proof.
  unfold per_100000. intros Ha Hb Hr.
  destruct (to_floats a) as [xs|] eqn:Ea; [|done].
  destruct (to_floats b) as [ys|] eqn:Eb; [|done].
  injection Hr as <-. cbn. rewrite length_fmap, length_zip_with.
  pose proof (to_floats_length a xs Ea). pose proof (to_floats_length b ys Eb). lia.
Qed.

(** X6. The aggregator keeps the frame well formed: when it returns, in
    either mode, the frame has the rows it had, the metric column is there
    with one cell per municipality, and so has every other column. *)
Theorem aggregate_wf (df df' : frame) (cm : mapping) (categorie : string)
    (function : berekening) :
  frame_wf df → aggregate df cm categorie function = Some df' →
  frame_wf df' ∧ nrows df' = nrows df
  ∧ ∃ c, columns df' !! metric = Some c ∧ column_length c = nrows df.
Proof.
  intros Hwf. unfold aggregate.
  destruct (getitem_list df _) as [cols|] eqn:Hget; [|done]. cbn [mbind option_bind].
  destruct (sum_axis1 _ _) as [total|] eqn:Hsum; [|done]. cbn [mbind option_bind].
  pose proof (sum_axis1_length df _ cols total Hwf Hget Hsum) as Hlen.
  assert (Hwf1 : ∀ c, column_length c = nrows df → frame_wf (setitem df metric c)).
  { intros c Hc name c' Hl. unfold setitem in Hl. cbn [columns nrows] in *.
    destruct (decide (name = metric)) as [->|Hne].
    - rewrite lookup_insert_eq in Hl. by injection Hl as <-.
    - rewrite lookup_insert_ne in Hl by done. by apply (Hwf name). }
  destruct function.
  - intros [= <-]. split; [by apply Hwf1|]. split; [done|].
    exists total. split; [|done]. unfold setitem. cbn [columns]. by rewrite lookup_insert_eq.
  - unfold getitem, setitem. cbn [columns nrows].
    rewrite lookup_insert_eq. cbn [mbind option_bind].
    rewrite lookup_insert_ne by apply metric_ne_bevolking.
    destruct (columns df !! bevolking) as [b|] eqn:Hb; [|done]. cbn [mbind option_bind].
    destruct (per_100000 total b) as [rate|] eqn:Hrate; [|done]. cbn [mbind option_bind].
    intros [= <-]. rewrite insert_insert_eq.
    assert (Hr : column_length rate = nrows df).
    { apply (per_100000_length total b); [done| |done]. by apply (Hwf bevolking). }
    split; [exact (Hwf1 rate Hr)|]. split; [done|].
    exists rate. split; [|done]. cbn [columns]. by rewrite lookup_insert_eq.
Qed.

Lemma getitem_list_setitem (df : frame) (name : string) (c : column) (labels : list string) :
  name ∉ labels → getitem_list (setitem df name c) labels = getitem_list df labels.
Proof.
  intros Hnot. unfold getitem_list. induction labels as [|l ls IH]; [done|].
  apply not_elem_of_cons in Hnot as [Hne Hnot].
  cbn [mapM]. rewrite (IH Hnot).
  assert (E : getitem (setitem df name c) l = getitem df l).
  { unfold getitem, setitem. cbn [columns]. by rewrite lookup_insert_ne. }
  by rewrite E.
Qed.

(** X7. The metric column is written, never read: a column of that name that
    the loaded frame already has makes no difference to the result, as long
    as the mapping table does not select it. *)
Theorem aggregate_overwrites (df : frame) (cm : mapping) (categorie : string)
    (function : berekening) (c : column) :
  metric ∉ selected_columns cm categorie →
  aggregate (setitem df metric c) cm categorie function
  = aggregate df cm categorie function.
Proof.
  intros Hnot. unfold aggregate. rewrite (getitem_list_setitem df metric c _ Hnot).
  destruct (getitem_list df _) as [cols|]; [|done]. cbn [mbind option_bind].
  change (nrows (setitem df metric c)) with (nrows df).
  destruct (sum_axis1 _ _) as [total|]; [|done]. cbn [mbind option_bind].
  assert (E : setitem (setitem df metric c) metric total = setitem df metric total).
  { unfold setitem. cbn [columns nrows]. by rewrite insert_insert_eq. }
  by rewrite E.
Qed.

(** ** Frames and tables with nothing in them *)

Lemma sum_axis1_no_rows (cols : list column) (total : column) :
  sum_axis1 0 cols = Some total → total = Counts [] ∨ total = Floats [].
Proof.
  unfold sum_axis1. destruct cols as [|c cols]; [intros [= <-]; by right|].
  destruct (mapM counts_of (c :: cols)) as [xss|]; [|done].
  intros [= <-]. left. f_equal. apply foldr_zip_nil.
Qed.

Lemma metric_no_rows (df df' : frame) (cm : mapping) (categorie : string)
    (function : berekening) :
  nrows df = 0%nat → aggregate df cm categorie function = Some df' →
  getitem df' metric = Some (Counts []) ∨ getitem df' metric = Some (Floats []).
Proof.
  intros Hn. unfold aggregate.
  destruct (getitem_list df _) as [cols|]; [|done]. cbn [mbind option_bind].
  rewrite Hn. destruct (sum_axis1 0 cols) as [total|] eqn:Hsum; [|done].
  cbn [mbind option_bind]. apply sum_axis1_no_rows in Hsum.
  unfold getitem, setitem. cbn [columns nrows]. destruct function.
  - intros [= <-]. cbn [columns]. rewrite lookup_insert_eq.
    destruct Hsum as [-> | ->]; [by left|by right].
  - rewrite lookup_insert_eq. cbn [mbind option_bind].
    destruct (_ !! bevolking) as [b|]; [|done]. cbn [mbind option_bind].
    intros Hagg. right.
    assert (Hr : per_100000 total b = Some (Floats []) ∨ per_100000 total b = None).
    { unfold per_100000. destruct Hsum as [-> | ->]; cbn;
        destruct (to_floats b); cbn; auto. }
    destruct Hr as [Hr|Hr]; rewrite Hr in Hagg; [|done]. cbn in Hagg.
    injection Hagg as <-. cbn [columns]. by rewrite lookup_insert_eq.
Qed.

(** X8. A frame without municipalities has no maximum: its metric column is
    empty, the maximum of it is NaN, and in powers-of-ten mode the scale is
    not built ([int] raises on NaN), in either calculation mode; with even
    intervals the scale, if the aggregator returns, is five times NaN. *)
Theorem dashboard_scale_no_rows (df : frame) (cm : mapping) (categorie : string)
    (function : berekening) :
  nrows df = 0%nat →
  dashboard_scale df cm categorie function MachtenVan10 = None
  ∧ ∀ bs, dashboard_scale df cm categorie function GelijkeIntervals = Some bs →
          bs = SFloat <$> replicate 5 S754_nan.
Proof.
  intros Hn. unfold dashboard_scale.
  destruct (aggregate df cm categorie function) as [df'|] eqn:Hagg; [|done].
  cbn [mbind option_bind].
  destruct (metric_no_rows df df' cm categorie function Hn Hagg) as [-> | ->];
    cbn [mbind option_bind series_max filter list_filter].
  - split; [done|]. intros bs [= <-]. by vm_compute.
  - split; [done|]. intros bs [= <-]. by vm_compute.
Qed.

Lemma selected_columns_unknown (cm : mapping) (categorie : string) :
  categorie ∉ cm.*1 → selected_columns cm categorie = [].
Proof.
  intros Hnot. destruct (selected_columns cm categorie) as [|name l] eqn:E; [done|].
  exfalso. apply Hnot. apply list_elem_of_fmap. exists (categorie, name).
  split; [done|]. apply selected_columns_spec. rewrite E. by left.
Qed.

Lemma series_max_zeros (n : nat) :
  (0 < n)%nat → series_max (Floats (replicate n F64.zero)) = Some (SFloat F64.zero).
Proof.
  destruct n as [|n]; [lia|]. intros _. cbn [replicate series_max].
  cbn [filter list_filter]. cbn. f_equal. f_equal.
  induction n as [|n IH]; [done|]. cbn [replicate filter list_filter]. cbn. exact IH.
Qed.

(** X9. A category that the mapping table does not have selects no column
    and is no KeyError:
    the metric is 0.0 for every municipality, and the scale of a frame with
    at least one municipality is [0, 1, 10] in powers-of-ten mode and five
    times 0.0 with even intervals. *)
Theorem aggregate_unknown_category (df : frame) (cm : mapping) (categorie : string) :
  categorie ∉ cm.*1 →
  aggregate df cm categorie TotaalAantal
  = Some (setitem df metric (Floats (replicate (nrows df) F64.zero)))
  ∧ ((0 < nrows df)%nat →
     dashboard_scale df cm categorie TotaalAantal MachtenVan10
     = Some (SInt <$> [0; 1; 10])
     ∧ dashboard_scale df cm categorie TotaalAantal GelijkeIntervals
       = Some (SFloat <$> replicate 5 F64.zero)).
Proof.
  intros Hnot.
  assert (Hagg : aggregate df cm categorie TotaalAantal
                 = Some (setitem df metric (Floats (replicate (nrows df) F64.zero)))).
  { unfold aggregate. by rewrite (selected_columns_unknown cm categorie Hnot). }
  split; [done|]. intros Hrows. unfold dashboard_scale. rewrite Hagg.
  cbn [mbind option_bind]. unfold getitem, setitem. cbn [columns].
  rewrite lookup_insert_eq. cbn [mbind option_bind].
  rewrite (series_max_zeros _ Hrows). cbn [mbind option_bind]. by vm_compute.
Qed.

(** ** When the scale is built *)

Lemma trunc_opp (x : spec_float) :
  Round.trunc (SFopp x) = Z.opp <$> Round.trunc x.
Proof.
  destruct x as [s|s| |s m e]; try done. cbn. f_equal. by destruct s; cbn; lia.
Qed.

Lemma binary_normalize_opp (n : Z) (s : bool) :
  binary_normalize F64.prec F64.emax (- n) 0 (negb s)
  = SFopp (binary_normalize F64.prec F64.emax n 0 s).
Proof.
  destruct n as [|p|p]; [done| |].
  - change (- Zpos p) with (Zneg p). unfold binary_normalize, binary_round.
    destruct (shl_align _ _ _) as [mz ez]. apply (SignFacts.binary_round_aux_opp false).
  - change (- Zneg p) with (Zpos p). unfold binary_normalize, binary_round.
    destruct (shl_align _ _ _) as [mz ez]. apply (SignFacts.binary_round_aux_opp true).
Qed.

Lemma rint_opp (x : spec_float) : Round.rint (SFopp x) = SFopp (Round.rint x).
Proof.
  destruct x as [s|s| |s m e]; try done. cbn [SFopp Round.rint].
  destruct (0 <=? e); [done|].
  destruct (shr _ _ _) as [mrs e'].
  destruct s; cbn [negb cond_Zopp].
  - rewrite <- (Z.opp_involutive (round_nearest_even _ _)) at 1.
    by rewrite <- (binary_normalize_opp _ true).
  - apply (binary_normalize_opp _ false).
Qed.

(** [int(np.round(x, 0))] is defined for every finite float64. *)
Lemma py_int_round_finite (f : spec_float) :
  F64.is_finite f = true → F64.valid f = true →
  ∃ n, py_int (np_round (SFloat f)) = Some n.
Proof.
  intros Hf Hv. destruct f as [s|s| |s m e]; try done; [by exists 0|].
  cbn [np_round py_int]. destruct s.
  - destruct (RintFacts.rint_trunc_pos m e Hv) as (n & Hn & _).
    exists (- n). change (S754_finite true m e) with (SFopp (S754_finite false m e)).
    by rewrite rint_opp, trunc_opp, Hn.
  - destruct (RintFacts.rint_trunc_pos m e Hv) as (n & Hn & _). by exists n.
Qed.

(** X10. The scale builder raises in one case only: in powers-of-ten mode, on
    a maximum that is an infinity or NaN.  With even intervals it always
    returns, but on such a maximum its first boundary is NaN, not 0. *)
Theorem scale_raises (label_classification : classificatie) (m : scalar) :
  (∀ f, m = SFloat f → F64.valid f = true) →
  (scale label_classification m = None
   ↔ label_classification = MachtenVan10
     ∧ ∃ f, m = SFloat f ∧ F64.is_finite f = false)
  ∧ (∀ f, m = SFloat f → F64.is_finite f = false →
       ∃ bs, scale GelijkeIntervals m = Some (SFloat S754_nan :: bs)).
Proof.
  intros Hv. split.
  - destruct label_classification; cbn [scale].
    { split; [done|]. by intros [? _]. }
    destruct m as [z|f].
    { cbn. split; [done|]. by intros [_ (f & ? & _)]. }
    destruct (F64.is_finite f) eqn:Hf.
    + destruct (py_int_round_finite f Hf (Hv f eq_refl)) as [n Hn].
      unfold n_digits. rewrite Hn. cbn. split; [done|].
      intros [_ (f' & [= <-] & Hf')]. congruence.
    + split; [|by destruct f as [s|[]| |s mm e]].
      intros _. split; [done|]. by exists f.
  - intros f -> Hf. destruct f as [s|[]| |s mm e]; try done; eexists; by vm_compute.
Qed.

(** ** The shape of the powers-of-ten scale *)

Lemma str_digits_grows (fuel : nat) (n : Z) (acc : string) :
  (String.length acc <= String.length (str_digits fuel n acc))%nat.
Proof.
  revert n acc. induction fuel as [|fuel IH]; intros n acc; [done|].
  cbn [str_digits]. destruct (n <? 10); [cbn; lia|].
  etrans; [|apply IH]. cbn. lia.
Qed.

Lemma py_str_nonempty (n : Z) : (1 <= String.length (py_str n))%nat.
Proof.
  assert (H : ∀ k, (1 <= String.length (str_nonneg k))%nat).
  { intros k. unfold str_nonneg. cbn [str_digits]. destruct (k <? 10); [cbn; lia|].
    etrans; [|apply str_digits_grows]. cbn. lia. }
  unfold py_str. destruct (n <? 0); [cbn; lia|apply H].
Qed.

Lemma powers_of_ten_strict (k n : nat) :
  StronglySorted (λ a b, (scalar_Q a < scalar_Q b)%Q)
    (SInt <$> ((λ i, 10 ^ Z.of_nat i) <$> seq k n)).
Proof.
  revert k. induction n as [|n IH]; intros k; [constructor|].
  cbn [seq fmap list_fmap]. constructor; [apply IH|].
  apply Forall_fmap, Forall_fmap, Forall_forall. intros i Hi. cbn.
  apply list_elem_of_In, in_seq in Hi. rewrite <- Zlt_Qlt.
  apply Z.pow_lt_mono_r; lia.
Qed.

(** X11. A powers-of-ten scale, whenever it is built, begins 0, 1, 10, has two
    boundaries more than the rounded maximum has characters, and is strictly
    increasing: no bucket is empty of width. *)
Theorem scale_powers_of_ten_strict (m : scalar) (bs : list scalar) :
  scale MachtenVan10 m = Some bs →
  ∃ d rest,
    n_digits m = Some d
    ∧ length bs = (d + 2)%nat
    ∧ bs = SInt 0 :: SInt 1 :: SInt 10 :: rest
    ∧ StronglySorted (λ a b, (scalar_Q a < scalar_Q b)%Q) bs.
Proof.
  cbn [scale]. destruct (n_digits m) as [d|] eqn:Hd; [|done].
  cbn [mbind option_bind]. intros [= <-].
  assert (Hd1 : (1 <= d)%nat).
  { unfold n_digits in Hd. destruct (py_int (np_round m)) as [z|]; [|done].
    cbn in Hd. injection Hd as <-. apply py_str_nonempty. }
  destruct d as [|d]; [lia|].
  exists (S d), (SInt <$> ((λ i, 10 ^ Z.of_nat i) <$> seq 2 d)).
  split; [done|]. split.
  { unfold powers_of_ten. cbn [length].
    change (list_fmap Z scalar SInt ?l) with (SInt <$> l).
    rewrite !length_fmap, length_seq. lia. }
  split.
  { unfold powers_of_ten. rewrite Nat.add_1_r. done. }
  unfold powers_of_ten. change (list_fmap Z scalar SInt ?l) with (SInt <$> l).
  constructor; [apply powers_of_ten_strict|].
  apply Forall_fmap, Forall_fmap, Forall_forall. intros i _. cbn.
  rewrite <- (Zlt_Qlt 0). apply Z.pow_pos_nonneg; lia.
Qed.

(** X12. The characters of the rounded maximum are counted, not its digits:
    when it is negative the minus sign counts as one, and the scale has one
    power of ten more than the number has digits. *)
Theorem n_digits_counts_sign (m : scalar) (n : Z) :
  py_int (np_round m) = Some n → n < 0 →
  ∃ d, is_digit_count (- n) d
       ∧ n_digits m = Some (S d)
       ∧ scale MachtenVan10 m = Some (SInt <$> 0 :: powers_of_ten (d + 2)).
Proof.
  intros Hn Hneg.
  destruct (str_digits_length (S (Z.to_nat (Z.log2 (- n)))) (- n) EmptyString)
    as (d & Hlen & Hd); [lia| |].
  { pose proof (Z.log2_nonneg (- n)). lia. }
  assert (Hdig : n_digits m = Some (S d)).
  { unfold n_digits. rewrite Hn. cbn [mbind option_bind]. unfold py_str.
    replace (n <? 0) with true by (symmetry; by apply Z.ltb_lt).
    cbn [String.length]. unfold str_nonneg. rewrite Hlen. cbn. f_equal. lia. }
  exists d. split; [done|]. split; [done|].
  cbn [scale]. rewrite Hdig. cbn [mbind option_bind].
  by replace (S d + 1)%nat with (d + 2)%nat by lia.
Qed.

Lemma is_digit_count_mono (n n' : Z) (d d' : nat) :
  is_digit_count n d → is_digit_count n' d' → n <= n' → (d <= d')%nat.
Proof.
  intros [[-> ->]|[Hn [Hlo _]]] [[-> ->]|[Hn' [_ Hhi']]] Hle; try lia.
  - destruct d'; [|lia]. simpl in Hhi'. lia.
  - destruct (le_lt_dec d d') as [|Hlt]; [done|exfalso].
    assert (10 ^ Z.of_nat d' <= 10 ^ (Z.of_nat d - 1)) by (apply Z.pow_le_mono_r; lia).
    lia.
Qed.

Lemma powers_of_ten_prefix (a b : nat) :
  (a <= b)%nat → powers_of_ten a `prefix_of` powers_of_ten b.
Proof.
  intros Hab. unfold powers_of_ten.
  replace b with (a + (b - a))%nat by lia. rewrite seq_app, fmap_app.
  by apply prefix_app_r.
Qed.

(** X13. In total mode the scale only grows with the maximum: the
    powers-of-ten scale of a count is the beginning of the scale of every
    larger count, so a boundary never moves. *)
Theorem scale_powers_of_ten_prefix (z z' : Z) :
  0 <= z <= z' →
  ∃ bs bs', scale MachtenVan10 (SInt z) = Some bs
            ∧ scale MachtenVan10 (SInt z') = Some bs'
            ∧ bs `prefix_of` bs'.
Proof.
  intros [Hz Hle].
  destruct (n_digits_spec (SInt z) z eq_refl Hz) as (d & Hd & Hc).
  destruct (n_digits_spec (SInt z') z' eq_refl ltac:(lia)) as (d' & Hd' & Hc').
  pose proof (is_digit_count_mono z z' d d' Hc Hc' Hle) as Hdd.
  eexists _, _. cbn [scale]. rewrite Hd, Hd'. cbn [mbind option_bind].
  split; [done|]. split; [done|].
  destruct (powers_of_ten_prefix (d + 1) (d' + 1) ltac:(lia)) as [k ->].
  exists (SInt <$> k). by rewrite fmap_cons, fmap_app.
Qed.

(** ** The small dataset, run through the edge cases *)

Lemma aggregate_missing_column_witness :
  (("religieus", "toren")%string ∈ (("religieus", "toren")%string :: example_cm)
   ∧ columns example_df !! "toren"%string = None)
  ∧ aggregate example_df (("religieus", "toren")%string :: example_cm) "religieus"
      TotaalAantal = None.
Proof.
  assert (H : ("religieus", "toren")%string ∈ (("religieus", "toren")%string :: example_cm)
              ∧ columns example_df !! "toren"%string = None).
  { split; [by left|done]. }
  split; [exact H|]. destruct H as [H1 H2].
  exact (aggregate_missing_column example_df _ "religieus" "toren" TotaalAantal H1 H2).
Defined.

Lemma aggregate_rate_needs_population_witness :
  (columns example_no_population !! bevolking = None
   ∨ ∃ ls, columns example_no_population !! bevolking = Some (Labels ls))
  ∧ aggregate example_no_population example_cm "religieus" Per100000Inwoners = None
  ∧ aggregate example_no_population example_cm "religieus" TotaalAantal
    = Some (setitem example_no_population metric (Counts [4])).
Proof.
  assert (H : columns example_no_population !! bevolking = None
              ∨ ∃ ls, columns example_no_population !! bevolking = Some (Labels ls)).
  { by left. }
  split; [exact H|]. split.
  - exact (aggregate_rate_needs_population example_no_population example_cm "religieus" H).
  - by vm_compute.
Defined.

Lemma aggregate_wf_witness :
  frame_wf example_df
  ∧ ∃ df', aggregate example_df example_cm "religieus" Per100000Inwoners = Some df'
           ∧ frame_wf df' ∧ nrows df' = 4%nat
           ∧ ∃ c, columns df' !! metric = Some c ∧ column_length c = 4%nat.
Proof.
  destruct example_ok as (Hwf & Hcat & Hc & Hpop & Hps).
  split; [exact Hwf|].
  destruct (aggregate_rate_cells example_df example_cm "religieus" _ _
              Hwf Hcat Hc Hpop Hps)
    as (df' & ys & Hagg & _).
  exists df'. split; [done|].
  exact (aggregate_wf example_df df' example_cm "religieus" Per100000Inwoners Hwf Hagg).
Defined.

Lemma aggregate_overwrites_witness :
  (metric ∉ selected_columns example_cm "religieus")
  ∧ aggregate (setitem example_df metric (Counts [9; 9; 9; 9])) example_cm "religieus"
      TotaalAantal
    = aggregate example_df example_cm "religieus" TotaalAantal.
Proof.
  assert (H : metric ∉ selected_columns example_cm "religieus").
  { vm_compute. intros H. apply elem_of_cons in H as [H|H]; [done|].
    apply elem_of_cons in H as [H|H]; [done|]. by apply not_elem_of_nil in H. }
  split; [exact H|].
  exact (aggregate_overwrites example_df example_cm "religieus" TotaalAantal _ H).
Defined.

Lemma dashboard_scale_no_rows_witness :
  nrows example_no_rows = 0%nat
  ∧ aggregate example_no_rows example_cm "religieus" Per100000Inwoners
    = Some (setitem example_no_rows metric (Floats []))
  ∧ dashboard_scale example_no_rows example_cm "religieus" Per100000Inwoners MachtenVan10
    = None
  ∧ ∃ bs, dashboard_scale example_no_rows example_cm "religieus" Per100000Inwoners
            GelijkeIntervals = Some bs
          ∧ bs = SFloat <$> replicate 5 S754_nan.
Proof.
  assert (Hn : nrows example_no_rows = 0%nat) by reflexivity.
  destruct (dashboard_scale_no_rows example_no_rows example_cm "religieus"
              Per100000Inwoners Hn) as [Hpow Heven].
  split; [exact Hn|]. split; [by vm_compute|]. split; [exact Hpow|].
  destruct (dashboard_scale example_no_rows example_cm "religieus" Per100000Inwoners
              GelijkeIntervals) as [bs|] eqn:E; [|by vm_compute in E].
  exists bs. split; [reflexivity|]. by apply Heven.
Defined.

Lemma aggregate_unknown_category_witness :
  ("kastelen"%string ∉ example_cm.*1)
  ∧ dashboard_scale example_df example_cm "kastelen" TotaalAantal MachtenVan10
    = Some (SInt <$> [0; 1; 10]).
Proof.
  assert (H : "kastelen"%string ∉ example_cm.*1).
  { vm_compute. intros H. apply elem_of_cons in H as [H|H]; [done|].
    apply elem_of_cons in H as [H|H]; [done|].
    apply elem_of_cons in H as [H|H]; [done|]. by apply not_elem_of_nil in H. }
  split; [exact H|].
  destruct (aggregate_unknown_category example_df example_cm "kastelen" H) as [_ Hs].
  apply Hs. cbn. lia.
Defined.

Lemma scale_raises_witness :
  (∀ f, SFloat (S754_infinity false) = SFloat f → F64.valid f = true)
  ∧ scale MachtenVan10 (SFloat (S754_infinity false)) = None.
Proof.
  assert (H : ∀ f, SFloat (S754_infinity false) = SFloat f → F64.valid f = true).
  { by intros f [= <-]. }
  split; [exact H|].
  destruct (scale_raises MachtenVan10 (SFloat (S754_infinity false)) H) as [Hiff _].
  apply Hiff. split; [done|]. by exists (S754_infinity false).
Defined.

Lemma scale_powers_of_ten_strict_witness :
  scale MachtenVan10 (SInt 250) = Some (SInt <$> [0; 1; 10; 100; 1000])
  ∧ ∃ d rest,
      n_digits (SInt 250) = Some d
      ∧ length (SInt <$> [0; 1; 10; 100; 1000]) = (d + 2)%nat
      ∧ SInt <$> [0; 1; 10; 100; 1000] = SInt 0 :: SInt 1 :: SInt 10 :: rest
      ∧ StronglySorted (λ a b, (scalar_Q a < scalar_Q b)%Q) (SInt <$> [0; 1; 10; 100; 1000]).
Proof.
  assert (H : scale MachtenVan10 (SInt 250) = Some (SInt <$> [0; 1; 10; 100; 1000]))
    by (by vm_compute).
  split; [exact H|].
  exact (scale_powers_of_ten_strict (SInt 250) _ H).
Defined.

Lemma n_digits_counts_sign_witness :
  (py_int (np_round (SInt (-5))) = Some (-5) ∧ -5 < 0)
  ∧ ∃ d, is_digit_count (- -5) d
         ∧ n_digits (SInt (-5)) = Some (S d)
         ∧ scale MachtenVan10 (SInt (-5)) = Some (SInt <$> 0 :: powers_of_ten (d + 2)).
Proof.
  assert (H : py_int (np_round (SInt (-5))) = Some (-5) ∧ -5 < 0) by (split; [done|lia]).
  split; [exact H|]. destruct H as [H1 H2].
  exact (n_digits_counts_sign (SInt (-5)) (-5) H1 H2).
Defined.

Lemma scale_powers_of_ten_prefix_witness :
  0 <= 7 <= 250
  ∧ ∃ bs bs', scale MachtenVan10 (SInt 7) = Some bs
              ∧ scale MachtenVan10 (SInt 250) = Some bs'
              ∧ bs `prefix_of` bs'.
Proof.
  assert (H : 0 <= 7 <= 250) by lia.
  split; [exact H|].
  exact (scale_powers_of_ten_prefix 7 250 H).
Defined.

(** ** binary64: results that stay finite *)

Module FiniteFacts.
Import F64 F64Facts RoundFacts RintFacts BraFacts ScaledFacts MulFacts.

(** Rounding a positive mantissa that has at least the digits of its
    format, whatever lies below it: unless the number is too large, the
    result is a float64 with the sign asked, zero or finite, and of at most
    one binary digit more. *)
Lemma binary_round_aux_valid (sx : bool) (mx ex : Z) (lx : location) :
  0 < mx →
  ex <= fexp prec emax (Zdigits2 mx + ex) →
  Zdigits2 mx + ex <= 1023 →
  (binary_round_aux prec emax sx mx ex lx = S754_zero sx
   ∧ Zdigits2 mx + ex <= -1074)
  ∨ ∃ m e, binary_round_aux prec emax sx mx ex lx = S754_finite sx m e
           ∧ valid (S754_finite sx m e) = true
           ∧ Zdigits2 mx + ex <= Zpos (digits2_pos m) + e
             <= Z.max (Zdigits2 mx + ex) (-1074) + 1
           ∧ fexp prec emax (Zdigits2 mx + ex) <= e
           ∧ mx / 2 ^ (fexp prec emax (Zdigits2 mx + ex) - ex)
             <= Zpos m * 2 ^ (e - fexp prec emax (Zdigits2 mx + ex))
             <= mx / 2 ^ (fexp prec emax (Zdigits2 mx + ex) - ex) + 1.
Proof.
  intros Hmx Hsh Hmag.
  set (e1 := fexp prec emax (Zdigits2 mx + ex)) in *.
  unfold binary_round_aux, shr_fexp. fold e1.
  destruct (shr (shr_record_of_loc mx lx) ex (e1 - ex)) as [mrs e1'] eqn:E1.
  pose proof (shr_spec (shr_record_of_loc mx lx) ex (e1 - ex)) as [Hm1 He1'].
  { rewrite shr_record_of_loc_m. lia. }
  rewrite E1, shr_record_of_loc_m in *. cbn [fst snd] in Hm1, He1'.
  rewrite Z.max_r in Hm1, He1' by lia. replace (ex + (e1 - ex)) with e1 in He1' by lia.
  subst e1'.
  set (r := round_nearest_even (shr_m mrs) (loc_of_shr_record mrs)).
  pose proof (rne_bounds (shr_m mrs) (loc_of_shr_record mrs)) as Hfl. fold r in Hfl.
  rewrite Hm1 in Hfl.
  pose proof (Zdigits2_bounds mx Hmx) as Hdx.
  assert (Hd1 : 1 <= Zdigits2 mx).
  { rewrite Zdigits2_pos by done. pose proof (Z.log2_nonneg mx). lia. }
  assert (He1 : -1074 <= e1 <= 970) by (unfold e1, fexp, emin, prec, emax; lia).
  assert (Hrange : 0 <= r <= 2 ^ 53
                   ∧ (e1 = Zdigits2 mx + ex - 53 → 2 ^ 52 <= r)
                   ∧ (e1 ≠ Zdigits2 mx + ex - 53 → r <= 2 ^ 52)
                   ∧ Zdigits2 r <= Z.max (Zdigits2 mx - (e1 - ex)) 0 + 1
                   ∧ (0 < r → Zdigits2 mx - (e1 - ex) <= Zdigits2 r)
                   ∧ (r = 0 → Zdigits2 mx <= e1 - ex)).
  { assert (H0 : 0 <= mx / 2 ^ (e1 - ex)) by (apply Z.div_pos; [lia|apply Z.pow_pos_nonneg; lia]).
    assert (Hup : ∀ k, 0 <= k → Zdigits2 mx - (e1 - ex) <= k → mx / 2 ^ (e1 - ex) < 2 ^ k).
    { intros k Hk Hle. apply Z.div_lt_upper_bound; [apply Z.pow_pos_nonneg; lia|].
      rewrite <- Z.pow_add_r by lia.
      eapply Z.lt_le_trans; [apply Hdx|]. apply Z.pow_le_mono_r; lia. }
    assert (Hlow : ∀ k, 0 <= k → k + (e1 - ex) <= Zdigits2 mx - 1 →
                     2 ^ k <= mx / 2 ^ (e1 - ex)).
    { intros k Hk Hle. apply Z.div_le_lower_bound; [apply Z.pow_pos_nonneg; lia|].
      rewrite <- Z.pow_add_r by lia.
      etransitivity; [|apply Hdx]. apply Z.pow_le_mono_r; lia. }
    split; [|split; [|split; [|split; [|split]]]].
    - split; [lia|]. pose proof (Hup 53 ltac:(lia)) as H.
      assert (Zdigits2 mx - (e1 - ex) <= 53) by (unfold e1, fexp, emin, prec, emax; lia).
      lia.
    - intros He. assert (2 ^ 52 <= mx / 2 ^ (e1 - ex)); [|lia].
      apply Z.div_le_lower_bound; [apply Z.pow_pos_nonneg; lia|].
      rewrite <- Z.pow_add_r by lia.
      etransitivity; [|apply Hdx]. apply Z.pow_le_mono_r; lia.
    - intros He. pose proof (Hup 52 ltac:(lia)) as H.
      assert (Zdigits2 mx - (e1 - ex) <= 52) by (unfold e1, fexp, emin, prec, emax in *; lia).
      lia.
    - set (k := Z.max (Zdigits2 mx - (e1 - ex)) 0).
      pose proof (Hup k ltac:(lia) ltac:(lia)) as H.
      apply (Zdigits2_le r (k + 1)); [lia|]. split; [lia|].
      rewrite Z.pow_add_r by lia. change (2 ^ 1) with 2. lia.
    - intros Hrpos. rewrite (Zdigits2_pos r Hrpos). pose proof (Z.log2_nonneg r).
      destruct (Z_le_gt_dec (Zdigits2 mx - (e1 - ex)) 1) as [|Hgt]; [lia|].
      pose proof (Hlow (Zdigits2 mx - (e1 - ex) - 1) ltac:(lia) ltac:(lia)) as Hl.
      assert (Zdigits2 mx - (e1 - ex) - 1 <= Z.log2 r); [|lia].
      apply Z.log2_le_pow2; [done|lia].
    - intros Hz. destruct (Z_le_gt_dec (Zdigits2 mx) (e1 - ex)) as [|Hgt]; [done|].
      pose proof (Hlow 0 ltac:(lia) ltac:(lia)) as Hl. change (2 ^ 0) with 1 in Hl. lia. }
  destruct Hrange as ([Hr0 Hr53] & Hnorm & Hsub & Hdr & Hdl & Hdz).
  cbn [shr_record_of_loc].
  destruct (Z.eq_dec r 0) as [Hz|Hrnz].
  - left. split; [|specialize (Hdz Hz); unfold e1, fexp, emin, prec, emax in *; lia].
    rewrite Hz. cbn [Zdigits2].
    unfold shr. destruct (fexp prec emax (0 + e1) - e1) as [|p|p] eqn:Ep; try done.
    unfold fexp, emin, prec, emax in Ep. lia.
  - right. destruct (Z.eq_dec r (2 ^ 53)) as [Hr|Hr53'].
    + rewrite Hr.
      assert (Hd : Zdigits2 (2 ^ 53) = 54) by done.
      rewrite Hd.
      replace (fexp prec emax (54 + e1) - e1) with 1
        by (unfold fexp, emin, prec, emax; lia).
      cbn [shr SpecFloat.iter_pos]. change (2 ^ 53) with 9007199254740992.
      cbn [shr_1 shr_m].
      replace (e1 + 1 <=? emax - prec) with true
        by (symmetry; apply Z.leb_le; unfold emax, prec; lia).
      exists (Z.to_pos (2 ^ 52)), (e1 + 1). split; [done|]. split.
      * apply valid_canonical. split; [|lia].
        change (Zpos (digits2_pos (Z.to_pos (2 ^ 52)))) with 53.
        unfold fexp, emin, prec, emax. lia.
      * change (Zpos (digits2_pos (Z.to_pos (2 ^ 52)))) with 53.
        assert (e1 = Zdigits2 mx + ex - 53).
        { destruct (Z.eq_dec e1 (Zdigits2 mx + ex - 53)) as [|Hne]; [done|].
          specialize (Hsub Hne). rewrite Hr in Hsub. done. }
        split; [lia|]. split; [lia|].
        replace (e1 + 1 - e1) with 1 by lia.
        change (Zpos (Z.to_pos (2 ^ 52)) * 2 ^ 1) with (2 ^ 53). rewrite <- Hr. exact Hfl.
    + specialize (Hdl ltac:(lia)).
      assert (Hcan : fexp prec emax (Zdigits2 r + e1) = e1
                     ∧ Zdigits2 mx + ex <= Zdigits2 r + e1
                       <= Z.max (Zdigits2 mx + ex) (-1074) + 1).
      { destruct (Z.eq_dec e1 (Zdigits2 mx + ex - 53)) as [He|He].
        - rewrite (Zdigits2_range r 52) by (change (52 + 1) with 53; lia).
          unfold fexp, emin, prec, emax. lia.
        - pose proof (Zdigits2_le r 53 ltac:(lia) ltac:(lia)).
          unfold e1, fexp, emin, prec, emax in *. lia. }
      destruct Hcan as [Hcan Hbound].
      rewrite Hcan, Z.sub_diag. cbn [shr shr_m].
      destruct r as [|p|p] eqn:Er; try lia.
      replace (e1 <=? emax - prec) with true
        by (symmetry; apply Z.leb_le; unfold emax, prec; lia).
      exists p, e1. split; [done|]. split; [apply valid_canonical; split; [exact Hcan|lia]|].
      split; [exact Hbound|]. split; [lia|].
      rewrite Z.sub_diag, Z.mul_1_r. exact Hfl.
Qed.


(** An int64 above zero converts to a float64 of as many binary digits, or
    one more. *)
Lemma of_Z_magnitude (z : Z) :
  0 < z < 2 ^ 64 →
  ∃ m e, of_Z z = S754_finite false m e
         ∧ valid (S754_finite false m e) = true
         ∧ 1 <= Zpos (digits2_pos m) + e <= 65.
Proof.
  intros [Hz Hhi]. destruct z as [|p|p]; try lia.
  pose proof (Zdigits2_bounds (Zpos p) ltac:(lia)) as Hd. cbn [Zdigits2] in Hd.
  pose proof (digits2_pos_bounds p) as Hdp.
  assert (Hd64 : 1 <= Zpos (digits2_pos p) <= 64).
  { split; [lia|].
    destruct (Z_le_gt_dec (Zpos (digits2_pos p)) 64) as [|Hgt]; [done|].
    assert (2 ^ 64 <= 2 ^ (Zpos (digits2_pos p) - 1)) by (apply Z.pow_le_mono_r; lia).
    lia. }
  unfold of_Z, binary_normalize, binary_round. rewrite Z.add_0_r.
  set (e0 := fexp prec emax (Zpos (digits2_pos p))).
  assert (He0 : e0 = Zpos (digits2_pos p) - 53) by (unfold e0, fexp, emin, prec, emax; lia).
  destruct (shl_align p 0 e0) as [mz ez] eqn:E.
  assert (Hmz : Zdigits2 (Zpos mz) + ez = Zpos (digits2_pos p)
                ∧ ez <= fexp prec emax (Zdigits2 (Zpos mz) + ez)).
  { destruct (Z_le_gt_dec e0 0) as [Hle|Hgt].
    - destruct (shl_align_spec p 0 e0 Hle) as [Hm He]. rewrite E in Hm, He.
      cbn [fst snd] in Hm, He. subst ez. rewrite Hm, Zdigits2_mul_pow2 by lia.
      cbn [Zdigits2]. unfold fexp, emin, prec, emax. lia.
    - unfold shl_align in E. destruct (e0 - 0) as [|d|d] eqn:Ed; try lia.
      injection E as <- <-. cbn [Zdigits2]. unfold fexp, emin, prec, emax. lia. }
  destruct Hmz as [Hdig Hsh].
  destruct (binary_round_aux_valid false (Zpos mz) ez loc_Exact ltac:(lia) Hsh ltac:(lia))
    as [[_ Hlow]|(m & e & Heq & Hv & Hb & _)]; [lia|].
  exists m, e. split; [done|]. split; [done|]. lia.
Qed.

(** A quotient of two positive float64 numbers that neither overflows nor
    leaves the range of the format is a positive float64; in the normal
    range it is, in fixed point, within one part in 2^52 of the exact
    quotient. *)
Lemma div_finite (mx my : positive) (ex ey : Z) :
  valid (S754_finite false mx ex) = true →
  valid (S754_finite false my ey) = true →
  -1073 <= Zpos (digits2_pos mx) + ex - (Zpos (digits2_pos my) + ey) <= 1022 →
  ∃ m e, div (S754_finite false mx ex) (S754_finite false my ey) = S754_finite false m e
         ∧ valid (S754_finite false m e) = true
         ∧ Zpos (digits2_pos mx) + ex - (Zpos (digits2_pos my) + ey)
           <= Zpos (digits2_pos m) + e
           <= Zpos (digits2_pos mx) + ex - (Zpos (digits2_pos my) + ey) + 2
         ∧ (-1020 <= Zpos (digits2_pos mx) + ex - (Zpos (digits2_pos my) + ey) →
            2 ^ 52 * (scaled (S754_finite false m e) * scaled (S754_finite false my ey)
                      - scaled (S754_finite false mx ex) * 2 ^ 1200)
            <= scaled (S754_finite false m e) * scaled (S754_finite false my ey)
            ∧ 2 ^ 52 * (scaled (S754_finite false mx ex) * 2 ^ 1200
                        - scaled (S754_finite false m e) * scaled (S754_finite false my ey))
              <= scaled (S754_finite false m e) * scaled (S754_finite false my ey)).
Proof.
  intros Hvx Hvy HD.
  pose proof (digits2_pos_bounds mx) as Hbx. pose proof (digits2_pos_bounds my) as Hby.
  set (d1 := Zpos (digits2_pos mx)) in *. set (d2 := Zpos (digits2_pos my)) in *.
  assert (Hd1 : 1 <= d1) by (unfold d1; lia).
  assert (Hd2 : 1 <= d2) by (unfold d2; lia).
  unfold div, SFdiv, SFdiv_core_binary. cbn [xorb Zdigits2]. fold d1 d2.
  set (D := d1 + ex - (d2 + ey)) in *.
  set (e' := Z.min (fexp prec emax D) (ex - ey)).
  set (s := ex - ey - e').
  assert (Hs : 0 <= s) by (unfold s, e'; lia).
  assert (HK : 1 <= d1 + s - d2).
  { unfold s, e', D, fexp, emin, prec, emax in *. lia. }
  set (m' := match s with Zpos _ => Z.shiftl (Zpos mx) s | Z0 => Zpos mx | Zneg _ => 0 end).
  assert (Hm' : m' = Zpos mx * 2 ^ s).
  { unfold m'. destruct s as [|k|k] eqn:Es; [lia| |lia]. apply Z.shiftl_mul_pow2. lia. }
  destruct (Z.div_eucl m' (Zpos my)) as [q r] eqn:Ediv.
  destruct (DivFacts.div_eucl_spec m' (Zpos my) q r ltac:(lia) Ediv) as [Hq Hr].
  assert (Hp1 : 2 ^ (d1 - 1 + s) <= m' < 2 ^ (d1 + s)).
  { rewrite Hm', !Z.pow_add_r by lia.
    assert (0 < 2 ^ s) by (apply Z.pow_pos_nonneg; lia). nia. }
  assert (Hqlo : 2 ^ (d1 + s - d2 - 1) <= q).
  { assert (2 ^ (d1 + s - d2 - 1) * Zpos my <= m'); [|nia].
    etransitivity; [|apply Hp1].
    replace (d1 - 1 + s) with (d1 + s - d2 - 1 + d2) by lia.
    rewrite (Z.pow_add_r 2 (d1 + s - d2 - 1) d2) by lia.
    apply Z.mul_le_mono_nonneg_l; [apply Z.pow_nonneg; lia|lia]. }
  assert (Hqhi : q < 2 ^ (d1 + s - d2 + 1)).
  { assert (m' < 2 ^ (d1 + s - d2 + 1) * Zpos my); [|nia].
    eapply Z.lt_le_trans; [apply Hp1|].
    replace (d1 + s) with (d1 + s - d2 + 1 + (d2 - 1)) at 1 by lia.
    rewrite (Z.pow_add_r 2 (d1 + s - d2 + 1) (d2 - 1)) by lia.
    apply Z.mul_le_mono_nonneg_l; [apply Z.pow_nonneg; lia|lia]. }
  assert (Hq0 : 0 < q).
  { assert (0 < 2 ^ (d1 + s - d2 - 1)) by (apply Z.pow_pos_nonneg; lia). lia. }
  assert (Hdq : d1 + s - d2 <= Zdigits2 q <= d1 + s - d2 + 1).
  { rewrite (Zdigits2_pos q Hq0). split.
    - assert (d1 + s - d2 - 1 <= Z.log2 q); [|lia]. apply Z.log2_le_pow2; [done|lia].
    - assert (Z.log2 q < d1 + s - d2 + 1); [|lia]. apply Z.log2_lt_pow2; [done|lia]. }
  assert (HDq : D <= Zdigits2 q + e' <= D + 1) by (unfold s, D in *; lia).
  assert (Hsh : e' <= fexp prec emax (Zdigits2 q + e')).
  { unfold e', fexp, emin, prec, emax in *. lia. }
  destruct (binary_round_aux_valid false q e' (new_location (Zpos my) r) Hq0 Hsh)
    as [[_ Hlow]|(m & e & Heq & Hv & Hb & Hge & Hbr)]; [lia|lia|].
  exists m, e. split; [done|]. split; [done|]. split; [lia|].
  intros Hnorm. set (e1 := fexp prec emax (Zdigits2 q + e')) in *.
  destruct (valid_digits _ _ _ Hvx) as [_ Hex]. destruct (valid_digits _ _ _ Hvy) as [_ Hey].
  assert (He1 : -1074 < e1) by (unfold e1, fexp, emin, prec, emax in *; lia).
  pose proof (DivFacts.valid_normal _ _ _ Hv ltac:(lia)) as Hdm.
  pose proof (digits2_pos_bounds m) as Hbm. rewrite Hdm in Hbm.
  change (2 ^ (53 - 1)) with (2 ^ 52) in Hbm.
  unfold scaled, cond_Zopp.
  set (B := 2 ^ (e1 - e')) in *. set (a := 2 ^ s) in *.
  set (C := 2 ^ (e - e1)) in *.
  set (G := 2 ^ (e' + ey + 2400)).
  set (U := 2 ^ (e1 + 1200)).
  set (Ey := 2 ^ (ey + 1200)). set (Ex := 2 ^ (ex + 1200)). set (W := 2 ^ 1200).
  assert (HB : 0 < B) by (apply Z.pow_pos_nonneg; lia).
  assert (HC : 1 <= C) by (apply (Z.pow_le_mono_r 2 0); lia).
  assert (HG : 0 < G).
  { apply Z.pow_pos_nonneg; [lia|]. unfold e', fexp, emin, prec, emax. lia. }
  assert (HU : 0 < U) by (apply Z.pow_pos_nonneg; lia).
  assert (HEy : 0 < Ey) by (apply Z.pow_pos_nonneg; lia).
  assert (HaG : a * G = Ex * W).
  { unfold a, G, Ex, W. rewrite <- !Z.pow_add_r; [f_equal; unfold s; lia|lia|lia|lia|].
    unfold e', fexp, emin, prec, emax. lia. }
  assert (HBG : B * G = U * Ey).
  { unfold B, G, U, Ey. rewrite <- !Z.pow_add_r; [f_equal; lia|lia|lia|lia|].
    unfold e', fexp, emin, prec, emax. lia. }
  assert (HA : 2 ^ (e + 1200) = C * U).
  { unfold C, U. rewrite <- Z.pow_add_r by lia. f_equal. lia. }
  rewrite HA. set (rr := Zpos m * C) in *.
  replace (Zpos m * (C * U)) with (rr * U) by (unfold rr; ring).
  assert (Hrr : 2 ^ 52 <= rr) by (unfold rr; nia).
  pose proof (Z.mul_div_le q B HB) as Hd1'.
  pose proof (Z.mul_succ_div_gt q B HB) as Hd2'.
  set (m1 := q / B) in *.
  assert (Hlo : (rr - 1) * B * Zpos my <= Zpos mx * a).
  { assert ((rr - 1) * B <= q) by nia.
    assert ((rr - 1) * B * Zpos my <= q * Zpos my)
      by (apply Z.mul_le_mono_nonneg_r; lia).
    lia. }
  assert (Hhi : Zpos mx * a <= (rr + 1) * B * Zpos my).
  { assert (q + 1 <= (rr + 1) * B) by nia.
    assert ((q + 1) * Zpos my <= (rr + 1) * B * Zpos my)
      by (apply Z.mul_le_mono_nonneg_r; lia).
    lia. }
  apply (Z.mul_le_mono_nonneg_r _ _ G) in Hlo; [|lia].
  apply (Z.mul_le_mono_nonneg_r _ _ G) in Hhi; [|lia].
  replace ((rr - 1) * B * Zpos my * G) with ((rr - 1) * Zpos my * (B * G)) in Hlo by ring.
  replace ((rr + 1) * B * Zpos my * G) with ((rr + 1) * Zpos my * (B * G)) in Hhi by ring.
  replace (Zpos mx * a * G) with (Zpos mx * (a * G)) in Hlo, Hhi by ring.
  rewrite HBG, HaG in Hlo, Hhi.
  assert (HUS : 2 ^ 52 * (U * (Zpos my * Ey)) <= rr * U * (Zpos my * Ey)).
  { replace (rr * U * (Zpos my * Ey)) with (rr * (U * (Zpos my * Ey))) by ring.
    apply Z.mul_le_mono_nonneg_r; [|done].
    apply Z.mul_nonneg_nonneg; [lia|]. apply Z.mul_nonneg_nonneg; lia. }
  split; lia.
Qed.

(** A product of a positive float64 and a normal positive float64 that
    neither overflows nor underflows is a positive float64. *)
Lemma mul_finite (ma mb : positive) (ea eb : Z) :
  valid (S754_finite false ma ea) = true →
  valid (S754_finite false mb eb) = true →
  Zpos (digits2_pos mb) = 53 →
  -1072 <= Zpos (digits2_pos ma) + ea + (Zpos (digits2_pos mb) + eb) <= 1023 →
  ∃ m e, mul (S754_finite false ma ea) (S754_finite false mb eb) = S754_finite false m e
         ∧ valid (S754_finite false m e) = true.
Proof.
  intros Hva Hvb Hnb HS.
  pose proof (digits2_pos_bounds ma) as Hba. pose proof (digits2_pos_bounds mb) as Hbb.
  set (da := Zpos (digits2_pos ma)) in *. set (db := Zpos (digits2_pos mb)) in *.
  assert (Hda : 1 <= da) by (unfold da; lia).
  unfold mul, SFmul. cbn [xorb]. rewrite Pos2Z.inj_mul.
  set (mx := Zpos ma * Zpos mb).
  assert (Hmx : 2 ^ (da + db - 2) <= mx < 2 ^ (da + db)).
  { unfold mx. replace (da + db - 2) with (da - 1 + (db - 1)) by lia.
    rewrite !Z.pow_add_r by lia.
    assert (0 < 2 ^ (da - 1)) by (apply Z.pow_pos_nonneg; lia).
    assert (0 < 2 ^ (db - 1)) by (apply Z.pow_pos_nonneg; lia). nia. }
  assert (Hmx0 : 0 < mx) by (unfold mx; lia).
  assert (Hdx : da + db - 1 <= Zdigits2 mx <= da + db).
  { rewrite (Zdigits2_pos mx Hmx0). split.
    - assert (da + db - 2 <= Z.log2 mx); [|lia]. apply Z.log2_le_pow2; [done|lia].
    - assert (Z.log2 mx < da + db); [|lia]. apply Z.log2_lt_pow2; [done|lia]. }
  destruct (binary_round_aux_valid false mx (ea + eb) loc_Exact Hmx0)
    as [[_ Hlow]|(m & e & Heq & Hv & _)].
  - unfold fexp, emin, prec, emax. lia.
  - lia.
  - lia.
  - by exists m, e.
Qed.

(** The rate of a municipality with inhabitants: 0.0 when it has no
    monument in the category, and otherwise a positive float64, never an
    infinity and never NaN. *)
Lemma rate_cell_finite (t p : Z) :
  0 <= t < 2 ^ 63 → 0 < p < 2 ^ 63 →
  (t = 0 ∧ mul (div (of_Z t) (of_Z p)) (of_Z 100000) = zero)
  ∨ (0 < t
     ∧ ∃ m e, mul (div (of_Z t) (of_Z p)) (of_Z 100000) = S754_finite false m e
              ∧ valid (S754_finite false m e) = true).
Proof.
  intros Ht Hp.
  assert (H64 : 2 ^ 63 < 2 ^ 64) by done.
  destruct (of_Z_magnitude p ltac:(lia)) as (mp & ep & -> & Hvp & Hbp).
  destruct (Z.eq_dec t 0) as [->|Hne]; [by left|right]. split; [lia|].
  destruct (of_Z_magnitude t ltac:(lia)) as (mt & et & -> & Hvt & Hbt).
  destruct (div_finite mt mp et ep Hvt Hvp ltac:(lia)) as (mq & eq & -> & Hvq & Hbq & _).
  rewrite of_Z_100000.
  apply mul_finite; [done|done|done|].
  change (Zpos (digits2_pos 6871947673600000)) with 53. lia.
Qed.

(** The rate of a municipality without inhabitants: NaN when it has no
    monument in the category, and plus infinity otherwise. *)
Lemma rate_cell_uninhabited (t : Z) :
  0 <= t < 2 ^ 63 →
  (t = 0 ∧ mul (div (of_Z t) (of_Z 0)) (of_Z 100000) = S754_nan)
  ∨ (0 < t ∧ mul (div (of_Z t) (of_Z 0)) (of_Z 100000) = S754_infinity false).
Proof.
  intros Ht. assert (H64 : 2 ^ 63 < 2 ^ 64) by done.
  destruct (Z.eq_dec t 0) as [->|Hne]; [by left|right]. split; [lia|].
  destruct (of_Z_magnitude t ltac:(lia)) as (mt & et & -> & _).
  by rewrite of_Z_100000.
Qed.

Lemma mul_comm (x y : spec_float) : mul x y = mul y x.
Proof.
  destruct x as [sx|sx| |sx mx ex], y as [sy|sy| |sy my ey]; try done;
    unfold mul; cbn [SFmul]; rewrite ?(xorb_comm sx sy); try done.
  by rewrite (Pos.mul_comm mx my), (Z.add_comm ex ey).
Qed.

(** Times 100000: the product of a normal float64 of moderate size is, in
    fixed point, within one part in 2^53 of the exact product. *)
Lemma mul_100000 (m : positive) (e : Z) :
  valid (S754_finite false m e) = true → -1000 <= e <= 900 →
  ∃ mR eR, mul (S754_finite false m e) (of_Z 100000) = S754_finite false mR eR
           ∧ valid (S754_finite false mR eR) = true
           ∧ 2 ^ 53 * (100000 * scaled (S754_finite false m e)
                       - scaled (S754_finite false mR eR))
             <= 100000 * scaled (S754_finite false m e)
           ∧ 2 ^ 53 * (scaled (S754_finite false mR eR)
                       - 100000 * scaled (S754_finite false m e))
             <= 100000 * scaled (S754_finite false m e).
Proof.
  intros Hv He. rewrite mul_comm, of_Z_100000.
  set (mc := 6871947673600000%positive).
  assert (Hvc : valid (S754_finite false mc (-36)) = true) by done.
  destruct (mul_shape mc m (-36) e Hvc Hv ltac:(lia))
    as (V & e1 & He1 & Hlow & HV & Hhalf & _ & Hres).
  pose proof (DivFacts.valid_normal _ _ _ Hv ltac:(lia)) as Hdm.
  pose proof (digits2_pos_bounds m) as Hbm. rewrite Hdm in Hbm.
  change (2 ^ (53 - 1)) with (2 ^ 52) in Hbm.
  set (mx := Zpos mc * Zpos m) in *.
  assert (Hmx0 : 0 < mx) by (unfold mx; lia).
  pose proof (Zdigits2_bounds mx Hmx0) as Hdx.
  assert (Hmxlo : 2 ^ 104 <= mx).
  { unfold mx, mc. change (2 ^ 104) with (2 ^ 52 * 2 ^ 52).
    apply Z.mul_le_mono_nonneg; [done|done|apply Z.pow_nonneg; lia|lia]. }
  assert (Hmxhi : mx < 2 ^ 106).
  { unfold mx, mc. change (2 ^ 106) with (2 ^ 53 * 2 ^ 53).
    apply Z.mul_lt_mono_nonneg; [done|done|lia|lia]. }
  assert (Hd : 105 <= Zdigits2 mx <= 106).
  { rewrite (Zdigits2_pos mx Hmx0). split.
    - assert (104 <= Z.log2 mx); [|lia]. apply Z.log2_le_pow2; [done|lia].
    - assert (Z.log2 mx < 106); [|lia]. apply Z.log2_lt_pow2; [done|lia]. }
  assert (He1' : e1 = Zdigits2 mx + (-36 + e) - 53).
  { rewrite He1. unfold fexp, emin, prec, emax. lia. }
  set (P := mx * 2 ^ (-36 + e + 1200)) in *.
  assert (HP : P = 100000 * (Zpos m * 2 ^ (e + 1200))).
  { unfold P, mx, mc. replace (e + 1200) with (36 + (-36 + e + 1200)) by lia.
    rewrite (Z.pow_add_r 2 36) by lia.
    change (Zpos 6871947673600000) with (100000 * 2 ^ 36). ring. }
  assert (HQ : 2 ^ 52 * 2 ^ (e1 + 1200) <= P).
  { unfold P. rewrite <- Z.pow_add_r by lia.
    replace (52 + (e1 + 1200)) with (Zdigits2 mx - 1 + (-36 + e + 1200)) by lia.
    rewrite Z.pow_add_r by lia.
    apply Z.mul_le_mono_nonneg_r; [apply Z.pow_nonneg; lia|apply Hdx]. }
  assert (Hq0 : 0 < 2 ^ (e1 + 1200)) by (apply Z.pow_pos_nonneg; lia).
  assert (HVlt : V < 2 ^ 2224).
  { assert (HPlt : P < 2 ^ 106 * 2 ^ 2065).
    { unfold P. apply Z.mul_lt_mono_nonneg; [lia|done|apply Z.pow_nonneg; lia|].
      apply Z.pow_lt_mono_r; lia. }
    assert (Hqle : 2 ^ (e1 + 1200) <= 2 ^ 2171) by (apply Z.pow_le_mono_r; lia).
    change (2 ^ 2224) with (2 ^ 53 * 2 ^ 2171).
    change (2 ^ 106 * 2 ^ 2065) with (2 ^ 2171) in HPlt.
    revert HPlt Hqle Hhalf Hq0. generalize (2 ^ (e1 + 1200)) (2 ^ 2171).
    intros q0 big. change (2 ^ 53) with 9007199254740992. lia. }
  destruct (Hres HVlt) as (mR & eR & Hmul & HvR & HsR).
  exists mR, eR. split; [done|]. split; [done|]. rewrite HsR.
  unfold scaled at 1 2 3 4, cond_Zopp. rewrite <- HP.
  revert HQ Hhalf Hq0. generalize (2 ^ (e1 + 1200)). intros q0 HQ Hhalf Hq0.
  change (2 ^ 53) with (2 * 2 ^ 52). split; nia.
Qed.

(** One rate, in fixed point: with counts and populations below 2^53 the
    float64 rate is within one part in 2^51 of 100000 t / p. *)
Lemma rate_cell_accuracy (t p : Z) :
  0 < t < 2 ^ 53 → 0 < p < 2 ^ 53 →
  ∃ m e, mul (div (of_Z t) (of_Z p)) (of_Z 100000) = S754_finite false m e
         ∧ valid (S754_finite false m e) = true
         ∧ 2 ^ 51 * (scaled (S754_finite false m e) * p - 100000 * t * 2 ^ 1200)
           <= 100000 * t * 2 ^ 1200
         ∧ 2 ^ 51 * (100000 * t * 2 ^ 1200 - scaled (S754_finite false m e) * p)
           <= 100000 * t * 2 ^ 1200.
Proof.
  intros Ht Hp.
  assert (H64 : 2 ^ 53 < 2 ^ 64) by done.
  assert (Hval : ∀ z, 0 < z < 2 ^ 53 →
            ∃ mz ez, of_Z z = S754_finite false mz ez
                     ∧ valid (S754_finite false mz ez) = true
                     ∧ 1 <= Zpos (digits2_pos mz) + ez <= 65
                     ∧ scaled (S754_finite false mz ez) = z * 2 ^ 1200).
  { intros z Hz. destruct (of_Z_magnitude z ltac:(lia)) as (mz & ez & Heq & Hv & Hb).
    exists mz, ez. do 3 (split; [done|]).
    destruct (of_Z_exact z Hz) as (mz' & ez' & Heq' & He' & Hm' & _).
    rewrite Heq in Heq'. injection Heq' as <- <-.
    destruct (valid_digits _ _ _ Hv) as [_ Hez].
    unfold scaled, cond_Zopp. rewrite Hm', <- Z.mul_assoc, <- Z.pow_add_r by lia.
    f_equal. f_equal. lia. }
  destruct (Hval t Ht) as (mt & et & -> & Hvt & Hbt & Hst).
  destruct (Hval p Hp) as (mp & ep & -> & Hvp & Hbp & Hsp).
  destruct (div_finite mt mp et ep Hvt Hvp ltac:(lia)) as (mq & eq & -> & Hvq & Hbq & Hbr).
  specialize (Hbr ltac:(lia)). rewrite Hst, Hsp in Hbr.
  pose proof (digits2_pos_bounds mq) as Hdq.
  destruct (valid_digits _ _ _ Hvq) as [Hmq _].
  assert (Hdq53 : 1 <= Zpos (digits2_pos mq) <= 53).
  { split; [lia|]. destruct (Z_le_gt_dec (Zpos (digits2_pos mq)) 53) as [|Hgt]; [done|].
    assert (2 ^ 53 <= 2 ^ (Zpos (digits2_pos mq) - 1)) by (apply Z.pow_le_mono_r; lia).
    lia. }
  destruct (mul_100000 mq eq Hvq ltac:(lia)) as (mR & eR & -> & HvR & Hm1 & Hm2).
  exists mR, eR. split; [done|]. split; [done|].
  set (A := scaled (S754_finite false mq eq)) in *.
  set (V := scaled (S754_finite false mR eR)) in *.
  set (W := 2 ^ 1200) in *.
  assert (HW : 0 < W) by done.
  destruct Hbr as [Hb1 Hb2].
  assert (Hc1 : 2 ^ 52 * (A * p - t * W) <= A * p).
  { apply (Z.mul_le_mono_pos_r _ _ W HW).
    replace (2 ^ 52 * (A * p - t * W) * W) with (2 ^ 52 * (A * (p * W) - t * W * W)) by ring.
    replace (A * p * W) with (A * (p * W)) by ring. exact Hb1. }
  assert (Hc2 : 2 ^ 52 * (t * W - A * p) <= A * p).
  { apply (Z.mul_le_mono_pos_r _ _ W HW).
    replace (2 ^ 52 * (t * W - A * p) * W) with (2 ^ 52 * (t * W * W - A * (p * W))) by ring.
    replace (A * p * W) with (A * (p * W)) by ring. exact Hb2. }
  apply (Z.mul_le_mono_nonneg_r _ _ p) in Hm1; [|lia].
  apply (Z.mul_le_mono_nonneg_r _ _ p) in Hm2; [|lia].
  change (2 ^ 53) with 9007199254740992 in *. change (2 ^ 52) with 4503599627370496 in *.
  change (2 ^ 51) with 2251799813685248.
  split; lia.
Qed.

End FiniteFacts.

(** ** The maximum of a float64 column *)

Module MaxFacts.
Import F64 F64Facts RintFacts MulFacts DivFacts.

(** On float64 numbers that are not negative, [<=] is the order of the
    values. *)
Lemma leb_scaled (a b : spec_float) :
  scalar_nonneg (SFloat a) → scalar_nonneg (SFloat b) →
  leb a b = true ↔ scaled a <= scaled b.
Proof.
  destruct a as [sa|sa| |[] ma ea]; try done; destruct b as [sb|sb| |[] mb eb]; try done;
    cbn [scalar_nonneg]; intros Ha Hb.
  - cbn. assert (0 < 2 ^ (eb + 1200)); [|split; [nia|done]].
    destruct (valid_digits _ _ _ Hb). apply pow2_pos. lia.
  - cbn. assert (0 < 2 ^ (ea + 1200)); [|split; [done|nia]].
    destruct (valid_digits _ _ _ Ha). apply pow2_pos. lia.
  - destruct (valid_digits _ _ _ Ha) as [Hma Hea]. destruct (valid_digits _ _ _ Hb) as [Hmb Heb].
    assert (Hlt : ∀ m1 e1 m2 e2, valid (S754_finite false m1 e1) = true →
              valid (S754_finite false m2 e2) = true → e1 < e2 →
              Zpos m1 * 2 ^ (e1 + 1200) < Zpos m2 * 2 ^ (e2 + 1200)).
    { intros m1 e1 m2 e2 H1 H2 Hlt.
      destruct (valid_digits _ _ _ H1) as [Hm1 He1]. destruct (valid_digits _ _ _ H2) as [_ He2].
      pose proof (valid_normal _ _ _ H2 ltac:(lia)) as Hd.
      pose proof (digits2_pos_bounds m2) as Hb2. rewrite Hd in Hb2.
      change (2 ^ (53 - 1)) with (2 ^ 52) in Hb2.
      assert (Hp : 2 * 2 ^ (e1 + 1200) <= 2 ^ (e2 + 1200)).
      { replace (e2 + 1200) with (1 + (e1 + 1200) + (e2 - e1 - 1)) by lia.
        rewrite (Z.pow_add_r 2 (1 + (e1 + 1200)) (e2 - e1 - 1)) by lia.
        rewrite (Z.pow_add_r 2 1 (e1 + 1200)) by lia. change (2 ^ 1) with 2.
        assert (0 < 2 ^ (e1 + 1200)) by (apply pow2_pos; lia).
        assert (1 <= 2 ^ (e2 - e1 - 1)) by (apply (Z.pow_le_mono_r 2 0); lia). nia. }
      assert (0 < 2 ^ (e1 + 1200)) by (apply pow2_pos; lia).
      change (2 ^ 53) with (2 * 2 ^ 52) in Hm1.
      revert Hp H. generalize (2 ^ (e1 + 1200)) (2 ^ (e2 + 1200)). intros A B Hp HA.
      change (2 ^ 52) with 4503599627370496 in *. nia. }
    unfold leb, SFleb, SFcompare, scaled, cond_Zopp.
    destruct (Z.compare_spec ea eb) as [->|Hc|Hc].
    + rewrite Pos.compare_cont_spec. cbn [Pos.switch_Eq].
      assert (0 < 2 ^ (eb + 1200)) by (apply pow2_pos; lia).
      destruct (Pos.compare_spec ma mb) as [->|Hm|Hm]; split; try done; try nia.
    + pose proof (Hlt ma ea mb eb Ha Hb Hc). split; [lia|done].
    + pose proof (Hlt mb eb ma ea Hb Ha Hc). split; [done|lia].
Qed.

Lemma foldl_float_max_spec (x : spec_float) (xs : list spec_float) :
  scalar_nonneg (SFloat x) → Forall (λ y, scalar_nonneg (SFloat y)) xs →
  foldl float_max x xs ∈ x :: xs
  ∧ ∀ y, y ∈ x :: xs → scaled y <= scaled (foldl float_max x xs).
Proof.
  intros Hx Hxs. revert x Hx. induction Hxs as [|z xs Hz _ IH]; intros x Hx.
  - cbn. split; [by left|]. intros y ->%list_elem_of_singleton. done.
  - cbn [foldl].
    assert (Hm : scalar_nonneg (SFloat (float_max x z))
                 ∧ scaled x <= scaled (float_max x z)
                 ∧ scaled z <= scaled (float_max x z)
                 ∧ (float_max x z = x ∨ float_max x z = z)).
    { unfold float_max. destruct (leb x z) eqn:E.
      - apply (leb_scaled x z Hx Hz) in E. split; [done|]. split; [done|]. split; [lia|by right].
      - split; [done|]. split; [lia|]. split; [|by left].
        destruct (Z_le_gt_dec (scaled x) (scaled z)) as [Hle|]; [|lia].
        apply (leb_scaled x z Hx Hz) in Hle. congruence. }
    destruct Hm as (Hnn & Hx' & Hz' & Hor).
    destruct (IH _ Hnn) as [Hin Hle]. split.
    + apply elem_of_cons in Hin as [Hin|Hin]; [|by do 2 right].
      rewrite Hin. destruct Hor as [-> | ->]; [by left|by right; left].
    + intros y Hy. pose proof (Hle (float_max x z) ltac:(by left)) as Hmax.
      apply elem_of_cons in Hy as [->|Hy]; [lia|].
      apply elem_of_cons in Hy as [->|Hy]; [lia|]. apply Hle. by right.
Qed.

(** The maximum of a column of float64 numbers that are NaN or not
    negative, one at least not NaN: NaN is skipped, the maximum is one of
    the other cells, and none of them is greater. *)
Lemma series_max_floats (ys : list spec_float) :
  Forall (λ y, y = S754_nan ∨ scalar_nonneg (SFloat y)) ys →
  (∃ y, y ∈ ys ∧ scalar_nonneg (SFloat y)) →
  ∃ M, series_max (Floats ys) = Some (SFloat M)
       ∧ M ∈ ys ∧ scalar_nonneg (SFloat M)
       ∧ ∀ y, y ∈ ys → scalar_nonneg (SFloat y) → scaled y <= scaled M.
Proof.
  intros Hall (y0 & Hy0 & Hnn0).
  assert (Hnan : ∀ y, scalar_nonneg (SFloat y) → is_nan y = false).
  { intros y. by destruct y as [| | |]. }
  set (zs := filter (λ x, is_nan x = false) ys).
  assert (Hzs : ∀ y, y ∈ zs ↔ y ∈ ys ∧ is_nan y = false).
  { intros y. unfold zs. by rewrite list_elem_of_filter, (comm and). }
  assert (Hfz : Forall (λ y, scalar_nonneg (SFloat y)) zs).
  { apply Forall_forall. intros y [Hy Hn]%Hzs. rewrite Forall_forall in Hall.
    destruct (Hall y Hy) as [->|]; done. }
  cbn [series_max]. fold zs. destruct zs as [|x xs] eqn:Ez.
  { assert (Hin : y0 ∈ []) by (apply Hzs; split; [done|by apply Hnan]).
    by apply not_elem_of_nil in Hin. }
  apply Forall_cons in Hfz as [Hx Hxs].
  destruct (foldl_float_max_spec x xs Hx Hxs) as [Hin Hle].
  exists (foldl float_max x xs). split; [done|]. split; [by apply Hzs|]. split.
  - apply elem_of_cons in Hin as [->|Hin]; [done|].
    rewrite Forall_forall in Hxs. by apply Hxs.
  - intros y Hy Hynn. apply Hle, Hzs. split; [done|by apply Hnan].
Qed.

Lemma foldl_float_max_infinite (x : spec_float) (xs : list spec_float) :
  x = S754_infinity false ∨ scalar_nonneg (SFloat x) →
  Forall (λ y, y = S754_infinity false ∨ scalar_nonneg (SFloat y)) xs →
  S754_infinity false ∈ x :: xs →
  foldl float_max x xs = S754_infinity false.
Proof.
  intros Hx Hxs. revert x Hx. induction Hxs as [|z xs Hz _ IH]; intros x Hx Hin.
  - apply list_elem_of_singleton in Hin. by rewrite <- Hin.
  - cbn [foldl].
    assert (Hm : (float_max x z = S754_infinity false
                  ∨ scalar_nonneg (SFloat (float_max x z)))
                 ∧ (x = S754_infinity false ∨ z = S754_infinity false →
                    float_max x z = S754_infinity false)).
    { unfold float_max. destruct Hx as [->|Hx], Hz as [->|Hz].
      - split; [by left|done].
      - split; [left|intros _]; by destruct z as [| | |[] ? ?].
      - split; [left|intros _]; by destruct x as [| | |[] ? ?].
      - split; [right; by destruct (leb x z)|].
        intros [-> | ->]; done. }
    destruct Hm as [Hm Hinf]. apply IH; [done|]. apply elem_of_cons.
    apply elem_of_cons in Hin as [Hin|Hin]; [left; symmetry; apply Hinf; by left|].
    apply elem_of_cons in Hin as [Hin|Hin]; [left; symmetry; apply Hinf; by right|by right].
Qed.

(** One cell of plus infinity among cells that are NaN or not negative
    makes the maximum plus infinity. *)
Lemma series_max_infinite (ys : list spec_float) :
  Forall (λ y, y = S754_nan ∨ y = S754_infinity false ∨ scalar_nonneg (SFloat y)) ys →
  S754_infinity false ∈ ys →
  series_max (Floats ys) = Some (SFloat (S754_infinity false)).
Proof.
  intros Hall Hin.
  set (zs := filter (λ x, is_nan x = false) ys).
  assert (Hzs : ∀ y, y ∈ zs ↔ y ∈ ys ∧ is_nan y = false).
  { intros y. unfold zs. by rewrite list_elem_of_filter, (comm and). }
  assert (Hfz : Forall (λ y, y = S754_infinity false ∨ scalar_nonneg (SFloat y)) zs).
  { apply Forall_forall. intros y [Hy Hn]%Hzs. rewrite Forall_forall in Hall.
    destruct (Hall y Hy) as [->|[->|?]]; [done|by left|by right]. }
  assert (Hiz : S754_infinity false ∈ zs) by (by apply Hzs).
  cbn [series_max]. fold zs. destruct zs as [|x xs]; [by apply not_elem_of_nil in Hiz|].
  apply Forall_cons in Hfz as [Hx Hxs].
  by rewrite (foldl_float_max_infinite x xs Hx Hxs Hiz).
Qed.

End MaxFacts.

(** ** From the frame to the scale, in both modes *)

Lemma scalar_nonneg_valid (f : spec_float) :
  scalar_nonneg (SFloat f) → F64.is_finite f = true ∧ F64.valid f = true.
Proof. destruct f as [s|s| |[] m e]; cbn; try done. Qed.

(** The scale of a maximum that is a number and not negative: it starts at
    zero and ends, with even intervals, at the maximum itself, and with
    powers of ten beyond it. *)
Lemma scale_ends (label_classification : classificatie) (m : scalar) :
  scalar_nonneg m → is_number m →
  ∃ bs lo hi,
    scale label_classification m = Some bs
    ∧ ascending bs ∧ boundaries_nonneg bs
    ∧ head bs = Some lo ∧ (scalar_Q lo == 0)%Q
    ∧ last bs = Some hi
    ∧ (label_classification = GelijkeIntervals → hi = SFloat (to_float m))
    ∧ (label_classification = MachtenVan10 → (scalar_Q m < scalar_Q hi)%Q).
Proof.
  intros Hpos Hn.
  destruct (scale_sorted_nonneg label_classification m Hpos Hn) as (bs & Hs & Hasc & Hnn).
  destruct label_classification.
  - destruct (EvenFacts.to_float_number m Hn) as [Hf Hv].
    destruct (SignFacts.linspace_finite (to_float m) Hf Hv) as (b1 & b2 & b3 & Hl & _).
    cbn [scale] in Hs. rewrite Hl in Hs. injection Hs as <-.
    exists (SFloat <$> [F64.zero; b1; b2; b3; to_float m]),
      (SFloat F64.zero), (SFloat (to_float m)).
    split; [cbn [scale]; by rewrite Hl|].
    split; [done|]. split; [done|]. split; [done|]. split; [done|].
    split; [done|]. split; [done|]. done.
  - destruct (scale_powers_of_ten_nonneg m Hpos) as (n & d & _ & _ & _ & _ & _ & Hs' & Hlt).
    rewrite Hs' in Hs. injection Hs as <-.
    exists (SInt <$> 0 :: powers_of_ten (d + 1)), (SInt 0), (SInt (10 ^ Z.of_nat d)).
    split; [done|]. split; [done|]. split; [done|]. split; [done|]. split; [done|].
    split; [apply powers_of_ten_last|]. split; [done|]. intros _. exact Hlt.
Qed.

Lemma of_Z_value (z : Z) : 0 <= z < 2 ^ 53 → (F2Q (F64.of_Z z) == inject_Z z)%Q.
Proof.
  intros Hz. destruct (Z.eq_dec z 0) as [->|Hne]; [done|].
  destruct (RoundFacts.of_Z_exact z ltac:(lia)) as (m & e & Heq & He & Hm & Hv).
  apply EvenFacts.scaled_Q; [done|]. rewrite Heq. unfold scaled, cond_Zopp.
  rewrite Hm.
  destruct (RintFacts.valid_digits false m e) as [_ He']; [by rewrite <- Heq|].
  rewrite <- Z.mul_assoc, <- Z.pow_add_r by lia. f_equal. f_equal. lia.
Qed.

Lemma dashboard_total_maximum (df : frame) (cm : mapping) (categorie : string)
    (label_classification : classificatie) :
  frame_wf df →
  categorie ∈ cm.*1 →
  count_columns df (selected_columns cm categorie) →
  (0 < nrows df)%nat →
  (∀ i, (i < nrows df)%nat →
        - 2 ^ 63 <= row_total df (selected_columns cm categorie) i < 2 ^ 63) →
  ∃ m,
    dashboard_scale df cm categorie TotaalAantal label_classification
    = scale label_classification (SInt m)
    ∧ (∃ i, (i < nrows df)%nat ∧ row_total df (selected_columns cm categorie) i = m)
    ∧ (∀ i, (i < nrows df)%nat → row_total df (selected_columns cm categorie) i <= m).
Proof.
  intros Hwf Hcat Hc Hrows Hfit.
  destruct (sum_selected_exact df _ Hwf (selected_columns_nonempty _ _ Hcat) Hc Hfit)
    as (cols & xs & Hget & Hsum & Hlen & Hrow).
  destruct (series_max_counts xs) as (m & Hmax & Hin & Hle).
  { intros ->. cbn in Hlen. lia. }
  apply list_elem_of_lookup in Hin as [i Hi].
  assert (Hi' : (i < nrows df)%nat) by (rewrite <- Hlen; by eapply lookup_lt_Some).
  exists m. split; [|split].
  - unfold dashboard_scale, aggregate. rewrite Hget. cbn [mbind option_bind].
    rewrite Hsum. cbn [mbind option_bind]. unfold getitem, setitem. cbn [columns].
    rewrite lookup_insert_eq. cbn [mbind option_bind]. by rewrite Hmax.
  - exists i. split; [done|]. specialize (Hrow i Hi'). rewrite Hi in Hrow. by injection Hrow.
  - intros j Hj. apply Hle, list_elem_of_lookup. exists j. by apply Hrow.
Qed.

(** X14. Lines 39-51 in total mode, on a frame with at least one
    municipality, for totals from 0 to below 2^53: the scale is built in
    either classification, it is ascending, it starts at 0, and every
    municipality's total lies within it: at most the last boundary, which
    with even intervals is the largest total itself and with powers of ten
    lies beyond every total. *)
Theorem dashboard_scale_total_covers (df : frame) (cm : mapping) (categorie : string)
    (label_classification : classificatie) :
  frame_wf df →
  categorie ∈ cm.*1 →
  count_columns df (selected_columns cm categorie) →
  (0 < nrows df)%nat →
  (∀ i, (i < nrows df)%nat →
        0 <= row_total df (selected_columns cm categorie) i < 2 ^ 53) →
  ∃ bs lo hi,
    dashboard_scale df cm categorie TotaalAantal label_classification = Some bs
    ∧ ascending bs ∧ boundaries_nonneg bs
    ∧ head bs = Some lo ∧ (scalar_Q lo == 0)%Q
    ∧ last bs = Some hi
    ∧ (∀ i, (i < nrows df)%nat →
         (inject_Z (row_total df (selected_columns cm categorie) i) <= scalar_Q hi)%Q)
    ∧ (label_classification = GelijkeIntervals →
       ∃ i, (i < nrows df)%nat
            ∧ (scalar_Q hi == inject_Z (row_total df (selected_columns cm categorie) i))%Q)
    ∧ (label_classification = MachtenVan10 →
       ∀ i, (i < nrows df)%nat →
         (inject_Z (row_total df (selected_columns cm categorie) i) < scalar_Q hi)%Q).
Proof.
  intros Hwf Hcat Hc Hrows Hrange.
  destruct (dashboard_total_maximum df cm categorie label_classification Hwf Hcat Hc Hrows)
    as (m & Hdash & (i & Hi & Hm) & Hupper).
  { intros j Hj. specialize (Hrange j Hj). assert (2 ^ 53 < 2 ^ 63) by done. lia. }
  assert (Hm53 : 0 <= m < 2 ^ 53) by (rewrite <- Hm; by apply Hrange).
  assert (Hpos : scalar_nonneg (SInt m)) by (cbn; lia).
  assert (Hnum : is_number (SInt m)).
  { cbn. assert (2 ^ 53 < 2 ^ 63) by done. lia. }
  destruct (scale_ends label_classification (SInt m) Hpos Hnum)
    as (bs & lo & hi & Hs & Hasc & Hnn & Hlo & Hlo0 & Hhi & Heven & Hpow).
  exists bs, lo, hi. rewrite Hdash.
  do 6 (split; [done|]).
  assert (Hval : label_classification = GelijkeIntervals → (scalar_Q hi == inject_Z m)%Q).
  { intros E. rewrite (Heven E). cbn [scalar_Q to_float]. by apply of_Z_value. }
  split; [|split].
  - intros j Hj. specialize (Hupper j Hj). destruct label_classification.
    + rewrite (Hval eq_refl). by rewrite <- Zle_Qle.
    + specialize (Hpow eq_refl). cbn [scalar_Q] in Hpow. apply Qlt_le_weak.
      eapply Qle_lt_trans; [|exact Hpow]. by rewrite <- Zle_Qle.
  - intros E. exists i. split; [done|]. rewrite Hm. by apply Hval.
  - intros E j Hj. specialize (Hupper j Hj). specialize (Hpow E). cbn [scalar_Q] in Hpow.
    eapply Qle_lt_trans; [|exact Hpow]. by rewrite <- Zle_Qle.
Qed.

(** The rate column, cell by cell: with inhabitants the rate is 0.0 or a
    positive float64, without inhabitants it is NaN or plus infinity. *)
Lemma rate_cells (df : frame) (cm : mapping) (categorie : string) (ps : list Z) :
  frame_wf df →
  categorie ∈ cm.*1 →
  count_columns df (selected_columns cm categorie) →
  columns df !! bevolking = Some (Counts ps) →
  (∀ i, (i < nrows df)%nat →
        0 <= row_total df (selected_columns cm categorie) i < 2 ^ 63) →
  (∀ p, p ∈ ps → 0 <= p < 2 ^ 63) →
  ∃ df' ys,
    aggregate df cm categorie Per100000Inwoners = Some df'
    ∧ columns df' !! metric = Some (Floats ys)
    ∧ length ys = nrows df
    ∧ length ps = nrows df
    ∧ ∀ i p y, ps !! i = Some p → ys !! i = Some y →
        let t := row_total df (selected_columns cm categorie) i in
        (0 < p ∧ t = 0 ∧ y = F64.zero)
        ∨ (0 < p ∧ 0 < t ∧ ∃ m e, y = S754_finite false m e
                                   ∧ F64.valid (S754_finite false m e) = true)
        ∨ (p = 0 ∧ t = 0 ∧ y = S754_nan)
        ∨ (p = 0 ∧ 0 < t ∧ y = S754_infinity false).
Proof.
  intros Hwf Hcat Hc Hpop Hrange Hps.
  destruct (aggregate_rate_cells_exact df cm categorie (Counts ps) (F64.of_Z <$> ps)
              Hwf Hcat Hc Hpop eq_refl)
    as (df' & ys & Hagg & Hcol & Hlen & Hcell).
  { intros j Hj. specialize (Hrange j Hj). lia. }
  assert (Hlp : length ps = nrows df) by apply (Hwf bevolking (Counts ps) Hpop).
  exists df', ys. do 4 (split; [done|]).
  intros i p y Hp Hy. cbn zeta.
  assert (Hi : (i < nrows df)%nat) by (rewrite <- Hlen; by eapply lookup_lt_Some).
  specialize (Hcell i (F64.of_Z p)). rewrite list_lookup_fmap, Hp in Hcell.
  specialize (Hcell eq_refl).
  assert (Ey : y = F64.mul
                     (F64.div (F64.of_Z (row_total df (selected_columns cm categorie) i))
                        (F64.of_Z p))
                     (F64.of_Z 100000)) by congruence.
  assert (Hp' : 0 <= p < 2 ^ 63) by (apply Hps; by eapply list_elem_of_lookup_2).
  destruct (Z.eq_dec p 0) as [->|Hp0].
  - destruct (FiniteFacts.rate_cell_uninhabited _ (Hrange i Hi)) as [[Ht Hv]|[Ht Hv]];
      rewrite Hv in Ey; [right; right; left|right; right; right]; done.
  - destruct (FiniteFacts.rate_cell_finite _ p (Hrange i Hi) ltac:(lia))
      as [[Ht Hv]|[Ht (m & e & Hv & Hvalid)]];
      rewrite Hv in Ey; [left|right; left].
    + split; [lia|done].
    + split; [lia|]. split; [done|]. by exists m, e.
Qed.

(** X15. Lines 39-51 in rate mode, when every municipality without
    inhabitants has no monument of the category either, and one
    municipality at least has inhabitants: the rate is NaN without
    inhabitants and otherwise a float64 that is not negative, never an
    infinity; the maximum skips NaN, the scale is built in either
    classification, is ascending and starts at 0, and every rate that is a
    number lies within it: at most the last boundary, which with even
    intervals is the largest rate itself and with powers of ten lies beyond
    every rate. *)
Theorem dashboard_scale_rate_covers (df : frame) (cm : mapping) (categorie : string)
    (label_classification : classificatie) (ps : list Z) :
  frame_wf df →
  categorie ∈ cm.*1 →
  count_columns df (selected_columns cm categorie) →
  columns df !! bevolking = Some (Counts ps) →
  (∀ i, (i < nrows df)%nat →
        0 <= row_total df (selected_columns cm categorie) i < 2 ^ 63) →
  (∀ p, p ∈ ps → 0 <= p < 2 ^ 63) →
  (∀ i, ps !! i = Some 0 → row_total df (selected_columns cm categorie) i = 0) →
  (∃ p, p ∈ ps ∧ 0 < p) →
  ∃ df' ys bs lo hi,
    aggregate df cm categorie Per100000Inwoners = Some df'
    ∧ columns df' !! metric = Some (Floats ys)
    ∧ (∀ i p y, ps !! i = Some p → ys !! i = Some y →
         (p = 0 → y = S754_nan)
         ∧ (0 < p → F64.is_finite y = true ∧ (0 <= F2Q y)%Q))
    ∧ dashboard_scale df cm categorie Per100000Inwoners label_classification = Some bs
    ∧ ascending bs ∧ boundaries_nonneg bs
    ∧ head bs = Some lo ∧ (scalar_Q lo == 0)%Q
    ∧ last bs = Some hi
    ∧ (∀ y, y ∈ ys → F64.is_nan y = false → (F2Q y <= scalar_Q hi)%Q)
    ∧ (label_classification = GelijkeIntervals → ∃ y, y ∈ ys ∧ hi = SFloat y)
    ∧ (label_classification = MachtenVan10 →
       ∀ y, y ∈ ys → F64.is_nan y = false → (F2Q y < scalar_Q hi)%Q).
Proof.
  intros Hwf Hcat Hc Hpop Hrange Hps Hzero (p0 & Hp0 & Hp0pos).
  destruct (rate_cells df cm categorie ps Hwf Hcat Hc Hpop Hrange Hps)
    as (df' & ys & Hagg & Hcol & Hlen & Hlp & Hcell).
  assert (Hcases : ∀ i p y, ps !! i = Some p → ys !! i = Some y →
            (p = 0 ∧ y = S754_nan) ∨ (0 < p ∧ scalar_nonneg (SFloat y))).
  { intros i p y Hp Hy.
    destruct (Hcell i p y Hp Hy) as [(? & _ & ->)|[(? & _ & m & e & -> & Hv)|[(-> & _ & ->)|(-> & Ht & _)]]].
    - by right.
    - by right.
    - by left.
    - specialize (Hzero i Hp). lia. }
  assert (Hall : Forall (λ y, y = S754_nan ∨ scalar_nonneg (SFloat y)) ys).
  { apply Forall_lookup. intros i y Hy.
    destruct (lookup_lt_is_Some_2 ps i) as [p Hp].
    { rewrite Hlp, <- Hlen. by eapply lookup_lt_Some. }
    destruct (Hcases i p y Hp Hy) as [[_ ->]|[_ ?]]; [by left|by right]. }
  destruct (MaxFacts.series_max_floats ys Hall) as (M & Hmax & HM & HMnn & Hle).
  { apply list_elem_of_lookup in Hp0 as [i Hi].
    destruct (lookup_lt_is_Some_2 ys i) as [y Hy].
    { rewrite Hlen, <- Hlp. by eapply lookup_lt_Some. }
    exists y. split; [by eapply list_elem_of_lookup_2|].
    destruct (Hcases i p0 y Hi Hy) as [[? _]|[_ ?]]; [lia|done]. }
  assert (HMnum : is_number (SFloat M)) by (by apply scalar_nonneg_valid).
  destruct (scale_ends label_classification (SFloat M) HMnn HMnum)
    as (bs & lo & hi & Hs & Hasc & Hbnn & Hlo & Hlo0 & Hhi & Heven & Hpow).
  assert (Hdash : dashboard_scale df cm categorie Per100000Inwoners label_classification
                  = Some bs).
  { unfold dashboard_scale. rewrite Hagg. cbn [mbind option_bind].
    unfold getitem. rewrite Hcol. cbn [mbind option_bind]. rewrite Hmax.
    cbn [mbind option_bind]. exact Hs. }
  assert (Hexp : ∀ y, scalar_nonneg (SFloat y) → ∀ s m e, y = S754_finite s m e → -1200 <= e).
  { intros y Hy. apply EvenFacts.valid_exponent. by apply scalar_nonneg_valid. }
  assert (Hpos : ∀ y, scalar_nonneg (SFloat y) → (0 <= F2Q y)%Q).
  { intros y Hy. change 0%Q with (F2Q F64.zero).
    apply ScaledFacts.F2Q_le_scaled; [done|by apply Hexp|].
    destruct y as [s|s| |[] m e]; try done. cbn.
    apply Z.mul_nonneg_nonneg; [lia|]. apply Z.pow_nonneg. lia. }
  assert (HleQ : ∀ y, y ∈ ys → F64.is_nan y = false → (F2Q y <= F2Q M)%Q).
  { intros y Hy Hn. rewrite Forall_forall in Hall.
    destruct (Hall y Hy) as [->|Hynn]; [done|].
    apply ScaledFacts.F2Q_le_scaled; [by apply Hexp|by apply Hexp|by apply Hle]. }
  exists df', ys, bs, lo, hi. do 2 (split; [done|]). split.
  { intros i p y Hp Hy. destruct (Hcases i p y Hp Hy) as [[-> ->]|[Hp' Hynn]].
    - split; [done|lia].
    - split; [lia|]. intros _. split; [by apply scalar_nonneg_valid|by apply Hpos]. }
  do 6 (split; [done|]). split; [|split].
  - intros y Hy Hn. pose proof (HleQ y Hy Hn) as Hy'. destruct label_classification.
    + by rewrite (Heven eq_refl).
    + specialize (Hpow eq_refl). cbn [scalar_Q] in Hpow. apply Qlt_le_weak.
      eapply Qle_lt_trans; [exact Hy'|exact Hpow].
  - intros E. exists M. split; [done|]. by apply Heven.
  - intros E y Hy Hn. pose proof (HleQ y Hy Hn) as Hy'. specialize (Hpow E).
    cbn [scalar_Q] in Hpow. eapply Qle_lt_trans; [exact Hy'|exact Hpow].
Qed.

(** X16. With inhabitants, a rate of 0.0 means no monument: the rate of a
    municipality that has inhabitants is 0.0 exactly when its total is 0;
    a positive total never rounds down to a rate of zero. *)
Theorem rate_zero_iff (df : frame) (cm : mapping) (categorie : string) (ps : list Z) :
  frame_wf df →
  categorie ∈ cm.*1 →
  count_columns df (selected_columns cm categorie) →
  columns df !! bevolking = Some (Counts ps) →
  (∀ i, (i < nrows df)%nat →
        0 <= row_total df (selected_columns cm categorie) i < 2 ^ 63) →
  (∀ p, p ∈ ps → 0 <= p < 2 ^ 63) →
  ∃ df' ys,
    aggregate df cm categorie Per100000Inwoners = Some df'
    ∧ columns df' !! metric = Some (Floats ys)
    ∧ ∀ i p, ps !! i = Some p → 0 < p →
        ∃ y, ys !! i = Some y
             ∧ (F64.is_zero y = true
                ↔ row_total df (selected_columns cm categorie) i = 0).
Proof.
  intros Hwf Hcat Hc Hpop Hrange Hps.
  destruct (rate_cells df cm categorie ps Hwf Hcat Hc Hpop Hrange Hps)
    as (df' & ys & Hagg & Hcol & Hlen & Hlp & Hcell).
  exists df', ys. do 2 (split; [done|]). intros i p Hp Hpos.
  destruct (lookup_lt_is_Some_2 ys i) as [y Hy].
  { rewrite Hlen, <- Hlp. by eapply lookup_lt_Some. }
  exists y. split; [done|].
  destruct (Hcell i p y Hp Hy)
    as [(_ & Ht & ->)|[(_ & Ht & m & e & -> & _)|[(? & _)|(? & _)]]]; try lia.
  - done.
  - split; [done|lia].
Qed.

(** X17. One municipality without inhabitants but with a monument of the
    category is enough to lose the scale in rate mode: its rate is plus
    infinity, that is the maximum of the column, and with powers of ten the
    scale is not built ([int] raises), while with even intervals it is NaN
    followed by four times plus infinity. *)
Theorem dashboard_scale_rate_uninhabited (df : frame) (cm : mapping) (categorie : string)
    (ps : list Z) (i : nat) :
  frame_wf df →
  categorie ∈ cm.*1 →
  count_columns df (selected_columns cm categorie) →
  columns df !! bevolking = Some (Counts ps) →
  (∀ j, (j < nrows df)%nat →
        0 <= row_total df (selected_columns cm categorie) j < 2 ^ 63) →
  (∀ p, p ∈ ps → 0 <= p < 2 ^ 63) →
  ps !! i = Some 0 →
  0 < row_total df (selected_columns cm categorie) i →
  dashboard_scale df cm categorie Per100000Inwoners MachtenVan10 = None
  ∧ dashboard_scale df cm categorie Per100000Inwoners GelijkeIntervals
    = Some (SFloat <$> S754_nan :: replicate 4 (S754_infinity false)).
Proof.
  intros Hwf Hcat Hc Hpop Hrange Hps Hi Hti.
  destruct (rate_cells df cm categorie ps Hwf Hcat Hc Hpop Hrange Hps)
    as (df' & ys & Hagg & Hcol & Hlen & Hlp & Hcell).
  assert (Hall : Forall (λ y, y = S754_nan ∨ y = S754_infinity false
                              ∨ scalar_nonneg (SFloat y)) ys).
  { apply Forall_lookup. intros j y Hy.
    destruct (lookup_lt_is_Some_2 ps j) as [p Hp].
    { rewrite Hlp, <- Hlen. by eapply lookup_lt_Some. }
    destruct (Hcell j p y Hp Hy)
      as [(_ & _ & ->)|[(_ & _ & m & e & -> & Hv)|[(_ & _ & ->)|(_ & _ & ->)]]];
      [by right; right|by right; right|by left|by right; left]. }
  assert (Hinf : S754_infinity false ∈ ys).
  { destruct (lookup_lt_is_Some_2 ys i) as [y Hy].
    { rewrite Hlen, <- Hlp. by eapply lookup_lt_Some. }
    destruct (Hcell i 0 y Hi Hy)
      as [(? & _)|[(? & _)|[(_ & ? & _)|(_ & _ & ->)]]]; try lia.
    by eapply list_elem_of_lookup_2. }
  unfold dashboard_scale. rewrite Hagg. cbn [mbind option_bind].
  unfold getitem. rewrite Hcol. cbn [mbind option_bind].
  rewrite (MaxFacts.series_max_infinite ys Hall Hinf). cbn [mbind option_bind].
  split; by vm_compute.
Qed.

(** ** The small datasets, run through the pipeline *)

Lemma example_ranges :
  (0 < nrows example_df)%nat
  ∧ (∀ i, (i < nrows example_df)%nat →
          0 <= row_total example_df (selected_columns example_cm "religieus") i < 2 ^ 53)
  ∧ (∀ i, (i < nrows example_df)%nat →
          0 <= row_total example_df (selected_columns example_cm "religieus") i < 2 ^ 63)
  ∧ (∀ p, p ∈ [100000; 0; 0; 50000] → 0 <= p < 2 ^ 63).
Proof.
  assert (H : ∀ i, (i < nrows example_df)%nat →
            0 <= row_total example_df (selected_columns example_cm "religieus") i < 2 ^ 53).
  { intros i Hi. cbn [nrows example_df] in Hi.
    do 4 (destruct i as [|i]; [by vm_compute|]). lia. }
  split; [cbn; lia|]. split; [exact H|]. split.
  - intros i Hi. destruct (H i Hi) as [H0 H1]. split; [done|].
    eapply Z.lt_trans; [exact H1|done].
  - intros p Hp. repeat (apply elem_of_cons in Hp as [->|Hp]; [by vm_compute|]).
    by apply not_elem_of_nil in Hp.
Defined.

Lemma example_towns_ok :
  frame_wf example_towns
  ∧ "religieus"%string ∈ example_cm.*1
  ∧ count_columns example_towns (selected_columns example_cm "religieus")
  ∧ columns example_towns !! bevolking = Some (Counts [100000; 0; 50000])
  ∧ (∀ i, (i < nrows example_towns)%nat →
          0 <= row_total example_towns (selected_columns example_cm "religieus") i < 2 ^ 63)
  ∧ (∀ p, p ∈ [100000; 0; 50000] → 0 <= p < 2 ^ 63)
  ∧ (∀ i, [100000; 0; 50000] !! i = Some 0 →
          row_total example_towns (selected_columns example_cm "religieus") i = 0)
  ∧ (∃ p, p ∈ [100000; 0; 50000] ∧ 0 < p).
Proof.
  split; [|split; [|split; [|split; [|split; [|split; [|split]]]]]].
  - unfold frame_wf, example_towns. cbn [columns nrows].
    repeat (apply map_Forall_insert_2; [done|]). apply map_Forall_empty.
  - by left.
  - intros name Hin. vm_compute in Hin.
    apply elem_of_cons in Hin as [->|Hin]; [by eexists|].
    apply elem_of_cons in Hin as [->|Hin]; [by eexists|].
    by apply not_elem_of_nil in Hin.
  - done.
  - intros i Hi. cbn [nrows example_towns] in Hi.
    do 3 (destruct i as [|i]; [by vm_compute|]). lia.
  - intros p Hp. repeat (apply elem_of_cons in Hp as [->|Hp]; [by vm_compute|]).
    by apply not_elem_of_nil in Hp.
  - intros i Hi. destruct i as [|[|[|i]]]; try done.
  - exists 100000. split; [by left|lia].
Defined.

Lemma dashboard_scale_total_covers_witness :
  (frame_wf example_df
   ∧ "religieus"%string ∈ example_cm.*1
   ∧ count_columns example_df (selected_columns example_cm "religieus")
   ∧ (0 < nrows example_df)%nat
   ∧ ∀ i, (i < nrows example_df)%nat →
          0 <= row_total example_df (selected_columns example_cm "religieus") i < 2 ^ 53)
  ∧ ∃ bs hi,
      dashboard_scale example_df example_cm "religieus" TotaalAantal MachtenVan10 = Some bs
      ∧ ascending bs
      ∧ last bs = Some hi
      ∧ ∀ i, (i < nrows example_df)%nat →
          (inject_Z (row_total example_df (selected_columns example_cm "religieus") i)
           <= scalar_Q hi)%Q.
Proof.
  destruct example_ok as (Hwf & Hcat & Hc & _).
  destruct example_ranges as (Hrows & Hrange & _).
  split; [done|].
  destruct (dashboard_scale_total_covers example_df example_cm "religieus" MachtenVan10
              Hwf Hcat Hc Hrows Hrange)
    as (bs & lo & hi & Hs & Hasc & _ & _ & _ & Hhi & Hcov & _).
  exists bs, hi. split; [exact Hs|]. split; [exact Hasc|]. split; [exact Hhi|exact Hcov].
Defined.

Lemma dashboard_scale_rate_covers_witness :
  (frame_wf example_towns
   ∧ "religieus"%string ∈ example_cm.*1
   ∧ count_columns example_towns (selected_columns example_cm "religieus")
   ∧ columns example_towns !! bevolking = Some (Counts [100000; 0; 50000])
   ∧ (∀ i, (i < nrows example_towns)%nat →
           0 <= row_total example_towns (selected_columns example_cm "religieus") i < 2 ^ 63)
   ∧ (∀ p, p ∈ [100000; 0; 50000] → 0 <= p < 2 ^ 63)
   ∧ (∀ i, [100000; 0; 50000] !! i = Some 0 →
           row_total example_towns (selected_columns example_cm "religieus") i = 0)
   ∧ (∃ p, p ∈ [100000; 0; 50000] ∧ 0 < p))
  ∧ ∃ bs hi,
      dashboard_scale example_towns example_cm "religieus" Per100000Inwoners
        GelijkeIntervals = Some bs
      ∧ ascending bs ∧ last bs = Some hi.
Proof.
  split; [exact example_towns_ok|].
  destruct example_towns_ok as (Hwf & Hcat & Hc & Hpop & Hrange & Hps & Hzero & Hsome).
  destruct (dashboard_scale_rate_covers example_towns example_cm "religieus"
              GelijkeIntervals _ Hwf Hcat Hc Hpop Hrange Hps Hzero Hsome)
    as (df' & ys & bs & lo & hi & _ & _ & _ & Hs & Hasc & _ & _ & _ & Hhi & _).
  exists bs, hi. split; [exact Hs|]. split; [exact Hasc|exact Hhi].
Defined.

Lemma rate_zero_iff_witness :
  (frame_wf example_towns
   ∧ "religieus"%string ∈ example_cm.*1
   ∧ count_columns example_towns (selected_columns example_cm "religieus")
   ∧ columns example_towns !! bevolking = Some (Counts [100000; 0; 50000])
   ∧ (∀ i, (i < nrows example_towns)%nat →
           0 <= row_total example_towns (selected_columns example_cm "religieus") i < 2 ^ 63)
   ∧ (∀ p, p ∈ [100000; 0; 50000] → 0 <= p < 2 ^ 63))
  ∧ ∃ df' ys y,
      aggregate example_towns example_cm "religieus" Per100000Inwoners = Some df'
      ∧ columns df' !! metric = Some (Floats ys)
      ∧ ys !! 2%nat = Some y
      ∧ F64.is_zero y = false.
Proof.
  destruct example_towns_ok as (Hwf & Hcat & Hc & Hpop & Hrange & Hps & _).
  split; [done|].
  destruct (rate_zero_iff example_towns example_cm "religieus" _ Hwf Hcat Hc Hpop Hrange Hps)
    as (df' & ys & Hagg & Hcol & Hiff).
  destruct (Hiff 2%nat 50000 eq_refl ltac:(lia)) as (y & Hy & Hz).
  exists df', ys, y. do 3 (split; [done|]).
  destruct (F64.is_zero y); [|done]. by destruct Hz as [Hz _]; specialize (Hz eq_refl).
Defined.

Lemma dashboard_scale_rate_uninhabited_witness :
  (frame_wf example_df
   ∧ "religieus"%string ∈ example_cm.*1
   ∧ count_columns example_df (selected_columns example_cm "religieus")
   ∧ columns example_df !! bevolking = Some (Counts [100000; 0; 0; 50000])
   ∧ (∀ j, (j < nrows example_df)%nat →
           0 <= row_total example_df (selected_columns example_cm "religieus") j < 2 ^ 63)
   ∧ (∀ p, p ∈ [100000; 0; 0; 50000] → 0 <= p < 2 ^ 63)
   ∧ [100000; 0; 0; 50000] !! 2%nat = Some 0
   ∧ 0 < row_total example_df (selected_columns example_cm "religieus") 2)
  ∧ dashboard_scale example_df example_cm "religieus" Per100000Inwoners MachtenVan10
    = None.
Proof.
  destruct example_ok as (Hwf & Hcat & Hc & Hpop & _).
  destruct example_ranges as (_ & _ & Hrange & Hps).
  assert (H2 : [100000; 0; 0; 50000] !! 2%nat = Some 0) by reflexivity.
  assert (Ht : 0 < row_total example_df (selected_columns example_cm "religieus") 2)
    by (by vm_compute).
  split; [exact (conj Hwf (conj Hcat (conj Hc (conj Hpop (conj Hrange (conj Hps
                   (conj H2 Ht)))))))|].
  exact (proj1 (dashboard_scale_rate_uninhabited example_df example_cm "religieus" _ 2
                  Hwf Hcat Hc Hpop Hrange Hps H2 Ht)).
Defined.

(** ** How close the rate is *)

Lemma scaled_relative_Q (y : spec_float) (p E : Z) :
  (∀ s m e, y = S754_finite s m e → -1200 <= e) →
  2 ^ 51 * (scaled y * p - E * 2 ^ 1200) <= E * 2 ^ 1200 →
  2 ^ 51 * (E * 2 ^ 1200 - scaled y * p) <= E * 2 ^ 1200 →
  (Qabs (F2Q y * inject_Z p - inject_Z E) * inject_Z (2 ^ 51) <= inject_Z E)%Q.
Proof.
  intros Hexp H1 H2.
  pose proof (ScaledFacts.F2Q_scaled_any y Hexp) as HS.
  assert (Hw : (0 < inject_Z (2 ^ 1200))%Q) by done.
  assert (E1 : (inject_Z (2 ^ 51) * (inject_Z (scaled y) * inject_Z p
                                      - inject_Z E * inject_Z (2 ^ 1200))
                <= inject_Z E * inject_Z (2 ^ 1200))%Q).
  { unfold Qminus.
    rewrite <- !inject_Z_mult, <- inject_Z_opp, <- inject_Z_plus, <- inject_Z_mult.
    by rewrite <- Zle_Qle. }
  assert (E2 : (inject_Z (2 ^ 51) * (inject_Z E * inject_Z (2 ^ 1200)
                                      - inject_Z (scaled y) * inject_Z p)
                <= inject_Z E * inject_Z (2 ^ 1200))%Q).
  { unfold Qminus.
    rewrite <- !inject_Z_mult, <- inject_Z_opp, <- inject_Z_plus, <- inject_Z_mult.
    by rewrite <- Zle_Qle. }
  rewrite <- HS in E1, E2. clear HS H1 H2.
  revert Hw E1 E2. generalize (inject_Z (2 ^ 1200)) (inject_Z (2 ^ 51)) (F2Q y)
    (inject_Z p) (inject_Z E).
  intros w c Y P' E' Hw E1 E2.
  apply Qabs_case; intros _; apply (Qmult_le_r _ _ w Hw).
  - eapply Qle_trans; [|exact E1]. apply Qle_lteq. right. ring.
  - eapply Qle_trans; [|exact E2]. apply Qle_lteq. right. ring.
Qed.

(** X18. How close the rate is: for counts and populations below 2^53, the
    float64 rate [y] of a municipality with [p] inhabitants and a total of
    [t] is within one part in 2^51 of the exact rate 100000 t / p, that is
    |y p - 100000 t| 2^51 <= 100000 t. *)
Theorem rate_accuracy (df : frame) (cm : mapping) (categorie : string) (ps : list Z) :
  frame_wf df →
  categorie ∈ cm.*1 →
  count_columns df (selected_columns cm categorie) →
  columns df !! bevolking = Some (Counts ps) →
  (∀ i, (i < nrows df)%nat →
        0 <= row_total df (selected_columns cm categorie) i < 2 ^ 53) →
  (∀ p, p ∈ ps → 0 <= p < 2 ^ 53) →
  ∃ df' ys,
    aggregate df cm categorie Per100000Inwoners = Some df'
    ∧ columns df' !! metric = Some (Floats ys)
    ∧ ∀ i p, ps !! i = Some p → 0 < p →
        ∃ y, ys !! i = Some y
             ∧ F64.is_finite y = true
             ∧ (Qabs (F2Q y * inject_Z p
                      - inject_Z (100000 * row_total df (selected_columns cm categorie) i))
                * inject_Z (2 ^ 51)
                <= inject_Z (100000 * row_total df (selected_columns cm categorie) i))%Q.
Proof.
  intros Hwf Hcat Hc Hpop Hrange Hps.
  destruct (aggregate_rate_cells_exact df cm categorie (Counts ps) (F64.of_Z <$> ps)
              Hwf Hcat Hc Hpop eq_refl)
    as (df' & ys & Hagg & Hcol & Hlen & Hcell).
  { intros j Hj. specialize (Hrange j Hj). assert (2 ^ 53 < 2 ^ 63) by done. lia. }
  assert (Hlp : length ps = nrows df) by apply (Hwf bevolking (Counts ps) Hpop).
  exists df', ys. do 2 (split; [done|]). intros i p Hp Hpos.
  assert (Hi : (i < nrows df)%nat) by (rewrite <- Hlp; by eapply lookup_lt_Some).
  specialize (Hcell i (F64.of_Z p)). rewrite list_lookup_fmap, Hp in Hcell.
  specialize (Hcell eq_refl). eexists. split; [exact Hcell|].
  assert (Hp' : 0 <= p < 2 ^ 53) by (apply Hps; by eapply list_elem_of_lookup_2).
  specialize (Hrange i Hi).
  set (t := row_total df (selected_columns cm categorie) i) in *.
  destruct (Z.eq_dec t 0) as [Ht|Ht].
  - rewrite Ht.
    destruct (FiniteFacts.of_Z_magnitude p) as (mp & ep & -> & _).
    { split; [lia|]. eapply Z.lt_trans; [apply Hp'|done]. }
    done.
  - destruct (FiniteFacts.rate_cell_accuracy t p ltac:(lia) ltac:(lia))
      as (m & e & -> & Hv & H1 & H2).
    split; [done|]. apply scaled_relative_Q.
    + by apply EvenFacts.valid_exponent.
    + exact H1.
    + exact H2.
Qed.

Lemma rate_accuracy_witness :
  (frame_wf example_towns
   ∧ "religieus"%string ∈ example_cm.*1
   ∧ count_columns example_towns (selected_columns example_cm "religieus")
   ∧ columns example_towns !! bevolking = Some (Counts [100000; 0; 50000])
   ∧ (∀ i, (i < nrows example_towns)%nat →
           0 <= row_total example_towns (selected_columns example_cm "religieus") i < 2 ^ 53)
   ∧ (∀ p, p ∈ [100000; 0; 50000] → 0 <= p < 2 ^ 53))
  ∧ ∃ df' ys y,
      aggregate example_towns example_cm "religieus" Per100000Inwoners = Some df'
      ∧ columns df' !! metric = Some (Floats ys)
      ∧ ys !! 2%nat = Some y
      ∧ (Qabs (F2Q y * inject_Z 50000 - inject_Z (100000 * 4)) * inject_Z (2 ^ 51)
         <= inject_Z (100000 * 4))%Q.
Proof.
  destruct example_towns_ok as (Hwf & Hcat & Hc & Hpop & _).
  assert (Hrange : ∀ i, (i < nrows example_towns)%nat →
            0 <= row_total example_towns (selected_columns example_cm "religieus") i < 2 ^ 53).
  { intros i Hi. cbn [nrows example_towns] in Hi.
    do 3 (destruct i as [|i]; [by vm_compute|]). lia. }
  assert (Hps : ∀ p, p ∈ [100000; 0; 50000] → 0 <= p < 2 ^ 53).
  { intros p Hp. repeat (apply elem_of_cons in Hp as [->|Hp]; [by vm_compute|]).
    by apply not_elem_of_nil in Hp. }
  split; [exact (conj Hwf (conj Hcat (conj Hc (conj Hpop (conj Hrange Hps)))))|].
  destruct (rate_accuracy example_towns example_cm "religieus" _ Hwf Hcat Hc Hpop Hrange Hps)
    as (df' & ys & Hagg & Hcol & Hacc).
  destruct (Hacc 2%nat 50000 eq_refl ltac:(lia)) as (y & Hy & _ & Hclose).
  exists df', ys, y. split; [exact Hagg|]. split; [exact Hcol|]. split; [exact Hy|].
  exact Hclose.
Defined.
